(** * edgeautotuner: batch video processing and TFRecord export

    A shallow embedding of [process/process_dataset.py] and of
    [src/edge_autotune/dnn/dataset.py], with the properties of the
    checkpointed dataset-processing loop and of the export validation.

    Conventions of the embedding:
    - Python [int] is [Z]; list lengths and positions are [nat] and are
      injected into [Z] where the source mixes them with ints.
    - the scores and boxes of the models are the exact values [Q] of
      their floats, and [format_f] prints the exact value; the coordinates
      of the export are floats [pyfloat], divided with binary64 rounding
      and compared as floats.
    - an exception is a value of [exn]; a computation that may raise returns
      an [outcome]; a computation that also writes or moves files is an
      [M]: it returns its outcome together with the file effects it had.
    - library collaborators (OpenCV, numpy, pandas, the model runtimes, the
      directory listing) are fields of one record, [Collaborators]. *)

From Stdlib Require Import ZArith QArith Qround String Ascii List Sorted Lia.
From Stdlib Require OrderedTypeEx.
From stdpp Require Import base option list gmap strings pretty.

Close Scope Q_scope.
Open Scope string_scope.
Open Scope list_scope.
Open Scope Z_scope.

(* ===================================================================== *)
(** ** Exceptions and the two monads *)
(* ===================================================================== *)

Inductive exn :=
| ValueError | KeyError | IndexError | TypeError
| AssertionError | NameError
(** [OSError] and its subclasses, [shutil.Error] among them *)
| IOError
(** [tf.errors.NotFoundError] *)
| NotFoundError
(** [bdb.BdbQuit]: a debugger session that is quit, or that has no
    terminal to read from *)
| BdbQuit.

Inductive outcome (A : Type) : Type :=
| Ok (a : A)
| Raise (e : exn).
Arguments Ok {A} a.
Arguments Raise {A} e.

#[global] Instance outcome_ret : MRet outcome := fun _ a => Ok a.
#[global] Instance outcome_bind : MBind outcome := fun _ _ f m =>
  match m with
  | Ok a => f a
  | Raise e => Raise e
  end.

Definition is_ok {A} (o : outcome A) : bool :=
  match o with Ok _ => true | Raise _ => false end.

(** [for x in xs: acc = f(acc, x)], stopping at the first exception. *)
Fixpoint foldM {A B} (f : A -> B -> outcome A) (acc : A) (xs : list B)
  : outcome A :=
  match xs with
  | [] => Ok acc
  | x :: xs' => acc' ← f acc x; foldM f acc' xs'
  end.

(** A list comprehension whose body may raise. *)
Fixpoint mapM_o {A B} (f : A -> outcome B) (xs : list A) : outcome (list B) :=
  match xs with
  | [] => Ok []
  | x :: xs' => y ← f x; ys ← mapM_o f xs'; Ok (y :: ys)
  end.

(** [xs[i]] for a non-negative position. *)
Definition index {A} (xs : list A) (i : nat) : outcome A :=
  match xs !! i with
  | Some x => Ok x
  | None => Raise IndexError
  end.

(** [enumerate(xs)]. *)
Definition enumerate {A} (xs : list A) : list (nat * A) :=
  zip (seq 0 (length xs)) xs.

(* ===================================================================== *)
(** ** Strings and paths *)
(* ===================================================================== *)

(** [s.split(c)] for a one-character separator. *)
Fixpoint split_on (c : ascii) (s : string) : list string :=
  match s with
  | EmptyString => [EmptyString]
  | String a s' =>
      if Ascii.eqb a c then EmptyString :: split_on c s'
      else match split_on c s' with
           | [] => [String a EmptyString]
           | w :: ws => String a w :: ws
           end
  end.

(** [s.rpartition(c)] when [c] occurs: the text before and after the last
    occurrence. *)
Fixpoint rsplit1 (c : ascii) (s : string) : option (string * string) :=
  match s with
  | EmptyString => None
  | String a s' =>
      match rsplit1 c s' with
      | Some (pre, post) => Some (String a pre, post)
      | None => if Ascii.eqb a c then Some (EmptyString, s') else None
      end
  end.

Definition nonempty (s : string) : bool :=
  match s with EmptyString => false | _ => true end.

(** [PurePosixPath(p).name] of a normalised path. *)
Definition path_name (p : string) : string :=
  match rsplit1 "/" p with
  | Some (_, post) => post
  | None => p
  end.

(** [PurePosixPath(p).stem]: the name without its last suffix; a leading
    or a trailing dot starts no suffix. *)
Definition stem (p : string) : string :=
  let name := path_name p in
  match rsplit1 "." name with
  | Some (pre, post) => if nonempty pre && nonempty post then pre else name
  | None => name
  end.

(** [PurePosixPath(p).suffix]. *)
Definition suffix (p : string) : string :=
  match rsplit1 "." (path_name p) with
  | Some (pre, post) =>
      if nonempty pre && nonempty post then String "." post else EmptyString
  | None => EmptyString
  end.

(** [sep.join(parts)]. *)
Fixpoint join (sep : string) (parts : list string) : string :=
  match parts with
  | [] => EmptyString
  | [p] => p
  | p :: ps => p +:+ sep +:+ join sep ps
  end.

(* ===================================================================== *)
(** ** Numbers *)
(* ===================================================================== *)

(** [int(x)] of a float: truncation towards zero. *)
Definition Qtrunc (q : Q) : Z := Z.quot (Qnum q) (Zpos (Qden q)).

Definition round_half_even (q : Q) : Z :=
  let f := Qfloor q in
  match Qcompare (Qminus q (inject_Z f)) (Qmake 1 2) with
  | Lt => f
  | Gt => f + 1
  | Eq => if Z.even f then f else f + 1
  end.

Fixpoint zeros (n : nat) : string :=
  match n with
  | O => EmptyString
  | S k => String "0" (zeros k)
  end.

(** [s] with zeros put before it up to [width] characters. *)
Definition zero_pad (width : nat) (s : string) : string :=
  zeros (width - String.length s) +:+ s.

(** [f'{q:.<d>f}'] for the float whose exact value is [q]: fixed-point
    notation with [d] fractional digits, the exact value being rounded to
    the nearest, ties to even. *)
Definition format_f (d : nat) (q : Q) : string :=
  let scale := 10 ^ Z.of_nat d in
  let n := Z.abs (round_half_even (Qmult q (inject_Z scale))) in
  let sign := match Qcompare q (inject_Z 0) with Lt => "-" | _ => "" end in
  let int_part := pretty (n / scale) in
  match d with
  | O => sign +:+ int_part
  | _ => sign +:+ int_part +:+ "." +:+ zero_pad d (pretty (n mod scale))
  end.

(** A Python [float], an IEEE 754 binary64 value: not-a-number, an
    infinity, or a finite value, which is a rational. The two zeros compare
    equal and are one value here. *)
Inductive pyfloat := NaN | NegInf | Finite (q : Q) | PosInf.

Definition pow2 (p : Z) : Q :=
  if 0 <=? p then inject_Z (2 ^ p) else Qmake 1 (Z.to_pos (2 ^ (- p))).

(** The [e] with [2 ^ e <= a < 2 ^ (e + 1)], for a positive [a]. *)
Definition floor_log2 (a : Q) : Z :=
  let e0 := Z.log2 (Qnum a) - Z.log2 (Zpos (Qden a)) in
  if Qle_bool (pow2 e0) a then e0 else e0 - 1.

(** The binary64 value nearest to a positive rational, ties to even: 53
    significant bits, the least exponent of the last bit -1074, and
    infinity from [2 ^ 1024 - 2 ^ 970] on. *)
Definition round64_pos (a : Q) : pyfloat :=
  let p := Z.max (floor_log2 a - 52) (-1074) in
  let m := round_half_even (Qdiv a (pow2 p)) in
  if 2 ^ 53 * 2 ^ 971 <=? m * 2 ^ (Z.max p 0) then PosInf
  else Finite (Qred (Qmult (inject_Z m) (pow2 p))).

(** The binary64 value nearest to a rational: what a float operation
    gives for the exact result [q], and what a decimal literal denotes. *)
Definition round64 (q : Q) : pyfloat :=
  match Qcompare q (inject_Z 0) with
  | Eq => Finite (inject_Z 0)
  | Gt => round64_pos q
  | Lt => match round64_pos (Qopp q) with
          | Finite r => Finite (Qopp r)
          | PosInf => NegInf
          | other => other
          end
  end.

(** [x / n] for a float [x] and a positive int [n]. *)
Definition truediv (x : pyfloat) (n : positive) : pyfloat :=
  match x with
  | Finite q => round64 (Qdiv q (inject_Z (Zpos n)))
  | other => other
  end.

(** [a < b] and [a <= b] on floats: false when either is not a number. *)
Definition float_lt (a b : pyfloat) : bool :=
  match a, b with
  | NaN, _ | _, NaN => false
  | _, NegInf => false
  | NegInf, _ => true
  | PosInf, _ => false
  | Finite _, PosInf => true
  | Finite x, Finite y => negb (Qle_bool y x)
  end.

Definition float_le (a b : pyfloat) : bool :=
  match a, b with
  | NaN, _ | _, NaN => false
  | NegInf, _ => true
  | _, NegInf => false
  | _, PosInf => true
  | PosInf, _ => false
  | Finite x, Finite y => Qle_bool x y
  end.

Definition is_number (x : pyfloat) : bool :=
  match x with NaN => false | _ => true end.

Definition len {A} (xs : list A) : Z := Z.of_nat (length xs).

(** [max(xs)] over ints; [ValueError] on an empty sequence. *)
Definition py_max_Z (xs : list Z) : outcome Z :=
  match xs with
  | [] => Raise ValueError
  | x :: xs' => Ok (fold_left Z.max xs' x)
  end.

(* ===================================================================== *)
(** ** [range] and [chunks] *)
(* ===================================================================== *)

Fixpoint range_up (fuel : nat) (i stop step : Z) : list Z :=
  match fuel with
  | O => []
  | S fuel' =>
      if i <? stop then i :: range_up fuel' (i + step) stop step else []
  end.

Fixpoint range_down (fuel : nat) (i stop step : Z) : list Z :=
  match fuel with
  | O => []
  | S fuel' =>
      if stop <? i then i :: range_down fuel' (i + step) stop step else []
  end.

(** [range(start, stop, step)]; a zero step is a [ValueError]. *)
Definition py_range (start stop step : Z) : outcome (list Z) :=
  if step =? 0 then Raise ValueError
  else if 0 <? step
       then Ok (range_up (Z.to_nat (stop - start)) start stop step)
       else Ok (range_down (Z.to_nat (start - stop)) start stop step).

(** [lst[i:j]] for non-negative [i] and [j]. *)
Definition slice {A} (lst : list A) (i j : Z) : list A :=
  take (Z.to_nat (j - i)) (drop (Z.to_nat i) lst).

(** [chunks(lst, n)]: yield successive n-sized chunks from lst. The
    generator is run to its end: the list is not mutated meanwhile, and the
    only exception is raised before the first chunk. *)
Definition chunks {A} (lst : list A) (n : Z) : outcome (list (list A)) :=
  starts ← py_range 0 (len lst) n;
  Ok (map (fun i => slice lst i (i + n)) starts).

(* ===================================================================== *)
(** ** File effects *)
(* ===================================================================== *)

(** One row of the accumulated detections table, in the column order of
    [process_dataset]. *)
Record DetectionRow := {
  cam : string;
  timestamp : string;
  date : string;
  hour : string;
  minute : string;
  frame_id : nat;
  model_name : string;
  top_scores : string;
  top_classes : string;
}.

(** One row of a per-video pickle:
    [[frame, class_id, score, xmin, ymin, xmax, ymax]]. *)
Record PickleRow := {
  pk_frame : nat;
  pk_class_id : Z;
  pk_score : Q;
  pk_xmin : Z;
  pk_ymin : Z;
  pk_xmax : Z;
  pk_ymax : Z;
}.

(** The two kinds of CSV file of a run: [<output>/<name>.tmp.csv.<idx>]
    and [<output>/<name>.csv]. *)
Inductive csv_file :=
| TmpCsv (idx : Z)
| FinalCsv.

Definition csv_path (output dataset_name : string) (f : csv_file) : string :=
  match f with
  | TmpCsv idx => output +:+ "/" +:+ dataset_name +:+ ".tmp.csv." +:+ pretty idx
  | FinalCsv => output +:+ "/" +:+ dataset_name +:+ ".csv"
  end.

Inductive event :=
| ToPickle (path : string) (df : list PickleRow)
| ToCsv (file : csv_file) (table : list DetectionRow)
| Move (src dst : string).

(** A computation with file effects: its outcome and the effects it had, in
    order. The effects outlive an exception, as files written before it stay
    on disk. *)
Definition M (A : Type) : Type := (outcome A * list event)%type.

Definition retM {A} (a : A) : M A := (Ok a, []).

Definition bindM {A B} (m : M A) (f : A -> M B) : M B :=
  match m with
  | (Ok a, log) => let '(r, log') := f a in (r, log ++ log')
  | (Raise e, log) => (Raise e, log)
  end.

Definition lift {A} (o : outcome A) : M A := (o, []).

Definition emit (e : event) : M unit := (Ok tt, [e]).

Notation "'do' x <- m ; k" := (bindM m (fun x => k))
  (at level 10, x name, m at level 100, k at level 200,
   format "'[v' 'do'  x  <-  m ; '/' k ']'").
Notation "'do' ' p <- m ; k" := (bindM m (fun x => match x with p => k end))
  (at level 10, p pattern, m at level 100, k at level 200).

Fixpoint foldM_M {A B} (f : A -> B -> M A) (acc : A) (xs : list B) : M A :=
  match xs with
  | [] => retM acc
  | x :: xs' => do acc' <- f acc x; foldM_M f acc' xs'
  end.

(** The position of the first result that holds an exception. *)
Fixpoint first_raise {A} (results : list (outcome A)) : option nat :=
  match results with
  | [] => None
  | Ok _ :: rest => S <$> first_raise rest
  | Raise _ :: _ => Some 0%nat
  end.

(** The tasks of a wave that run. Workers take the tasks in submission
    order. When no task raises, all run. When a task raises, the tasks no
    worker has taken by the time its exception is read are cancelled: the
    tasks up to the first that raises run, and of those after it the first
    [taken]. *)
Definition tasks_run {A B} (taken : nat) (f : A -> M B) (xs : list A) : list A :=
  match first_raise (map (fun x => fst (f x)) xs) with
  | Some i => take (S i + taken) xs
  | None => xs
  end.

(** [executor.map(f, xs)]: every task of the wave is submitted, and an
    exception of a task is kept in its future and raised when its result is
    read. The effects of the tasks that run are taken in submission
    order. *)
Definition executor_map {A B} (taken : nat) (f : A -> M B) (xs : list A)
  : M (list (outcome B)) :=
  (Ok (map (fun x => fst (f x)) xs),
   flat_map (fun x => snd (f x)) (tasks_run taken f xs)).

(* ===================================================================== *)
(** ** Predictions *)
(* ===================================================================== *)

(** The detector's answer for one frame, first batch element. *)
Record TfPreds := {
  detection_boxes : list (list Q);
  detection_scores : list Q;
  detection_classes : list Q;
}.

(** The dictionary returned by [get_top_torch] (keys [idxs], [scores]) or by
    [get_top_tf] (keys [boxes], [scores], [idxs]). *)
Inductive Top :=
| TopTorch (idxs scores : list string)
| TopTf (boxes : list (list Q)) (scores : list Q) (idxs : list Z).

(** A pandas timestamp, as far as [split_date] reads it. *)
Record Timestamp := {
  ts_year : Z; ts_month : Z; ts_day : Z; ts_hour : Z; ts_minute : Z;
}.

(** [str(ts.date())]. *)
Definition date_str (t : Timestamp) : string :=
  zero_pad 4 (pretty (ts_year t)) +:+ "-" +:+
  zero_pad 2 (pretty (ts_month t)) +:+ "-" +:+
  zero_pad 2 (pretty (ts_day t)).

(** [lst[:n]] for an int [n] of either sign. *)
Definition slice_to {A} (lst : list A) (n : Z) : list A :=
  if 0 <=? n then take (Z.to_nat n) lst
  else take (length lst - Z.to_nat (- n))%nat lst.

(** [[f'{s:.3f}' for s in p['scores']]]: the format code [f] is refused for
    a [str]. *)
Definition top_scores_3f (p : Top) : outcome (list string) :=
  match p with
  | TopTorch _ scores => mapM_o (fun _ : string => Raise ValueError) scores
  | TopTf _ scores _ => Ok (map (format_f 3) scores)
  end.

(** [[str(c) for c in p['idxs']]]. *)
Definition top_idxs_str (p : Top) : list string :=
  match p with
  | TopTorch idxs _ => idxs
  | TopTf _ _ idxs => map pretty idxs
  end.

(* ===================================================================== *)
(** ** [process/process_dataset.py] *)
(* ===================================================================== *)

Module ProcessDataset.

Section WithCollaborators.

Context {Model Device Frame : Type}.

(** What the script obtains from its libraries and from the disk as it is
    when the run starts. *)
Record Collaborators := {
  (** [frame.shape] of a decoded frame *)
  frame_shape : Frame -> list Z;
  (** the frames [cv2.VideoCapture(filename).read()] yields before it
      reports failure *)
  VideoCapture : string -> list Frame;
  (** the dense score vector [model(x)[0]] of [infer_torch] *)
  torch_predict : Model -> Device -> Frame -> list Q;
  (** [utils.detector.run_detector(model, img, model.input_size)] *)
  run_detector : Model -> Frame -> TfPreds;
  (** [np.argpartition(a, kth)] *)
  argpartition : list Q -> Z -> outcome (list nat);
  (** [pd.to_datetime(ts)] *)
  to_datetime : string -> outcome Timestamp;
  (** [int(s)] of a string *)
  py_int : string -> outcome Z;
  (** [os.path.isfile(path)] *)
  isfile : string -> bool;
  (** [Path(dir).glob(pattern)] *)
  glob : string -> string -> list string;
  (** [shutil.move(src, dst)]: whether the move is made, or the exception
      it raises, as when the target already holds a file of that name *)
  shutil_move : string -> string -> outcome unit;
  (** in the wave of this index, should a task raise: how many of the tasks
      after the first that raises run all the same, a worker having taken
      them before the pending ones were cancelled (all of them when the
      loop ends before it reads the exception) *)
  pool_taken : nat -> nat;
}.

Variable E : Collaborators.

(** The module-level registries [models] and [devices], filled by [main]. *)
Variable models : gmap string Model.
Variable devices : gmap string Device.

Definition infer_tf (model : Model) (img : Frame) (device : Device) : TfPreds :=
  run_detector E model img.

Definition infer_torch (model : Model) (img : Frame) (device : Device) : list Q :=
  torch_predict E model device img.

Definition get_top_torch (preds : list Q) (topn : Z) : outcome Top :=
  let topn := if len preds <? topn then len preds else topn in
  part ← argpartition E (map Qopp preds) 5;
  let idxs := slice_to part topn in
  results ← mapM_o (fun idx : nat =>
                      p ← index preds idx;
                      Ok [pretty idx; format_f 2 p]) idxs;
  r0 ← index results 0;
  r1 ← index results 1;
  Ok (TopTorch r0 r1).

Definition get_top_tf (preds : TfPreds) (topn : nat) : Top :=
  TopTf (take topn (detection_boxes preds))
        (take topn (detection_scores preds))
        (map Qtrunc (take topn (detection_classes preds))).

Definition infer_video (filename : string) (model : Model) (device : Device)
    (framework : string) : outcome (list Top * list Z) :=
  let frames := VideoCapture E filename in
  let frame_shape :=
    match frames with
    | frame :: _ => frame_shape E frame
    | [] => [0; 0]
    end in
  data ← mapM_o (fun frame =>
                   if String.eqb framework "torch"
                   then get_top_torch (infer_torch model frame device) 10
                   else Ok (get_top_tf (infer_tf model frame device) 10))
                frames;
  Ok (data, frame_shape).

(** The rows one frame contributes to the per-video table; [d['boxes']] is
    read first, and [get_top_torch] makes no such key. *)
Definition frame_pickle_rows (frame_shape : list Z) (i : nat) (d : Top)
  : outcome (list PickleRow) :=
  match d with
  | TopTorch _ _ => Raise KeyError
  | TopTf boxes scores idxs =>
      mapM_o (fun j : nat =>
                class_id ← index idxs j;
                score ← index scores j;
                bbox ← index boxes j;
                match bbox with
                | [ymin; xmin; ymax; xmax] =>
                    w ← index frame_shape 1;
                    h ← index frame_shape 0;
                    Ok {| pk_frame := i; pk_class_id := class_id;
                          pk_score := score;
                          pk_xmin := Qtrunc (Qmult xmin (inject_Z w));
                          pk_ymin := Qtrunc (Qmult ymin (inject_Z h));
                          pk_xmax := Qtrunc (Qmult xmax (inject_Z w));
                          pk_ymax := Qtrunc (Qmult ymax (inject_Z h)) |}
                | _ => Raise ValueError
                end)
             (seq 0 (length boxes))
  end.

Definition process_video (filename : string) (model : Model) (device : Device)
    (framework : string) (output : option string)
  : M (list (nat * string * string)) :=
  do '(data, frame_shape) <- lift (infer_video filename model device framework);
  do _ <- match output with
          | Some out =>
              if 0 <? len data then
                let path := out +:+ "/" +:+ stem filename +:+ ".pkl" in
                do df_data <- lift (mapM_o (fun '(i, d) =>
                                              frame_pickle_rows frame_shape i d)
                                           (enumerate data));
                emit (ToPickle path (concat df_data))
              else retM tt
          | None => retM tt
          end;
  do scores <- lift (mapM_o (fun p => ss ← top_scores_3f p; Ok (join "," ss))
                            data);
  let classes := map (fun p => join "," (top_idxs_str p)) data in
  lift (mapM_o (fun '(i, s) => c ← index classes i; Ok (i, s, c))
               (enumerate scores)).

(** One entry of [query_args]: [[video, model, framework, output]]. *)
Definition query := (string * string * string * option string)%type.

Definition process_video_parallel (args : query)
  : M (list (nat * string * string)) :=
  let '(filename, model, framework, output) := args in
  match models !! model with
  | None => lift (Raise KeyError)
  | Some m =>
      match devices !! model with
      | None => lift (Raise KeyError)
      | Some device => process_video filename m device framework output
      end
  end.

Definition split_date (ts : string) : outcome (string * string * string) :=
  t ← to_datetime E ts;
  Ok (date_str t, pretty (ts_hour t), pretty (ts_minute t)).

(** A value stored in [processed_ts], a [defaultdict(bool)] that also
    receives stems. *)
Inductive flag :=
| FlagBool (b : bool)
| FlagStem (s : string).

Definition truthy (v : flag) : bool :=
  match v with
  | FlagBool b => b
  | FlagStem s => nonempty s
  end.

(** The bucket of a video: [f'[{cam}] {date}:{hour}'], read off its stem
    [<timestamp>.<cam>]. *)
Definition date_hour_key (f : string) : outcome string :=
  ts ← index (split_on "." (stem f)) 0;
  cam ← index (split_on "." (stem f)) 1;
  '(date, hour, _) ← split_date ts;
  Ok ("[" +:+ cam +:+ "] " +:+ date +:+ ":" +:+ hour).

(** The body of the loop [for f in dataset] of the fast mode. Reading a
    missing key of the [defaultdict] stores [False] under it. *)
Definition fast_step (acc : list string * gmap string flag) (f : string)
  : outcome (list string * gmap string flag) :=
  let '(videos, processed_ts) := acc in
  date_hour ← date_hour_key f;
  let '(seen, processed_ts) :=
    match processed_ts !! date_hour with
    | Some v => (v, processed_ts)
    | None => (FlagBool false, <[date_hour := FlagBool false]> processed_ts)
    end in
  if truthy seen then Ok (videos, processed_ts)
  else Ok (videos ++ [f], <[date_hour := FlagStem (stem f)]> processed_ts).

Definition enumerate_videos (process_all : bool) (dataset : list string)
  : outcome (list string) :=
  if process_all then Ok dataset
  else acc ← foldM fast_step ([], ∅) dataset; Ok (fst acc).

Definition pkl_path (output v : string) : string :=
  output +:+ "/" +:+ stem v +:+ ".pkl".

Definition skip_processed (per_video_results : bool) (output : string)
    (videos : list string) : list string :=
  if per_video_results
  then List.filter (fun v => negb (isfile E (pkl_path output v))) videos
  else videos.

Definition clamp_workers (pending max_workers : Z) : Z :=
  if pending <? max_workers * 2 then pending else max_workers.

Definition scan_tmp_files (output : string) : outcome (list Z) :=
  mapM_o (fun tmp => part ← index (split_on "." (suffix tmp)) 1;
                     py_int E part)
         (glob E output "*.tmp.csv.*").

Definition previous_tmp_files (tmp_files : list Z) : outcome Z :=
  if 0 <? len tmp_files then m ← py_max_Z tmp_files; Ok (m + 1) else Ok 0.

(** The variables of [process_dataset] that the loop over the chunks
    updates; [filename] is the loop variable of the inner loop, read again
    after it. *)
Record LoopState := {
  detections : list DetectionRow;
  videos_processed : gmap string Z;
  filename : option string;
}.

Definition rows_of (model ts cam date hour minute : string)
    (r : list (nat * string * string)) : list DetectionRow :=
  map (fun '(i, s, c) =>
         {| cam := cam; timestamp := ts; date := date; hour := hour;
            minute := minute; frame_id := i; model_name := model;
            top_scores := s; top_classes := c |}) r.

(** The body of [for r_idx, r in enumerate(results)]. *)
Definition collect (model : string) (chunk : list query) (ckpt : Z)
    (st : LoopState) (item : nat * outcome (list (nat * string * string)))
  : M LoopState :=
  let '(r_idx, future) := item in
  do r <- lift future;
  do q <- lift (index chunk r_idx);
  let '(filename, _, _, _) := q in
  if len r =? 0 then
    retM {| detections := detections st;
            videos_processed := videos_processed st;
            filename := Some filename |}
  else
    do ts <- lift (index (split_on "." (stem filename)) 0);
    do cam <- lift (index (split_on "." (stem filename)) 1);
    do '(date, hour, minute) <- lift (split_date ts);
    let df := rows_of model ts cam date hour minute r in
    let detections := detections st ++ df in
    do _ <- emit (ToCsv (TmpCsv ckpt) detections);
    retM {| detections := detections;
            videos_processed := videos_processed st;
            filename := Some filename |}.

(** What follows the inner loop: the completion counter of [filename]. *)
Definition count_completion (move_when_done : option string) (st : LoopState)
  : M LoopState :=
  do filename <- lift (match filename st with
                       | Some f => Ok f
                       | None => Raise NameError
                       end);
  let count := default 0 (videos_processed st !! filename) + 1 in
  let counted := <[filename := count]> (videos_processed st) in
  let moving :=
    match move_when_done with
    | Some target => if count =? Z.of_nat (size models) then Some target else None
    | None => None
    end in
  match moving with
  | Some target =>
      do _ <- lift (shutil_move E filename target);
      do _ <- emit (Move filename target);
      retM {| detections := detections st;
              videos_processed := delete filename counted;
              filename := Some filename |}
  | None =>
      retM {| detections := detections st;
              videos_processed := counted;
              filename := Some filename |}
  end.

(** The body of [for chunk_idx, chunk in enumerate(chunks(...))]. A pool
    of no worker is refused by [ThreadPoolExecutor]. *)
Definition process_chunk (model : string) (move_when_done : option string)
    (max_workers previous : Z) (st : LoopState) (item : nat * list query)
  : M LoopState :=
  let '(chunk_idx, chunk) := item in
  if max_workers <=? 0 then lift (Raise ValueError)
  else
    do results <- executor_map (pool_taken E chunk_idx)
                               process_video_parallel chunk;
    do st <- foldM_M (collect model chunk (Z.of_nat chunk_idx + previous))
                     st (enumerate results);
    count_completion move_when_done st.

Definition initial_state : LoopState :=
  {| detections := []; videos_processed := ∅; filename := None |}.

(** The state after the first [n] waves of the loop over [cs]. *)
Definition after_waves (model : string) (move_when_done : option string)
    (max_workers previous : Z) (cs : list (list query)) (n : nat)
  : M LoopState :=
  foldM_M (process_chunk model move_when_done max_workers previous)
          initial_state (take n (enumerate cs)).

Definition process_dataset (dataset : list string)
    (dataset_name model framework output : string)
    (per_video_results process_all : bool) (move_when_done : option string)
    (max_workers : Z) : M unit :=
  do videos <- lift (enumerate_videos process_all dataset);
  let videos := skip_processed per_video_results output videos in
  let video_results_output := if per_video_results then Some output else None in
  let query_args : list query :=
    map (fun video => (video, model, framework, video_results_output)) videos in
  let max_workers := clamp_workers (len query_args) max_workers in
  do tmp_files <- lift (scan_tmp_files output);
  do previous <- lift (previous_tmp_files tmp_files);
  do cs <- lift (chunks query_args (max_workers * 2));
  do st <- after_waves model move_when_done max_workers previous cs (length cs);
  emit (ToCsv FinalCsv (detections st)).

End WithCollaborators.

Arguments Collaborators : clear implicits.

End ProcessDataset.

(* ===================================================================== *)
(** ** [src/edge_autotune/dnn/dataset.py] *)
(* ===================================================================== *)

Module Dataset.

(** One row of the detections CSV: the coordinates as the floats the
    division below operates on. *)
Record Row := {
  file : string;
  xmin : pyfloat;
  xmax : pyfloat;
  ymin : pyfloat;
  ymax : pyfloat;
  class : string;
}.

(** [data(filename, object)] of [_split_by_filename]. *)
Record Group := {
  filename : string;
  object : list Row;
}.

(** An image file on disk: its bytes and the size PIL decodes from them. *)
Record ImageFile := {
  encoded_jpg : string;
  width : positive;
  height : positive;
}.

Record TfExample := {
  image_height : positive;
  image_width : positive;
  image_filename : string;
  image_source_id : string;
  image_encoded : string;
  image_format : string;
  bbox_xmin : list pyfloat;
  bbox_xmax : list pyfloat;
  bbox_ymin : list pyfloat;
  bbox_ymax : list pyfloat;
  class_text : list string;
  class_label : list Z;
}.

(** [max(xs)] and [min(xs)] of floats: the first item is kept until an
    item compares greater (smaller), which an item that is not a number
    never does; [ValueError] on an empty sequence. *)
Definition py_max (xs : list pyfloat) : outcome pyfloat :=
  match xs with
  | [] => Raise ValueError
  | x :: xs' => Ok (fold_left (fun m y => if float_lt m y then y else m) xs' x)
  end.

Definition py_min (xs : list pyfloat) : outcome pyfloat :=
  match xs with
  | [] => Raise ValueError
  | x :: xs' => Ok (fold_left (fun m y => if float_lt y m then y else m) xs' x)
  end.

(** [os.path.join(a, b)]. *)
Definition os_path_join (a b : string) : string :=
  match b with
  | String "/" _ => b
  | _ =>
      match rsplit1 "/" a with
      | Some (_, EmptyString) => a +:+ b
      | _ => if nonempty a then a +:+ "/" +:+ b else b
      end
  end.

(** The six lists filled by the loop over the rows of a group. *)
Record Columns := {
  xmins : list pyfloat;
  xmaxs : list pyfloat;
  ymins : list pyfloat;
  ymaxs : list pyfloat;
  classes_text : list string;
  classes : list Z;
}.

(** [row[...] / width]: the float quotient. *)
Definition over (x : pyfloat) (size : positive) : pyfloat := truediv x size.

(** The body of [for index, row in group.object.iterrows()]. *)
Definition add_row (width height : positive) (id_map : gmap string Z)
    (cols : Columns) (row : Row) : outcome Columns :=
  match id_map !! class row with
  | None => Raise KeyError
  | Some id =>
      Ok {| xmins := xmins cols ++ [over (xmin row) width];
            xmaxs := xmaxs cols ++ [over (xmax row) width];
            ymins := ymins cols ++ [over (ymin row) height];
            ymaxs := ymaxs cols ++ [over (ymax row) height];
            classes_text := classes_text cols ++ [class row];
            classes := classes cols ++ [id] |}
  end.

(** The float literals [1.1] and [0.0]. *)
Definition upper_bound : pyfloat := round64 (Qmake 11 10).
Definition lower_bound : pyfloat := Finite (inject_Z 0).

Section WithDebugger.

(** What a debugger session opened by [pdb.set_trace()] ends in, by the
    image file being converted and the place of the call (0 after the
    check of the maximum, 1 after the check of the minimum): [Ok] when the
    operator lets the program continue, [BdbQuit] when the session is quit
    or has no terminal. *)
Variable set_trace : string -> nat -> outcome unit.

(** [create_tf_example(group, path, id_map)] over the image files
    [images]. *)
Definition create_tf_example (images : gmap string ImageFile) (group : Group)
    (path : string) (id_map : gmap string Z) : outcome TfExample :=
  let image_path := os_path_join path (filename group) in
  image ← match images !! image_path with
          | Some image => Ok image
          | None => Raise NotFoundError
          end;
  cols ← foldM (add_row (width image) (height image) id_map)
               {| xmins := []; xmaxs := []; ymins := []; ymaxs := [];
                  classes_text := []; classes := [] |}
               (object group);
  let coords := xmins cols ++ xmaxs cols ++ ymins cols ++ ymaxs cols in
  hi ← py_max coords;
  _ ← (if float_lt upper_bound hi then set_trace image_path 0%nat else Ok tt);
  lo ← py_min coords;
  _ ← (if float_lt lo lower_bound then set_trace image_path 1%nat else Ok tt);
  if negb (float_le hi upper_bound) then Raise AssertionError
  else if negb (float_le lower_bound lo) then Raise AssertionError
  else Ok {| image_height := height image;
             image_width := width image;
             image_filename := filename group;
             image_source_id := filename group;
             image_encoded := encoded_jpg image;
             image_format := "jpg";
             bbox_xmin := xmins cols;
             bbox_xmax := xmaxs cols;
             bbox_ymin := ymins cols;
             bbox_ymax := ymaxs cols;
             class_text := classes_text cols;
             class_label := classes cols |}.

Fixpoint insert_sorted (s : string) (sorted : list string) : list string :=
  match sorted with
  | [] => [s]
  | t :: rest =>
      match String.compare s t with
      | Lt => s :: sorted
      | Eq => sorted
      | Gt => t :: insert_sorted s rest
      end
  end.

(** The keys of [df.groupby('filename')]: the file names that occur, sorted. *)
Definition group_keys (df : list Row) : list string :=
  fold_right insert_sorted [] (map file df).

(** [_split_by_filename(df)]: one group per file name, holding its rows. *)
Definition split_by_filename (df : list Row) : list Group :=
  map (fun name =>
         {| filename := name;
            object := List.filter (fun row => String.eqb (file row) name) df |})
      (group_keys df).

(** The loop that writes one record per group: the records written, and the
    exception that stopped the conversion, if any. *)
Fixpoint write_examples (images : gmap string ImageFile) (path : string)
    (id_map : gmap string Z) (grouped : list Group)
  : outcome unit * list TfExample :=
  match grouped with
  | [] => (Ok tt, [])
  | group :: rest =>
      match create_tf_example images group path id_map with
      | Raise e => (Raise e, [])
      | Ok tf_example =>
          let '(r, written) := write_examples images path id_map rest in
          (r, tf_example :: written)
      end
  end.

(** [generate_tfrecord(output_path, images_dir, csv_input, label_map)] over
    the rows [examples] read from the CSV and the map [id_map] made of the
    label map. *)
Definition generate_tfrecord (images : gmap string ImageFile)
    (images_dir : string) (examples : list Row) (id_map : gmap string Z)
  : outcome unit * list TfExample :=
  write_examples images images_dir id_map (split_by_filename examples).

End WithDebugger.

(** The four normalised coordinates of a row lie in [[0.0, 1.1]]. *)
Definition row_in_bounds (width height : positive) (row : Row) : Prop :=
  Forall (fun c => float_le lower_bound c = true
                   /\ float_le c upper_bound = true)
         [over (xmin row) width; over (xmax row) width;
          over (ymin row) height; over (ymax row) height].

(** The four coordinates of a row are numbers. *)
Definition row_numbers (row : Row) : Prop :=
  Forall (fun c => is_number c = true)
         [xmin row; xmax row; ymin row; ymax row].

End Dataset.

(* ===================================================================== *)
(** ** Definitions used to state the properties *)
(* ===================================================================== *)

(** The ceiling of [a / b] for a positive [b]. *)
Definition ceil_div (a b : Z) : Z := (a + b - 1) / b.

(** [v] is the earliest video of its bucket in the enumeration [dataset]:
    it stands at some position, and no video before that position has the
    same bucket key. *)
Definition earliest_in_bucket {K} (key : string -> K) (dataset : list string)
    (v : string) : Prop :=
  exists i, dataset !! i = Some v
            /\ forall j u, (j < i)%nat -> dataset !! j = Some u -> key u <> key v.

(** What holds of [videos] and [processed_ts] after the loop of the fast
    mode has gone through the videos [seen]. *)
Record fast_inv (key : string -> outcome string) (seen videos : list string)
    (processed_ts : gmap string ProcessDataset.flag) : Prop := {
  inv_sublist : sublist videos seen;
  inv_nodup : NoDup (key <$> videos);
  inv_earliest : forall v, v ∈ videos -> earliest_in_bucket key seen v;
  inv_covered : forall u, u ∈ seen -> exists v, v ∈ videos /\ key v = key u;
  inv_flag : forall k v, processed_ts !! k = Some v -> ProcessDataset.truthy v = true ->
                         exists f, f ∈ videos /\ key f = Ok k;
  inv_kept : forall f, f ∈ videos ->
                       exists k v, key f = Ok k /\ processed_ts !! k = Some v
                                   /\ ProcessDataset.truthy v = true;
}.

(** The checkpoint indices of a run in which wave [start + k] writes
    [counts !! k] checkpoints. *)
Definition wave_ids (previous : Z) (start : nat) (counts : list nat) : list Z :=
  flat_map (fun '(k, c) => replicate c (Z.of_nat k + previous))
           (zip (seq start (length counts)) counts).

(** A future that holds a result with at least one row. *)
Definition has_rows {A} (future : outcome (list A)) : bool :=
  match future with
  | Ok (_ :: _) => true
  | _ => false
  end.

(** The number of checkpoint writes of the wave of a chunk when it is
    collected in full: one per video of the chunk that has a frame. *)
Definition wave_writes {Model Device Frame}
    (E : ProcessDataset.Collaborators Model Device Frame)
    (chunk : list ProcessDataset.query) : nat :=
  length (List.filter
            (fun q => match ProcessDataset.VideoCapture E (fst (fst (fst q))) with
                      | [] => false
                      | _ :: _ => true
                      end)
            chunk).

(** The positions of the [k] highest scores of [preds], highest first,
    equal scores in position order. *)
Fixpoint insert_by_score (preds : list Q) (i : nat) (ranked : list nat)
  : list nat :=
  match ranked with
  | [] => [i]
  | j :: rest =>
      if Qle_bool (nth i preds (Qmake 0 1)) (nth j preds (Qmake 0 1))
      then j :: insert_by_score preds i rest
      else i :: ranked
  end.

Definition highest_indices (preds : list Q) (k : nat) : list nat :=
  take k (fold_left (fun ranked i => insert_by_score preds i ranked)
                    (seq 0 (length preds)) []).

(** What the specification asks of the classification top-K: under [idxs]
    the [k] highest-scoring class indices, in any order, and under [scores]
    their scores. *)
Definition top_k_contract (preds : list Q) (k : nat) (top : Top) : Prop :=
  exists selected,
    selected ≡ₚ highest_indices preds k
    /\ top = TopTorch (map pretty selected)
                      (map (fun i => format_f 2 (nth i preds (Qmake 0 1)))
                           selected).

(** The video of a task. *)
Definition filename_of (q : ProcessDataset.query) : string := fst (fst (fst q)).

(** The indices of the checkpoint files written, in the order of the
    writes. *)
Fixpoint checkpoint_ids (log : list event) : list Z :=
  match log with
  | [] => []
  | ToCsv (TmpCsv idx) _ :: rest => idx :: checkpoint_ids rest
  | _ :: rest => checkpoint_ids rest
  end.

(** The relocations made: source and target. *)
Fixpoint moves_of (log : list event) : list (string * string) :=
  match log with
  | [] => []
  | Move src dst :: rest => (src, dst) :: moves_of rest
  | _ :: rest => moves_of rest
  end.

(** The paths of the per-video files written. *)
Fixpoint pickles_of (log : list event) : list string :=
  match log with
  | [] => []
  | ToPickle path _ :: rest => path :: pickles_of rest
  | _ :: rest => pickles_of rest
  end.

(** The collaborators after a run with the file effects [log]: the
    per-video files it wrote are on disk. *)
Definition after_run {Model Device Frame}
    (E : ProcessDataset.Collaborators Model Device Frame) (log : list event)
  : ProcessDataset.Collaborators Model Device Frame :=
  {| ProcessDataset.frame_shape := ProcessDataset.frame_shape E;
     ProcessDataset.VideoCapture := ProcessDataset.VideoCapture E;
     ProcessDataset.torch_predict := ProcessDataset.torch_predict E;
     ProcessDataset.run_detector := ProcessDataset.run_detector E;
     ProcessDataset.argpartition := ProcessDataset.argpartition E;
     ProcessDataset.to_datetime := ProcessDataset.to_datetime E;
     ProcessDataset.py_int := ProcessDataset.py_int E;
     ProcessDataset.isfile := fun p =>
       ProcessDataset.isfile E p || bool_decide (p ∈ pickles_of log);
     ProcessDataset.glob := ProcessDataset.glob E;
     ProcessDataset.shutil_move := ProcessDataset.shutil_move E;
     ProcessDataset.pool_taken := ProcessDataset.pool_taken E |}.

(** Concrete collaborators, to run the embedding on examples: frames that
    carry the predictions the models make on them, ISO timestamps, decimal
    file indices, an [argpartition] that sorts completely, a disk given by
    the lists of its files, moves that are all made, and a pool in which no
    further task is taken once a task has raised. *)
Module Demo.

Record DemoFrame := {
  shape : list Z;
  class_scores : list Q;
  detections_of : TfPreds;
}.

Fixpoint digits_value (acc : Z) (s : string) : outcome Z :=
  match s with
  | EmptyString => Ok acc
  | String c s' =>
      let d := Z.of_nat (nat_of_ascii c) - 48 in
      if (0 <=? d) && (d <=? 9) then digits_value (10 * acc + d) s'
      else Raise ValueError
  end.

Definition parse_int (s : string) : outcome Z :=
  if nonempty s then digits_value 0 s else Raise ValueError.

(** Timestamps written [YYYY-MM-DDTHH:MM:SS]. *)
Definition parse_iso (s : string) : outcome Timestamp :=
  if negb (String.length s =? 19)%nat then Raise ValueError else
  y ← parse_int (substring 0 4 s);
  mo ← parse_int (substring 5 2 s);
  d ← parse_int (substring 8 2 s);
  h ← parse_int (substring 11 2 s);
  mi ← parse_int (substring 14 2 s);
  Ok {| ts_year := y; ts_month := mo; ts_day := d; ts_hour := h; ts_minute := mi |}.

Definition value_at (a : list Q) (i : nat) : Q := nth i a (Qmake 0 1).

Fixpoint insert_index (a : list Q) (i : nat) (sorted : list nat) : list nat :=
  match sorted with
  | [] => [i]
  | j :: rest =>
      if Qle_bool (value_at a j) (value_at a i)
      then j :: insert_index a i rest
      else i :: sorted
  end.

(** The indices of [a] by ascending value, equal values in index order. *)
Definition argsort (a : list Q) : list nat :=
  fold_left (fun sorted i => insert_index a i sorted) (seq 0 (length a)) [].

Definition sorting_argpartition (a : list Q) (kth : Z) : outcome (list nat) :=
  if (- len a <=? kth) && (kth <? len a) then Ok (argsort a)
  else Raise ValueError.

(** Another [argpartition]: the items after position [kth] in descending
    order. *)
Definition pivoting_argpartition (a : list Q) (kth : Z) : outcome (list nat) :=
  if (0 <=? kth) && (kth <? len a)
  then Ok (take (S (Z.to_nat kth)) (argsort a)
           ++ rev (drop (S (Z.to_nat kth)) (argsort a)))
  else Raise ValueError.

(** What numpy promises of [np.argpartition(a, kth)] for [0 <= kth]: a
    permutation of the positions of [a] that puts no greater value before
    position [kth] and no smaller value after it. *)
Definition is_argpartition (a : list Q) (kth : nat) (part : list nat) : bool :=
  bool_decide (part ≡ₚ seq 0 (length a))
  && forallb (fun i => Qle_bool (value_at a i) (value_at a (nth kth part O)))
             (take kth part)
  && forallb (fun i => Qle_bool (value_at a (nth kth part O)) (value_at a i))
             (drop (S kth) part).

Fixpoint assoc {V} (k : string) (kvs : list (string * V)) : option V :=
  match kvs with
  | [] => None
  | (k', v) :: rest => if String.eqb k k' then Some v else assoc k rest
  end.

Definition collaborators (videos : list (string * list DemoFrame))
    (files : list string) (tmp_files : list string)
  : ProcessDataset.Collaborators string string DemoFrame :=
  {| ProcessDataset.frame_shape := shape;
     ProcessDataset.VideoCapture := fun f => default [] (assoc f videos);
     ProcessDataset.torch_predict := fun _ _ frame => class_scores frame;
     ProcessDataset.run_detector := fun _ frame => detections_of frame;
     ProcessDataset.argpartition := sorting_argpartition;
     ProcessDataset.to_datetime := parse_iso;
     ProcessDataset.py_int := parse_int;
     ProcessDataset.isfile := fun p => existsb (String.eqb p) files;
     ProcessDataset.glob := fun _ pattern =>
       if String.eqb pattern "*.tmp.csv.*" then tmp_files else [];
     ProcessDataset.shutil_move := fun _ _ => Ok tt;
     ProcessDataset.pool_taken := fun _ => 0%nat |}.

Definition models : gmap string string :=
  {[ "edge" := "mobilenet" ]}.
Definition devices : gmap string string :=
  {[ "edge" := "cpu" ]}.

(** A frame on which the detector finds two objects. *)
Definition frame2 : DemoFrame :=
  {| shape := [480; 640; 3];
     class_scores := [];
     detections_of :=
       {| detection_boxes := [[Qmake 1 4; Qmake 1 4; Qmake 1 2; Qmake 1 2];
                              [Qmake 0 1; Qmake 0 1; Qmake 1 1; Qmake 1 1]];
          detection_scores := [Qmake 9 10; Qmake 1 8];
          detection_classes := [Qmake 3 1; Qmake 1 1] |} |}.

(** A frame with twelve class scores, [0.01 * (i + 1)] at index [i]. *)
Definition frame12 : DemoFrame :=
  {| shape := [224; 224; 3];
     class_scores := map (fun i => Qmake (Z.of_nat i + 1) 100) (seq 0 12);
     detections_of := {| detection_boxes := []; detection_scores := [];
                         detection_classes := [] |} |}.

Definition video_a : string := "data/2020-01-01T10:30:00.cam1.mkv".
Definition video_b : string := "data/2020-01-01T10:45:00.cam1.mkv".
Definition video_c : string := "data/2020-01-01T11:05:00.cam1.mkv".
Definition video_d : string := "data/2020-01-01T10:50:00.cam2.mkv".
Definition video_e : string := "data/2020-01-01T12:00:00.cam1.mkv".

(** [video_a] and [video_c] have two frames, [video_b] has one, [video_d]
    has none; [video_e] has one frame, with class scores. *)
Definition videos : list (string * list DemoFrame) :=
  [(video_a, [frame2; frame2]); (video_b, [frame2]);
   (video_c, [frame2; frame2]); (video_d, []); (video_e, [frame12])].

(** A disk with the checkpoints 0 and 1 of an earlier run, and no per-video
    file. *)
Definition E : ProcessDataset.Collaborators string string DemoFrame :=
  collaborators videos [] ["out/run.tmp.csv.0"; "out/run.tmp.csv.1"].

(** The same disk, with the other [argpartition]. *)
Definition E_pivoting : ProcessDataset.Collaborators string string DemoFrame :=
  {| ProcessDataset.frame_shape := ProcessDataset.frame_shape E;
     ProcessDataset.VideoCapture := ProcessDataset.VideoCapture E;
     ProcessDataset.torch_predict := ProcessDataset.torch_predict E;
     ProcessDataset.run_detector := ProcessDataset.run_detector E;
     ProcessDataset.argpartition := pivoting_argpartition;
     ProcessDataset.to_datetime := ProcessDataset.to_datetime E;
     ProcessDataset.py_int := ProcessDataset.py_int E;
     ProcessDataset.isfile := ProcessDataset.isfile E;
     ProcessDataset.glob := ProcessDataset.glob E;
     ProcessDataset.shutil_move := ProcessDataset.shutil_move E;
     ProcessDataset.pool_taken := ProcessDataset.pool_taken E |}.

(** The same disk with the per-video file of [video_a]. *)
Definition E_with_pickle : ProcessDataset.Collaborators string string DemoFrame :=
  collaborators videos ["out/2020-01-01T10:30:00.cam1.pkl"]
                ["out/run.tmp.csv.0"; "out/run.tmp.csv.1"].

Definition dataset : list string := [video_a; video_b; video_c; video_d].

Definition tasks : list ProcessDataset.query :=
  map (fun video => (video, "edge", "tf", None)) dataset.

Definition waves : list (list ProcessDataset.query) :=
  [[(video_a, "edge", "tf", None); (video_b, "edge", "tf", None)];
   [(video_c, "edge", "tf", None); (video_d, "edge", "tf", None)]].

(** Two images of 100 by 50 pixels and one detection on each: [xmax] is
    105 on the first, 120 on the second. *)
Definition images : gmap string Dataset.ImageFile :=
  {[ "imgs/a.jpg" := {| Dataset.encoded_jpg := "jpeg bytes of a";
                        Dataset.width := 100; Dataset.height := 50 |};
     "imgs/b.jpg" := {| Dataset.encoded_jpg := "jpeg bytes of b";
                        Dataset.width := 100; Dataset.height := 50 |} ]}.

Definition row_105 : Dataset.Row :=
  {| Dataset.file := "a.jpg"; Dataset.xmin := Finite (Qmake 10 1);
     Dataset.xmax := Finite (Qmake 105 1); Dataset.ymin := Finite (Qmake 5 1);
     Dataset.ymax := Finite (Qmake 50 1); Dataset.class := "car" |}.

Definition row_120 : Dataset.Row :=
  {| Dataset.file := "b.jpg"; Dataset.xmin := Finite (Qmake 10 1);
     Dataset.xmax := Finite (Qmake 120 1); Dataset.ymin := Finite (Qmake 5 1);
     Dataset.ymax := Finite (Qmake 50 1); Dataset.class := "car" |}.

(** A row of the first image whose [xmax] is the float next above 110,
    [110.00000000000001], and a row whose [xmax] is missing in the CSV. *)
Definition row_110 : Dataset.Row :=
  {| Dataset.file := "a.jpg"; Dataset.xmin := Finite (Qmake 10 1);
     Dataset.xmax := Finite (Qplus (Qmake 110 1) (Qmake 1 (2 ^ 46)));
     Dataset.ymin := Finite (Qmake 5 1);
     Dataset.ymax := Finite (Qmake 50 1); Dataset.class := "car" |}.

Definition row_nan : Dataset.Row :=
  {| Dataset.file := "a.jpg"; Dataset.xmin := Finite (Qmake 10 1);
     Dataset.xmax := NaN; Dataset.ymin := Finite (Qmake 5 1);
     Dataset.ymax := Finite (Qmake 50 1); Dataset.class := "car" |}.

(** A debugger without terminal, and an operator who lets the program
    continue. *)
Definition no_terminal (image_path : string) (site : nat) : outcome unit :=
  Raise BdbQuit.
Definition operator_continues (image_path : string) (site : nat)
  : outcome unit := Ok tt.

Definition id_map : gmap string Z := {[ "car" := 1 ]}.

Definition group_a : Dataset.Group :=
  {| Dataset.filename := "a.jpg"; Dataset.object := [row_105] |}.

Definition group_b : Dataset.Group :=
  {| Dataset.filename := "b.jpg"; Dataset.object := [row_120] |}.

End Demo.

(* ===================================================================== *)
(** ** The entry point of [process/process_dataset.py] *)
(* ===================================================================== *)

Module ProcessDatasetMain.

(** The namespace [args.parse_args()] returns. *)
Record Config := {
  input : string;
  output : string;
  name : string;
  model : string;
  framework : string;
  fast : bool;
  per_video_results : bool;
  move : option string;
  max_workers : Z;
}.

Section WithRuntime.

Context {Model Device Frame : Type}.

(** What [main] obtains from the file system and from the model
    libraries. *)
Record Runtime := {
  (** [path.rglob('*')], as path strings *)
  rglob : string -> list string;
  (** [os.path.getmtime(f)] *)
  getmtime : string -> Q;
  (** [mobilenet_v2(pretrained=True)] and [resnet152(pretrained=True)] *)
  mobilenet_v2 : Model;
  resnet152 : Model;
  (** the model after [model.eval()] *)
  eval : Model -> Model;
  (** [torch.cuda.is_available()] *)
  cuda_is_available : bool;
  (** [torch.device('cuda:<n>')] and the device ['cpu'] *)
  cuda : Z -> Device;
  cpu : Device;
  (** [init_detector()] and [init_detector(name)] *)
  init_detector : option string -> Model;
  (** the detector after [model.input_size = size] *)
  with_input_size : Model -> Z * Z -> Model;
}.

Variable E : ProcessDataset.Collaborators Model Device Frame.
Variable R : Runtime.

Definition extensions : list string := [".mkv"; ".mp4"; ".webm"].

(** [x] goes before the first item whose key is greater: items of equal key
    keep their order. *)
Fixpoint insert_by_key {A} (key : A -> Q) (x : A) (sorted : list A) : list A :=
  match sorted with
  | [] => [x]
  | y :: rest =>
      if Qle_bool (key y) (key x) then y :: insert_by_key key x rest
      else x :: sorted
  end.

(** [sorted(xs, key=key)]. *)
Definition sorted_by_key {A} (key : A -> Q) (xs : list A) : list A :=
  fold_left (fun sorted x => insert_by_key key x sorted) xs [].

(** The dataset of [main]: the input itself when it is a file, and else the
    files below it that have a video suffix, by modification time. Paths
    are strings in the form [str(Path(...))] gives them. *)
Definition list_dataset (input : string) : list string :=
  if ProcessDataset.isfile E input then [input]
  else sorted_by_key (getmtime R)
         (List.filter (fun f => existsb (String.eqb (suffix f)) extensions)
                      (rglob R input)).

Definition ref_model : string := "Faster R-CNN Inception ResNet V2 1024x1024".

(** The registries [models] and [devices] as [main] leaves them. *)
Definition load_models (config : Config)
  : gmap string Model * gmap string Device :=
  if String.eqb (framework config) "torch" then
    (<["ref" := eval R (resnet152 R)]>
       (<["edge" := eval R (mobilenet_v2 R)]> ∅),
     if cuda_is_available R
     then <["ref" := cuda R 1]> (<["edge" := cuda R 0]> ∅)
     else <["ref" := cpu R]> (<["edge" := cpu R]> ∅))
  else if String.eqb (framework config) "tf" then
    if String.eqb (model config) "edge"
    then (<["edge" := with_input_size R (init_detector R None) (320, 320)]> ∅,
          <["edge" := cpu R]> ∅)
    else (<["ref" := with_input_size R (init_detector R (Some ref_model))
                                       (1024, 1024)]> ∅,
          <["ref" := cpu R]> ∅)
  else (∅, ∅).

Definition main (config : Config) : M unit :=
  let dataset := list_dataset (input config) in
  let '(models, devices) := load_models config in
  ProcessDataset.process_dataset E models devices dataset
    (name config) (model config) (framework config) (output config)
    (per_video_results config) (negb (fast config)) (move config)
    (max_workers config).

End WithRuntime.

Arguments Runtime : clear implicits.

End ProcessDatasetMain.

(* ===================================================================== *)
(** ** The joint export of [src/edge_autotune/dnn/dataset.py] *)
(* ===================================================================== *)

Module DatasetJoint.

Section WithDebugger.

Variable set_trace : string -> nat -> outcome unit.

(** The loop of [generate_joint_tfrecord] over the pairs of an image
    directory and the rows of a CSV. *)
Fixpoint write_pairs (images : gmap string Dataset.ImageFile)
    (id_map : gmap string Z) (pairs : list (string * list Dataset.Row))
  : outcome unit * list Dataset.TfExample :=
  match pairs with
  | [] => (Ok tt, [])
  | (img_dir, examples) :: rest =>
      match Dataset.write_examples set_trace images img_dir id_map
              (Dataset.split_by_filename examples) with
      | (Raise e, written) => (Raise e, written)
      | (Ok _, written) =>
          let '(r, more) := write_pairs images id_map rest in
          (r, written ++ more)
      end
  end.

(** [generate_joint_tfrecord(output_path, images_dirs, csv_inputs,
    label_map)] over the rows read from each CSV and the map [id_map] made
    of the label map. *)
Definition generate_joint_tfrecord (images : gmap string Dataset.ImageFile)
    (images_dirs : list string) (csv_inputs : list (list Dataset.Row))
    (id_map : gmap string Z) : outcome unit * list Dataset.TfExample :=
  write_pairs images id_map (zip images_dirs csv_inputs).

End WithDebugger.

End DatasetJoint.

(* ===================================================================== *)
(** ** More definitions used to state the properties *)
(* ===================================================================== *)

(** The tables written to the checkpoint files, in the order of the
    writes. *)
Fixpoint checkpoint_tables (log : list event) : list (list DetectionRow) :=
  match log with
  | [] => []
  | ToCsv (TmpCsv _) table :: rest => table :: checkpoint_tables rest
  | _ :: rest => checkpoint_tables rest
  end.

(** The tables written to the final CSV. *)
Fixpoint final_tables (log : list event) : list (list DetectionRow) :=
  match log with
  | [] => []
  | ToCsv FinalCsv table :: rest => table :: final_tables rest
  | _ :: rest => final_tables rest
  end.

(** The tasks [process_dataset] makes of the videos to process. *)
Definition tasks_of (videos : list string) (model framework output : string)
    (per_video_results : bool) : list ProcessDataset.query :=
  map (fun video => (video, model, framework,
                     if per_video_results then Some output else None))
      videos.

(** Each table extends the one before it, starting from [table], by at
    least one row. *)
Fixpoint growing (table : list DetectionRow)
    (tables : list (list DetectionRow)) : Prop :=
  match tables with
  | [] => True
  | next :: rest =>
      (exists rows, rows <> [] /\ next = table ++ rows) /\ growing next rest
  end.

(** The scores and the classes of a frame as [process_video] writes them
    for a detection model. *)
Definition tf_scores_str (preds : TfPreds) : string :=
  join "," (map (format_f 3) (take 10 (detection_scores preds))).

Definition tf_classes_str (preds : TfPreds) : string :=
  join "," (map pretty (map Qtrunc (take 10 (detection_classes preds)))).

(** The last table written, or [table] when none was. *)
Definition last_table (table : list DetectionRow)
    (tables : list (list DetectionRow)) : list DetectionRow :=
  default table (last tables).

(** What a file effect of the wave of [chunk] can be: the per-video file of
    a task of the chunk, in per-video mode and for a video with frames; the
    checkpoint of the wave; the move of the video of the last task to the
    target. *)
Definition wave_event {Model Device Frame}
    (E : ProcessDataset.Collaborators Model Device Frame)
    (move_when_done : option string) (ckpt : Z)
    (chunk : list ProcessDataset.query) (ev : event) : Prop :=
  match ev with
  | ToPickle path _ =>
      exists q out,
        q ∈ chunk /\ snd q = Some out
        /\ path = ProcessDataset.pkl_path out (filename_of q)
        /\ ProcessDataset.VideoCapture E (filename_of q) <> []
  | ToCsv (TmpCsv idx) _ => idx = ckpt
  | ToCsv FinalCsv _ => False
  | Move src dst =>
      move_when_done = Some dst
      /\ exists q, last chunk = Some q /\ src = filename_of q
  end.

(** The videos of the last tasks of the chunks [cs], in order. *)
Definition last_videos (cs : list (list ProcessDataset.query)) : list string :=
  omap (fun chunk => filename_of <$> last chunk) cs.

(** The rows [process_video] returns for a detection model: per decoded
    frame its number, its scores and its classes. *)
Definition detection_rows {Model Device Frame}
    (E : ProcessDataset.Collaborators Model Device Frame) (m : Model)
    (filename : string) : list (nat * string * string) :=
  map (fun '(i, frame) =>
         (i, tf_scores_str (ProcessDataset.run_detector E m frame),
             tf_classes_str (ProcessDataset.run_detector E m frame)))
      (enumerate (ProcessDataset.VideoCapture E filename)).

(** The rows a video adds to the table of a detection run: none for a video
    without frames, whose name is not read, and else its rows under the
    time stamp and the camera of its file name. *)
Definition video_table {Model Device Frame}
    (E : ProcessDataset.Collaborators Model Device Frame) (model : string)
    (m : Model) (filename : string) : outcome (list DetectionRow) :=
  let r := detection_rows E m filename in
  if len r =? 0 then Ok []
  else
    ts ← index (split_on "." (stem filename)) 0;
    cam ← index (split_on "." (stem filename)) 1;
    '(date, hour, minute) ← ProcessDataset.split_date E ts;
    Ok (ProcessDataset.rows_of model ts cam date hour minute r).

(** A task of a run that writes no per-video file. *)
Definition plain_task (model framework : string) (q : ProcessDataset.query)
  : Prop :=
  q = (filename_of q, model, framework, None).

(** The order of the group keys: the order of the file names as strings. *)
Definition name_lt (a b : string) : Prop := String.compare a b = Lt.

(** A row whose label the label map does not hold. *)
Definition unknown_label (id_map : gmap string Z) (row : Dataset.Row) : bool :=
  match id_map !! Dataset.class row with
  | Some _ => false
  | None => true
  end.

(** What [generate_tfrecord] does with each pair of an image directory and
    the rows of a CSV, taken alone. *)
Definition pair_runs (set_trace : string -> nat -> outcome unit)
    (images : gmap string Dataset.ImageFile)
    (images_dirs : list string) (csv_inputs : list (list Dataset.Row))
    (id_map : gmap string Z)
  : list (outcome unit * list Dataset.TfExample) :=
  zip_with (fun img_dir examples =>
              Dataset.generate_tfrecord set_trace images img_dir examples
                                        id_map)
           images_dirs csv_inputs.

(** The order of the dataset of [main]: by modification time. *)
Definition older {Model Device}
    (R : ProcessDatasetMain.Runtime Model Device) (a b : string) : Prop :=
  Qle (ProcessDatasetMain.getmtime R a) (ProcessDatasetMain.getmtime R b).

(** The suffix of a file is one of the video suffixes of [main]. *)
Definition is_video (f : string) : bool :=
  existsb (String.eqb (suffix f)) ProcessDatasetMain.extensions.

(** A computation of the loop over the chunks that starts from [table]:
    the checkpoints it writes grow from [table], and the table it ends
    with is the last one written. *)
Definition tracks (table : list DetectionRow) (m : M ProcessDataset.LoopState)
  : Prop :=
  growing table (checkpoint_tables (snd m))
  /\ forall st, fst m = Ok st ->
                ProcessDataset.detections st
                = last_table table (checkpoint_tables (snd m)).

(** More values to run the embedding on. *)
Module Demo2.

(** A registry with the two classification models. *)
Definition models : gmap string string :=
  <["ref" := "resnet"]> (<["edge" := "mobilenet"]> ∅).
Definition devices : gmap string string :=
  <["ref" := "cpu"]> (<["edge" := "cpu"]> ∅).

(** The file system and the model libraries of [main]: four videos and a
    text file below [data], no GPU. *)
Definition runtime : ProcessDatasetMain.Runtime string string :=
  {| ProcessDatasetMain.rglob := fun _ =>
       [Demo.video_c; "data/notes.txt"; Demo.video_a; Demo.video_d;
        Demo.video_b];
     ProcessDatasetMain.getmtime := fun f =>
       if String.eqb f Demo.video_a then Qmake 10 1
       else if String.eqb f Demo.video_b then Qmake 20 1
       else if String.eqb f Demo.video_c then Qmake 30 1
       else Qmake 40 1;
     ProcessDatasetMain.mobilenet_v2 := "mobilenet";
     ProcessDatasetMain.resnet152 := "resnet";
     ProcessDatasetMain.eval := fun m => m;
     ProcessDatasetMain.cuda_is_available := false;
     ProcessDatasetMain.cuda := fun _ => "cuda";
     ProcessDatasetMain.cpu := "cpu";
     ProcessDatasetMain.init_detector := fun name => default "mobilenet-ssd" name;
     ProcessDatasetMain.with_input_size := fun m _ => m |}.

Definition config : ProcessDatasetMain.Config :=
  {| ProcessDatasetMain.input := "data";
     ProcessDatasetMain.output := "out";
     ProcessDatasetMain.name := "run";
     ProcessDatasetMain.model := "edge";
     ProcessDatasetMain.framework := "tf";
     ProcessDatasetMain.fast := false;
     ProcessDatasetMain.per_video_results := false;
     ProcessDatasetMain.move := Some "done";
     ProcessDatasetMain.max_workers := 1 |}.

(** A frame whose first box has three coordinates: the per-video table
    of its video cannot be made. *)
Definition frame_bad : Demo.DemoFrame :=
  {| Demo.shape := [100; 200; 3];
     Demo.class_scores := [];
     Demo.detections_of :=
       {| detection_boxes := [[Qmake 1 4; Qmake 1 4; Qmake 1 2]];
          detection_scores := [Qmake 9 10];
          detection_classes := [Qmake 3 1] |} |}.

Definition video_bad : string := "data/2020-01-01T08:00:00.cam1.mkv".

(** The demo disk with [video_bad], a target directory that already holds
    a file of the name of [video_b], and a pool in which one more task is
    taken by the time an exception is read. *)
Definition E_refusing : ProcessDataset.Collaborators string string Demo.DemoFrame :=
  {| ProcessDataset.frame_shape := ProcessDataset.frame_shape Demo.E;
     ProcessDataset.VideoCapture := fun f =>
       if String.eqb f video_bad then [frame_bad]
       else ProcessDataset.VideoCapture Demo.E f;
     ProcessDataset.torch_predict := ProcessDataset.torch_predict Demo.E;
     ProcessDataset.run_detector := ProcessDataset.run_detector Demo.E;
     ProcessDataset.argpartition := ProcessDataset.argpartition Demo.E;
     ProcessDataset.to_datetime := ProcessDataset.to_datetime Demo.E;
     ProcessDataset.py_int := ProcessDataset.py_int Demo.E;
     ProcessDataset.isfile := ProcessDataset.isfile Demo.E;
     ProcessDataset.glob := ProcessDataset.glob Demo.E;
     ProcessDataset.shutil_move := fun src _ =>
       if String.eqb src Demo.video_b then Raise IOError else Ok tt;
     ProcessDataset.pool_taken := fun _ => 1%nat |}.

(** The same command line with the default framework. *)
Definition config_torch : ProcessDatasetMain.Config :=
  {| ProcessDatasetMain.input := "data";
     ProcessDatasetMain.output := "out";
     ProcessDatasetMain.name := "run";
     ProcessDatasetMain.model := "edge";
     ProcessDatasetMain.framework := "torch";
     ProcessDatasetMain.fast := false;
     ProcessDatasetMain.per_video_results := false;
     ProcessDatasetMain.move := Some "done";
     ProcessDatasetMain.max_workers := 1 |}.

End Demo2.

(* ===================================================================== *)
(** * Properties *)
(* ===================================================================== *)

Example split_on_demo :
  split_on "." "2020-01-01T10:30:00.cam1" = ["2020-01-01T10:30:00"; "cam1"].
Proof. reflexivity. Qed.

Example stem_demo : stem "data/2020-01-01T10:30:00.cam1.mkv" = "2020-01-01T10:30:00.cam1".
Proof. reflexivity. Qed.

Example suffix_demo : suffix "out/run.tmp.csv.12" = ".12".
Proof. reflexivity. Qed.

Example format_demo : format_f 3 (Qmake 1 8) = "0.125" /\ format_f 2 (Qmake 1 8) = "0.12".
Proof. split; vm_compute; reflexivity. Qed.

(** Zeros are kept after the point, and put before a short year. *)
Example format_zeros :
  map (format_f 3) [Qmake 1 1; Qmake 5 1000; Qmake 0 1; Qmake 1003 1000]
  = ["1.000"; "0.005"; "0.000"; "1.003"]
  /\ zero_pad 4 "5" = "0005".
Proof. split; vm_compute; reflexivity. Qed.

Example chunks_demo : chunks [1; 2; 3] 2 = Ok [[1; 2]; [3]].
Proof. reflexivity. Qed.


(* ===================================================================== *)
(** ** The monads *)
(* ===================================================================== *)

Lemma bind_Ok_inv {A B} (m : outcome A) (f : A -> outcome B) b :
  m ≫= f = Ok b -> exists a, m = Ok a /\ f a = Ok b.
Proof. destruct m as [a|e]; [eauto | discriminate]. Qed.

Lemma bindM_Ok_inv {A B} (m : M A) (f : A -> M B) b log :
  bindM m f = (Ok b, log) ->
  exists a log1 log2, m = (Ok a, log1) /\ f a = (Ok b, log2) /\ log = log1 ++ log2.
Proof.
  unfold bindM. destruct m as [[a|e] log1]; [|discriminate].
  destruct (f a) as [r log2] eqn:Hf. intros [= -> <-]. eauto 6.
Qed.

Lemma bindM_snd {A B} (m : M A) (f : A -> M B) :
  snd (bindM m f) = snd m
  \/ exists a, fst m = Ok a /\ snd (bindM m f) = snd m ++ snd (f a).
Proof.
  unfold bindM. destruct m as [[a|e] log1]; simpl; [|by left].
  right. exists a. by destruct (f a).
Qed.

Lemma bindM_lift {A B} (o : outcome A) (f : A -> M B) :
  bindM (lift o) f = match o with Ok a => f a | Raise e => (Raise e, []) end.
Proof. unfold bindM, lift. destruct o as [a|e]; [|done]. by destruct (f a). Qed.

Lemma foldM_M_app {A B} (f : A -> B -> M A) acc xs ys :
  foldM_M f acc (xs ++ ys) = do acc' <- foldM_M f acc xs; foldM_M f acc' ys.
Proof.
  revert acc. induction xs as [|x xs IH]; intros acc; simpl.
  - unfold bindM, retM. by destruct (foldM_M f acc ys).
  - unfold bindM at 1 3. destruct (f acc x) as [[a|e] log1]; [|done].
    rewrite IH. unfold bindM.
    destruct (foldM_M f a xs) as [[a'|e'] log2]; [|done].
    destruct (foldM_M f a' ys) as [r log3]. by rewrite app_assoc.
Qed.

Lemma bindM_retM {A} (m : M A) : bindM m retM = m.
Proof.
  unfold bindM, retM. destruct m as [[a|e] log]; [|done]. by rewrite app_nil_r.
Qed.

Lemma foldM_M_snoc {A B} (f : A -> B -> M A) acc xs x :
  foldM_M f acc (xs ++ [x]) = do acc' <- foldM_M f acc xs; f acc' x.
Proof.
  revert acc. induction xs as [|y xs IH]; intros acc; simpl.
  - rewrite bindM_retM. unfold bindM, retM. by destruct (f acc x).
  - unfold bindM at 1 3. destruct (f acc y) as [[a|e] log1]; [|done].
    rewrite IH. unfold bindM.
    destruct (foldM_M f a xs) as [[a'|e'] log2]; [|done].
    destruct (f a' x) as [r log3]. by rewrite app_assoc.
Qed.

Lemma mapM_o_Ok_length {A B} (f : A -> outcome B) xs ys :
  mapM_o f xs = Ok ys -> length ys = length xs.
Proof.
  revert ys. induction xs as [|x xs IH]; intros ys; simpl.
  - by intros [= <-].
  - intros H. apply bind_Ok_inv in H as (y & _ & H).
    apply bind_Ok_inv in H as (ys' & Hys & [= <-]). simpl. f_equal. eauto.
Qed.

Lemma mapM_o_Ok_lookup {A B} (f : A -> outcome B) xs ys i x :
  mapM_o f xs = Ok ys -> xs !! i = Some x ->
  exists y, ys !! i = Some y /\ f x = Ok y.
Proof.
  revert ys i. induction xs as [|x' xs IH]; intros ys i; simpl; [done|].
  intros H. apply bind_Ok_inv in H as (y & Hy & H).
  apply bind_Ok_inv in H as (ys' & Hys & [= <-]).
  destruct i as [|i]; simpl.
  - intros [= ->]. eauto.
  - eauto.
Qed.

Lemma enumerate_length {A} (xs : list A) : length (enumerate xs) = length xs.
Proof. unfold enumerate. rewrite length_zip_with, length_seq. lia. Qed.

Lemma enumerate_lookup {A} (xs : list A) i x :
  xs !! i = Some x -> enumerate xs !! i = Some (i, x).
Proof.
  intros Hx. unfold enumerate. apply lookup_zip_with_Some.
  exists i, x. repeat split; [|done].
  apply lookup_seq. split; [done|]. by eapply lookup_lt_Some.
Qed.

Lemma enumerate_app {A} (xs ys : list A) :
  enumerate (xs ++ ys)
  = enumerate xs ++ zip (seq (length xs) (length ys)) ys.
Proof.
  unfold enumerate. rewrite length_app, seq_app. simpl.
  apply zip_with_app. by rewrite length_seq.
Qed.

Lemma enumerate_fst {A} (xs : list A) :
  (enumerate xs).*1 = seq 0 (length xs).
Proof. unfold enumerate. apply fst_zip. by rewrite length_seq. Qed.

(* ===================================================================== *)
(** ** Chunking into waves *)
(* ===================================================================== *)

Section Chunks.

Context {A : Type}.
Variable lst : list A.
Variable n : Z.
Hypothesis n_pos : 0 < n.

Lemma range_up_lookup stop fuel i k j :
  range_up fuel i stop n !! k = Some j -> j = i + Z.of_nat k * n /\ j < stop.
Proof.
  revert i k. induction fuel as [|fuel IH]; intros i k; simpl; [done|].
  destruct (Z.ltb_spec i stop) as [Hlt|Hge]; [|done].
  destruct k as [|k]; simpl.
  - intros [= <-]. lia.
  - intros Hk. apply IH in Hk as [-> Hlt']. split; [|done].
    rewrite Nat2Z.inj_succ. ring.
Qed.

Lemma range_up_length stop fuel i :
  stop - i <= Z.of_nat fuel ->
  Z.of_nat (length (range_up fuel i stop n)) = Z.max 0 (ceil_div (stop - i) n).
Proof.
  unfold ceil_div. revert i. induction fuel as [|fuel IH]; intros i Hfuel; simpl.
  - assert ((stop - i + n - 1) / n <= 0); [|lia].
    apply Z.lt_succ_r. apply Z.div_lt_upper_bound; lia.
  - destruct (Z.ltb_spec i stop) as [Hlt|Hge]; simpl.
    + rewrite Nat2Z.inj_succ, IH by lia.
      replace (stop - i + n - 1) with ((stop - (i + n) + n - 1) + 1 * n) by lia.
      rewrite Z.div_add by lia.
      assert (0 <= (stop - (i + n) + n - 1) / n); [|lia].
      apply Z.div_pos; lia.
    + assert ((stop - i + n - 1) / n <= 0); [|lia].
      apply Z.lt_succ_r. apply Z.div_lt_upper_bound; lia.
Qed.

Lemma slice_length (i : Z) :
  0 <= i -> len (slice lst i (i + n)) = Z.min n (Z.max 0 (len lst - i)).
Proof.
  intros Hi. unfold slice, len. rewrite length_take, length_drop. lia.
Qed.

Lemma range_up_concat fuel i :
  0 <= i -> len lst - i <= Z.of_nat fuel ->
  concat (map (fun j => slice lst j (j + n)) (range_up fuel i (len lst) n))
  = drop (Z.to_nat i) lst.
Proof.
  revert i. induction fuel as [|fuel IH]; intros i Hi Hfuel; simpl.
  - rewrite drop_ge; [done|]. unfold len in *. lia.
  - destruct (Z.ltb_spec i (len lst)) as [Hlt|Hge]; simpl.
    + rewrite IH by lia. unfold slice.
      replace (i + n - i) with n by lia.
      replace (Z.to_nat (i + n)) with (Z.to_nat i + Z.to_nat n)%nat by lia.
      rewrite <- drop_drop. apply take_drop.
    + rewrite drop_ge; [done|]. unfold len in *. lia.
Qed.

(** [chunks] on a positive size: a partition into consecutive runs of [n]
    items, the last one possibly shorter, [ceil(len / n)] of them. *)
Lemma chunks_positive :
  exists cs,
    chunks lst n = Ok cs
    /\ concat cs = lst
    /\ (forall k c, cs !! k = Some c ->
          0 < len c <= n /\ (Z.of_nat (S k) < len cs -> len c = n))
    /\ len cs = ceil_div (len lst) n.
Proof.
  unfold chunks, py_range.
  destruct (Z.eqb_spec n 0) as [?|_]; [lia|].
  destruct (Z.ltb_spec 0 n) as [_|?]; [|lia].
  rewrite Z.sub_0_r. simpl. eexists; split; [reflexivity|].
  assert (Hfuel : len lst - 0 <= Z.of_nat (Z.to_nat (len lst)))
    by (unfold len; lia).
  split; [|split].
  - rewrite range_up_concat by (done || lia). reflexivity.
  - intros k c Hc. rewrite list_lookup_fmap in Hc.
    destruct (range_up _ _ _ _ !! k) as [j|] eqn:Hj; [|done].
    injection Hc as <-. apply range_up_lookup in Hj as [-> Hlt].
    rewrite slice_length by lia. split; [lia|].
    unfold len at 1. rewrite length_map. intros Hk.
    destruct (range_up (Z.to_nat (len lst)) 0 (len lst) n !! S k) as [j'|] eqn:Hj'.
    + apply range_up_lookup in Hj' as [-> Hlt']. lia.
    + apply lookup_ge_None in Hj'. lia.
  - unfold len at 1. rewrite length_map, (range_up_length _ _ _ Hfuel).
    rewrite Z.sub_0_r. unfold ceil_div.
    assert (0 <= (len lst + n - 1) / n); [|lia].
    apply Z.div_pos; unfold len; lia.
Qed.

End Chunks.

Lemma chunks_zero {A} (lst : list A) : chunks lst 0 = Raise ValueError.
Proof. reflexivity. Qed.

Lemma chunks_negative {A} (lst : list A) n : n < 0 -> chunks lst n = Ok [].
Proof.
  intros Hn. unfold chunks, py_range.
  destruct (Z.eqb_spec n 0); [lia|]. destruct (Z.ltb_spec 0 n); [lia|].
  simpl. replace (Z.to_nat (0 - len lst)) with O by (unfold len; lia).
  reflexivity.
Qed.

Lemma ceil_div_bounds a b :
  0 < b -> (ceil_div a b - 1) * b < a <= ceil_div a b * b.
Proof.
  intros Hb. unfold ceil_div.
  pose proof (Z.div_mod (a + b - 1) b ltac:(lia)) as Hdiv.
  pose proof (Z.mod_pos_bound (a + b - 1) b Hb) as Hmod.
  nia.
Qed.

Lemma ceil_div_one a b : 0 < a <= b -> ceil_div a b = 1.
Proof.
  intros Hab. unfold ceil_div. symmetry.
  apply (Z.div_unique _ _ _ (a - 1)); lia.
Qed.

(** C3. For a non-empty list of videos and a worker count [w >= 1], the
    pending tasks are cut into consecutive chunks of [2 * workers] tasks,
    where [workers] is [w] clamped down to the number of tasks when there
    are fewer than [2 * w] of them: the chunks concatenate to the list,
    every chunk is non-empty and holds at most [2 * workers] tasks, every
    chunk but the last holds exactly that many, and the number of waves is
    [ceil(videos / (2 * w))]. *)
Theorem waves_partition {A} (videos : list A) (w : Z) :
  videos <> [] -> 1 <= w ->
  let workers := ProcessDataset.clamp_workers (len videos) w in
  exists waves,
    chunks videos (workers * 2) = Ok waves
    /\ concat waves = videos
    /\ (forall k c, waves !! k = Some c ->
          0 < len c <= workers * 2
          /\ (Z.of_nat (S k) < len waves -> len c = workers * 2))
    /\ len waves = ceil_div (len videos) (2 * w)
    /\ (len waves - 1) * (2 * w) < len videos <= len waves * (2 * w).
Proof.
  intros Hne Hw workers.
  assert (Hlen : 0 < len videos).
  { destruct videos; [done|]. unfold len. simpl. lia. }
  assert (Hworkers : 0 < workers * 2).
  { unfold workers, ProcessDataset.clamp_workers.
    destruct (Z.ltb_spec (len videos) (w * 2)); lia. }
  destruct (chunks_positive videos (workers * 2) Hworkers)
    as (waves & Hrun & Hcat & Hsizes & Hcount).
  assert (Hceil : ceil_div (len videos) (workers * 2)
                  = ceil_div (len videos) (2 * w)).
  { unfold workers, ProcessDataset.clamp_workers.
    destruct (Z.ltb_spec (len videos) (w * 2)).
    - rewrite !ceil_div_one; lia.
    - f_equal. lia. }
  exists waves. repeat split; try done.
  - apply Hsizes in H. lia.
  - apply Hsizes in H. lia.
  - intros Hk. by apply (Hsizes k c).
  - congruence.
  - rewrite Hcount, Hceil. apply ceil_div_bounds. lia.
  - rewrite Hcount, Hceil. apply ceil_div_bounds. lia.
Qed.

(** Three videos and one worker: a wave of two, then a wave of one. *)
Lemma waves_partition_witness :
  let workers := ProcessDataset.clamp_workers (len [Demo.video_a; Demo.video_b; Demo.video_c]) 1 in
  exists waves,
    chunks [Demo.video_a; Demo.video_b; Demo.video_c] (workers * 2) = Ok waves
    /\ concat waves = [Demo.video_a; Demo.video_b; Demo.video_c]
    /\ (forall k c, waves !! k = Some c ->
          0 < len c <= workers * 2
          /\ (Z.of_nat (S k) < len waves -> len c = workers * 2))
    /\ len waves = ceil_div (len [Demo.video_a; Demo.video_b; Demo.video_c]) (2 * 1)
    /\ (len waves - 1) * (2 * 1)
       < len [Demo.video_a; Demo.video_b; Demo.video_c] <= len waves * (2 * 1).
Proof.
  apply (waves_partition [Demo.video_a; Demo.video_b; Demo.video_c] 1);
    [discriminate | lia].
Defined.

Example waves_three_videos_one_worker :
  chunks [Demo.video_a; Demo.video_b; Demo.video_c]
         (ProcessDataset.clamp_workers 3 1 * 2)
  = Ok [[Demo.video_a; Demo.video_b]; [Demo.video_c]].
Proof. reflexivity. Qed.

(* ===================================================================== *)
(** ** The per-video runner *)
(* ===================================================================== *)

Section Runner.

Context {Model Device Frame : Type}.
Variable E : ProcessDataset.Collaborators Model Device Frame.
Variable models : gmap string Model.
Variable devices : gmap string Device.

Import ProcessDataset.

Lemma lift_Ok_inv {A} (o : outcome A) a log :
  lift o = (Ok a, log) -> o = Ok a /\ log = [].
Proof. unfold lift. by intros [= -> <-]. Qed.

Lemma mapM_o_Ok_map {A B C} (f : A -> outcome B) (g : B -> C) (h : A -> C) xs ys :
  (forall x y, f x = Ok y -> g y = h x) ->
  mapM_o f xs = Ok ys -> map g ys = map h xs.
Proof.
  intros Hgh. revert ys. induction xs as [|x xs IH]; intros ys; simpl.
  - by intros [= <-].
  - intros H. apply bind_Ok_inv in H as (y & Hy & H).
    apply bind_Ok_inv in H as (ys' & Hys & [= <-]). simpl.
    f_equal; eauto.
Qed.

Lemma infer_video_frames filename model device framework data shape :
  infer_video E filename model device framework = Ok (data, shape) ->
  length data = length (VideoCapture E filename).
Proof.
  unfold infer_video. intros H. apply bind_Ok_inv in H as (data' & Hdata & [= <- _]).
  by apply mapM_o_Ok_length in Hdata.
Qed.

(** A successful [process_video] returns one row per decoded frame,
    numbered from 0. *)
Lemma process_video_rows filename model device framework output rows log :
  process_video E filename model device framework output = (Ok rows, log) ->
  map (fun row => fst (fst row)) rows
  = seq 0 (length (VideoCapture E filename)).
Proof.
  unfold process_video. intros H.
  apply bindM_Ok_inv in H as ([data shape] & log1 & log2 & Hinfer & H & Hlog).
  apply lift_Ok_inv in Hinfer as [Hinfer Hlog1].
  apply bindM_Ok_inv in H as (u & log3 & log4 & Hpickle & H & Hlog2).
  apply bindM_Ok_inv in H as (scores & log5 & log6 & Hscores & H & Hlog4).
  apply lift_Ok_inv in Hscores as [Hscores Hlog5].
  apply lift_Ok_inv in H as [Hrows Hlog6].
  apply mapM_o_Ok_length in Hscores.
  apply infer_video_frames in Hinfer.
  rewrite <- Hinfer, <- Hscores, <- enumerate_fst.
  eapply mapM_o_Ok_map; [|exact Hrows].
  intros [i s] row Hrow. apply bind_Ok_inv in Hrow as (c & _ & [= <-]). done.
Qed.

Lemma process_video_length filename model device framework output rows log :
  process_video E filename model device framework output = (Ok rows, log) ->
  length rows = length (VideoCapture E filename).
Proof.
  intros H. apply process_video_rows in H.
  apply (f_equal length) in H. by rewrite length_map, length_seq in H.
Qed.

(** The only file a task writes is the pickle of its video, in per-video
    mode, and only for a video with frames. *)
Lemma process_video_log filename model device framework output :
  snd (process_video E filename model device framework output) = []
  \/ exists out df,
       output = Some out
       /\ VideoCapture E filename <> []
       /\ snd (process_video E filename model device framework output)
          = [ToPickle (pkl_path out filename) df].
Proof.
  unfold process_video. rewrite bindM_lift.
  destruct (infer_video E _ _ _ _) as [[data shape]|e] eqn:Hinfer; [|by left].
  apply infer_video_frames in Hinfer.
  set (tail := bindM (lift (mapM_o _ data)) _).
  assert (Htail : snd tail = []).
  { subst tail. rewrite bindM_lift.
    match goal with |- context [mapM_o ?f data] => destruct (mapM_o f data) end;
      [|done].
    done. }
  destruct output as [out|]; cycle 1.
  { left. cbn [bindM retM]. destruct tail. simpl in *. by subst. }
  destruct (Z.ltb_spec 0 (len data)) as [Hlen|Hlen]; cycle 1.
  { left. cbn [bindM retM]. destruct tail. simpl in *. by subst. }
  rewrite bindM_lift.
  destruct (mapM_o _ (enumerate data)) as [df|e]; [|by left].
  right. exists out, (concat df). split; [done|]. split.
  { intros Hnil. rewrite Hnil in Hinfer. unfold len in Hlen. simpl in *. lia. }
  cbn [bindM emit]. destruct tail. simpl in *. by subst.
Qed.

Lemma process_video_parallel_length q rows log :
  process_video_parallel E models devices q = (Ok rows, log) ->
  length rows = length (VideoCapture E (fst (fst (fst q)))).
Proof.
  destruct q as [[[filename model] framework] output]. simpl.
  destruct (models !! model); [|discriminate].
  destruct (devices !! model); [|discriminate].
  apply process_video_length.
Qed.

Lemma process_video_parallel_rows q rows log :
  process_video_parallel E models devices q = (Ok rows, log) ->
  map (fun row => fst (fst row)) rows
  = seq 0 (length (VideoCapture E (fst (fst (fst q))))).
Proof.
  destruct q as [[[filename model] framework] output]. simpl.
  destruct (models !! model); [|discriminate].
  destruct (devices !! model); [|discriminate].
  apply process_video_rows.
Qed.

End Runner.

(* ===================================================================== *)
(** ** The coordinator *)
(* ===================================================================== *)

Lemma checkpoint_ids_app l1 l2 :
  checkpoint_ids (l1 ++ l2) = checkpoint_ids l1 ++ checkpoint_ids l2.
Proof.
  induction l1 as [|[p df|[idx|] tbl|src dst] l1 IH]; simpl; congruence.
Qed.

Lemma moves_of_app l1 l2 : moves_of (l1 ++ l2) = moves_of l1 ++ moves_of l2.
Proof.
  induction l1 as [|[p df|[idx|] tbl|src dst] l1 IH]; simpl; congruence.
Qed.

Lemma pickles_of_app l1 l2 :
  pickles_of (l1 ++ l2) = pickles_of l1 ++ pickles_of l2.
Proof.
  induction l1 as [|[p df|[idx|] tbl|src dst] l1 IH]; simpl; congruence.
Qed.

Lemma executor_map_run {A B} taken (f : A -> M B) xs :
  executor_map taken f xs
  = (Ok (map (fun x => fst (f x)) xs),
     flat_map (fun x => snd (f x)) (tasks_run taken f xs)).
Proof. reflexivity. Qed.

Lemma first_raise_Ok {A} (rs : list A) : first_raise (map Ok rs) = None.
Proof. induction rs as [|r rs IH]; simpl; [done|]. by rewrite IH. Qed.

(** When every task returns, every task runs. *)
Lemma tasks_run_all {A B} taken (f : A -> M B) xs rs :
  map (fun x => fst (f x)) xs = map Ok rs -> tasks_run taken f xs = xs.
Proof. unfold tasks_run. intros ->. by rewrite first_raise_Ok. Qed.

(** The tasks that run are tasks of the wave. *)
Lemma tasks_run_elem {A B} taken (f : A -> M B) xs x :
  x ∈ tasks_run taken f xs -> x ∈ xs.
Proof.
  unfold tasks_run. destruct (first_raise _) as [i|]; [|done].
  intros H. apply list_elem_of_lookup in H as [j Hj].
  apply lookup_take_Some in Hj as [Hj _]. by eapply list_elem_of_lookup_2.
Qed.

Section Coordinator.

Context {Model Device Frame : Type}.
Variable E : ProcessDataset.Collaborators Model Device Frame.
Variable models : gmap string Model.
Variable devices : gmap string Device.
Variable model : string.
Variable move_when_done : option string.
Variable max_workers previous : Z.

Import ProcessDataset.

Local Abbreviation frames q := (length (VideoCapture E (filename_of q))).
Local Abbreviation task := (process_video_parallel E models devices).
Local Abbreviation wave := (process_chunk E models devices model move_when_done
                                          max_workers previous).

Lemma task_log q :
  checkpoint_ids (snd (task q)) = [] /\ moves_of (snd (task q)) = [].
Proof.
  destruct q as [[[filename m] framework] output]. simpl.
  destruct (models !! m) as [mdl|]; [|done].
  destruct (devices !! m) as [dev|]; [|done].
  destruct (process_video_log E filename mdl dev framework output)
    as [->|(out & df & _ & _ & ->)]; done.
Qed.

Lemma tasks_log chunk :
  checkpoint_ids (flat_map (fun q => snd (task q)) chunk) = []
  /\ moves_of (flat_map (fun q => snd (task q)) chunk) = [].
Proof.
  induction chunk as [|q chunk [IH1 IH2]]; simpl; [done|].
  rewrite checkpoint_ids_app, moves_of_app, IH1, IH2.
  by destruct (task_log q) as [-> ->].
Qed.

(** What one pass of the inner loop does when it raises nothing. *)
Lemma collect_Ok chunk ckpt st r_idx future st' log :
  collect E model chunk ckpt st (r_idx, future) = (Ok st', log) ->
  exists r q,
    future = Ok r
    /\ chunk !! r_idx = Some q
    /\ filename st' = Some (filename_of q)
    /\ videos_processed st' = videos_processed st
    /\ ((r = [] /\ detections st' = detections st /\ log = [])
        \/ (r <> []
            /\ (exists ts cam date hour minute,
                  detections st'
                  = detections st ++ rows_of model ts cam date hour minute r)
            /\ log = [ToCsv (TmpCsv ckpt) (detections st')])).
Proof.
  unfold collect. rewrite bindM_lift. destruct future as [r|e]; [|discriminate].
  rewrite bindM_lift. unfold index.
  destruct (chunk !! r_idx) as [[[[fn m] fw] out]|]; [|discriminate].
  intros H. exists r, (fn, m, fw, out). do 2 (split; [done|]).
  destruct (Z.eqb_spec (len r) 0) as [Hr|Hr].
  - injection H as <- <-. simpl. do 2 (split; [done|]). left.
    destruct r; [done|]. unfold len in Hr. simpl in Hr. lia.
  - rewrite bindM_lift in H.
    destruct (split_on "." (stem fn) !! 0%nat) as [ts|]; [|discriminate].
    rewrite bindM_lift in H.
    destruct (split_on "." (stem fn) !! 1%nat) as [cam|]; [|discriminate].
    rewrite bindM_lift in H.
    destruct (split_date E ts) as [[[date hour] minute]|]; [|discriminate].
    injection H as <- <-. simpl. do 2 (split; [done|]). right.
    split; [by intros ->|]. split; [eauto 8|done].
Qed.

(** The only file a pass of the inner loop writes is the checkpoint of its
    wave. *)
Lemma collect_log chunk ckpt st item :
  snd (collect E model chunk ckpt st item) = []
  \/ exists table, snd (collect E model chunk ckpt st item)
                   = [ToCsv (TmpCsv ckpt) table].
Proof.
  destruct item as [r_idx future].
  unfold collect. rewrite bindM_lift. destruct future as [r|e]; [|by left].
  rewrite bindM_lift. unfold index.
  destruct (chunk !! r_idx) as [[[[fn m] fw] out]|]; [|by left].
  destruct (len r =? 0); [by left|].
  rewrite bindM_lift.
  destruct (split_on "." (stem fn) !! 0%nat) as [ts|]; [|by left].
  rewrite bindM_lift.
  destruct (split_on "." (stem fn) !! 1%nat) as [cam|]; [|by left].
  rewrite bindM_lift.
  destruct (split_date E ts) as [[[date hour] minute]|]; [|by left].
  right. simpl. eauto.
Qed.

Lemma collect_all_log chunk ckpt items st :
  exists c,
    checkpoint_ids (snd (foldM_M (collect E model chunk ckpt) st items))
    = replicate c ckpt
    /\ moves_of (snd (foldM_M (collect E model chunk ckpt) st items)) = [].
Proof.
  revert st. induction items as [|item items IH]; intros st; simpl.
  - by exists 0%nat.
  - set (first := collect E model chunk ckpt st item).
    assert (Hfirst : exists c, checkpoint_ids (snd first) = replicate c ckpt
                               /\ moves_of (snd first) = []).
    { destruct (collect_log chunk ckpt st item) as [H|[table H]];
        fold first in H; rewrite H; [by exists 0%nat | by exists 1%nat]. }
    destruct Hfirst as (c1 & Hids & Hmoves).
    destruct (bindM_snd first
                (fun acc => foldM_M (collect E model chunk ckpt) acc items))
      as [->|(st1 & _ & ->)]; [eauto|].
    destruct (IH st1) as (c2 & Hids2 & Hmoves2).
    exists (c1 + c2)%nat.
    rewrite checkpoint_ids_app, moves_of_app, Hids, Hids2, Hmoves, Hmoves2.
    by rewrite replicate_add.
Qed.

(** A pass of the inner loop writes the checkpoint of its wave once when
    the result has rows and the pass raises nothing, and not at all
    otherwise. *)
Lemma collect_writes chunk ckpt st item :
  checkpoint_ids (snd (collect E model chunk ckpt st item))
  = replicate
      (if has_rows (snd item) && is_ok (fst (collect E model chunk ckpt st item))
       then 1%nat else 0%nat)
      ckpt.
Proof.
  destruct item as [r_idx future]. cbn [snd].
  unfold collect. rewrite bindM_lift. destruct future as [r|e]; [|done].
  rewrite bindM_lift. unfold index.
  destruct (chunk !! r_idx) as [[[[fn m] fw] out]|]; [|by destruct r].
  destruct (Z.eqb_spec (len r) 0) as [Hr|Hr].
  { destruct r; [done|]. unfold len in Hr. simpl in Hr. lia. }
  assert (Hrows : has_rows (Ok r) = true).
  { destruct r; [|done]. by unfold len in Hr. }
  rewrite Hrows. cbn [andb].
  rewrite bindM_lift.
  destruct (split_on "." (stem fn) !! 0%nat) as [ts|]; [|done].
  rewrite bindM_lift.
  destruct (split_on "." (stem fn) !! 1%nat) as [cam|]; [|done].
  rewrite bindM_lift.
  destruct (split_date E ts) as [[[date hour] minute]|]; [|done].
  done.
Qed.

(** The number of results with rows among the results read. *)
Lemma collect_all_writes chunk ckpt items st :
  exists c,
    checkpoint_ids (snd (foldM_M (collect E model chunk ckpt) st items))
    = replicate c ckpt
    /\ (c <= length (List.filter has_rows items.*2))%nat
    /\ (is_ok (fst (foldM_M (collect E model chunk ckpt) st items)) = true ->
        c = length (List.filter has_rows items.*2)).
Proof.
  revert st. induction items as [|item items IH]; intros st.
  - exists 0%nat. by repeat split.
  - cbn [foldM_M fmap list_fmap List.filter].
    pose proof (collect_writes chunk ckpt st item) as Hone.
    destruct (collect E model chunk ckpt st item) as [[st1|e] log1] eqn:Hitem;
      cbn [fst snd is_ok] in Hone; cbn [bindM].
    + rewrite andb_true_r in Hone.
      destruct (IH st1) as (c & Hids & Hle & Heq).
      destruct (foldM_M (collect E model chunk ckpt) st1 items) as [r log2].
      cbn [fst snd] in *.
      exists ((if has_rows item.2 then 1 else 0) + c)%nat.
      rewrite checkpoint_ids_app, Hone, Hids, replicate_add.
      split; [done|]. destruct (has_rows item.2); simpl; split; try lia.
      * intros Hok. f_equal. by apply Heq.
      * done.
    + rewrite andb_false_r in Hone. exists 0%nat. cbn [fst snd is_ok].
      split; [done|]. split; [lia | done].
Qed.

(** The inner loop over the results of a wave, when it raises nothing:
    every future holds a result, the rows of the results are appended in
    order, the counters are untouched and [filename] ends as the video of
    the last result. *)
Lemma collect_all_Ok chunk ckpt items st st' log :
  foldM_M (collect E model chunk ckpt) st items = (Ok st', log) ->
  videos_processed st' = videos_processed st
  /\ (exists rs table,
        map snd items = map Ok rs
        /\ detections st' = detections st ++ table
        /\ map frame_id table = concat (map (map (fun row => fst (fst row))) rs))
  /\ (forall i future, last items = Some (i, future) ->
        exists q, chunk !! i = Some q /\ filename st' = Some (filename_of q))
  /\ (items = [] -> st' = st).
Proof.
  revert st log. induction items as [|[i future] items IH]; intros st log; simpl.
  - intros [= <- <-]. repeat split; try done.
    exists [], []. by rewrite app_nil_r.
  - intros H. apply bindM_Ok_inv in H as (st1 & log1 & log2 & Hone & Hrest & ->).
    apply collect_Ok in Hone
      as (r & q & -> & Hq & Hname & Hcount & Hrows).
    apply IH in Hrest as (Hcount' & (rs & table & Hrs & Htable & Hids) & Hlast & Hnil).
    split; [congruence|]. split; [|split; [|done]].
    + destruct Hrows as [(-> & Hsame & _)|(_ & (ts & c & d & h & mi & Hnew) & _)].
      * exists ([] :: rs), table. simpl. rewrite Hrs, Htable, Hsame. done.
      * exists (r :: rs), (rows_of model ts c d h mi r ++ table). simpl.
        rewrite Hrs, Htable, Hnew, <- app_assoc. repeat split; try done.
        rewrite map_app, Hids. f_equal.
        unfold rows_of. rewrite map_map. apply map_ext. by intros [[? ?] ?].
    + intros i' future'. destruct items as [|item items].
      * intros [= <- <-]. specialize (Hnil eq_refl). subst st'. eauto.
      * intros Hl. by apply Hlast in Hl.
Qed.

Lemma count_completion_Ok st st' log :
  count_completion E models move_when_done st = (Ok st', log) ->
  exists f,
    filename st = Some f
    /\ detections st' = detections st
    /\ filename st' = Some f
    /\ let count := default 0 (videos_processed st !! f) + 1 in
       match move_when_done with
       | Some target =>
           if count =? Z.of_nat (size models)
           then videos_processed st' = delete f (<[f := count]> (videos_processed st))
                /\ log = [Move f target]
           else videos_processed st' = <[f := count]> (videos_processed st)
                /\ log = []
       | None =>
           videos_processed st' = <[f := count]> (videos_processed st)
           /\ log = []
       end.
Proof.
  unfold count_completion. rewrite bindM_lift.
  destruct (filename st) as [f|]; [|discriminate].
  intros H. exists f. split; [done|].
  destruct move_when_done as [target|]; cbv zeta in *.
  - destruct (_ =? _).
    + rewrite bindM_lift in H.
      destruct (shutil_move E f target) as [[]|e]; [|discriminate].
      injection H as <- <-. done.
    + injection H as <- <-. done.
  - injection H as <- <-. done.
Qed.

Lemma count_completion_log st :
  checkpoint_ids (snd (count_completion E models move_when_done st)) = [].
Proof.
  unfold count_completion. rewrite bindM_lift.
  destruct (filename st) as [f|]; [|done].
  destruct move_when_done as [target|]; cbv zeta; [|done].
  destruct (_ =? _); [|done]. rewrite bindM_lift.
  by destruct (shutil_move E f target) as [[]|e].
Qed.

Lemma enumerate_lookup_inv {A} (xs : list A) j i x :
  enumerate xs !! j = Some (i, x) -> i = j /\ xs !! j = Some x.
Proof.
  unfold enumerate. intros H.
  apply lookup_zip_with_Some in H as (i' & x' & [= -> ->] & Hi & Hx).
  apply lookup_seq in Hi as [Hi _]. simpl in Hi. by subst.
Qed.

Lemma enumerate_snd {A} (xs : list A) : (enumerate xs).*2 = xs.
Proof. unfold enumerate. apply snd_zip. by rewrite length_seq. Qed.

Lemma enumerate_last {A} (xs : list A) :
  xs <> [] ->
  exists x, last (enumerate xs) = Some (pred (length xs), x) /\ last xs = Some x.
Proof.
  intros Hne. rewrite !last_lookup, enumerate_length.
  destruct (xs !! pred (length xs)) as [x|] eqn:Hx.
  - exists x. split; [|done]. by apply enumerate_lookup.
  - apply lookup_ge_None in Hx. destruct xs; [done|]. simpl in Hx. lia.
Qed.

(** The rows of the results of a wave number the frames of its videos. *)
Lemma results_frames chunk rs :
  map (fun q => fst (task q)) chunk = map Ok rs ->
  concat (map (map (fun row => fst (fst row))) rs)
  = flat_map (fun q => seq 0 (frames q)) chunk.
Proof.
  revert rs. induction chunk as [|q chunk IH]; intros [|r rs]; simpl; try done.
  intros [= Hq Hrest]. f_equal; [|by apply IH].
  destruct (task q) as [o log] eqn:Htask. simpl in Hq. subst o.
  by apply process_video_parallel_rows in Htask.
Qed.

(** One wave, when it raises nothing. *)
Lemma process_chunk_Ok st k chunk st' log :
  wave st (k, chunk) = (Ok st', log) ->
  (exists rs table,
     map (fun q => fst (task q)) chunk = map Ok rs
     /\ detections st' = detections st ++ table
     /\ map frame_id table = concat (map (map (fun row => fst (fst row))) rs))
  /\ (chunk <> [] ->
      exists q,
        last chunk = Some q
        /\ let f := filename_of q in
           let count := default 0 (videos_processed st !! f) + 1 in
           match move_when_done with
           | Some target =>
               if count =? Z.of_nat (size models)
               then videos_processed st'
                    = delete f (<[f := count]> (videos_processed st))
                    /\ moves_of log = [(f, target)]
               else videos_processed st' = <[f := count]> (videos_processed st)
                    /\ moves_of log = []
           | None =>
               videos_processed st' = <[f := count]> (videos_processed st)
               /\ moves_of log = []
           end).
Proof.
  unfold process_chunk. destruct (max_workers <=? 0); [discriminate|].
  rewrite executor_map_run. unfold bindM at 1.
  destruct (bindM _ _) as [r log'] eqn:Hinner. intros [= -> <-].
  apply bindM_Ok_inv in Hinner as (st1 & log1 & log2 & Hfold & Hcount & ->).
  pose proof (collect_all_log chunk (Z.of_nat k + previous)
                (enumerate (map (fun q => fst (task q)) chunk)) st) as (c & _ & Hquiet).
  rewrite Hfold in Hquiet. simpl in Hquiet.
  apply collect_all_Ok in Hfold
    as (Hsame & (rs & table & Hrs & Htable & Hids) & Hlast & _).
  rewrite enumerate_snd in Hrs.
  apply count_completion_Ok in Hcount as (f & Hf & Hdet & _ & Hcounter).
  split.
  - exists rs, table. split; [done|]. split; [congruence|done].
  - intros Hne.
    destruct (enumerate_last (map (fun q => fst (task q)) chunk))
      as (future & Hlast_item & _); [by destruct chunk|].
    apply Hlast in Hlast_item as (q & Hq & Hname).
    rewrite length_map, <- last_lookup in Hq.
    exists q. split; [done|]. simpl.
    assert (f = filename_of q) as <- by congruence.
    rewrite <- Hsame.
    rewrite !moves_of_app, Hquiet, (proj2 (tasks_log _)). simpl.
    destruct move_when_done as [target|]; simpl in Hcounter.
    + destruct (_ =? _); destruct Hcounter as [-> ->]; done.
    + destruct Hcounter as [-> ->]; done.
Qed.

(** The checkpoints one wave writes all carry its own index. *)
Lemma process_chunk_log st k chunk :
  exists c,
    checkpoint_ids (snd (wave st (k, chunk)))
    = replicate c (Z.of_nat k + previous).
Proof.
  unfold process_chunk. destruct (max_workers <=? 0); [by exists 0%nat|].
  rewrite executor_map_run. unfold bindM at 1.
  destruct (bindM _ _) as [r log'] eqn:Hinner. simpl.
  rewrite checkpoint_ids_app, (proj1 (tasks_log _)). simpl.
  apply (f_equal snd) in Hinner. simpl in Hinner. subst log'.
  destruct (collect_all_log chunk (Z.of_nat k + previous)
              (enumerate (map (fun q => fst (task q)) chunk)) st)
    as (c & Hids & _).
  exists c.
  match goal with
  | |- context [bindM ?m ?f] => destruct (bindM_snd m f) as [->|(a & _ & ->)]
  end; [done|].
  by rewrite checkpoint_ids_app, Hids, count_completion_log, app_nil_r.
Qed.

(** A sequence of waves, when it raises nothing: every task has a result,
    and the table grows by the rows of these results, in order. *)
Lemma waves_Ok items st st' log :
  foldM_M wave st items = (Ok st', log) ->
  exists rs table,
    map (fun q => fst (task q)) (concat items.*2) = map Ok rs
    /\ detections st' = detections st ++ table
    /\ map frame_id table = concat (map (map (fun row => fst (fst row))) rs).
Proof.
  revert st log. induction items as [|[k chunk] items IH]; intros st log.
  - intros [= <- <-]. exists [], []. by rewrite app_nil_r.
  - change (concat ((k, chunk) :: items).*2) with (chunk ++ concat items.*2).
    cbn [foldM_M].
    intros H. apply bindM_Ok_inv in H as (st1 & log1 & log2 & Hone & Hrest & ->).
    apply process_chunk_Ok in Hone as [(rs1 & t1 & Hr1 & Hd1 & Hf1) _].
    apply IH in Hrest as (rs2 & t2 & Hr2 & Hd2 & Hf2).
    exists (rs1 ++ rs2), (t1 ++ t2).
    rewrite !map_app, Hr1, Hr2, Hd2, Hd1, <- app_assoc, concat_app, Hf1, Hf2.
    done.
Qed.

#[local] Arguments process_chunk : simpl never.

Lemma waves_log cs start st :
  exists counts,
    (length counts <= length cs)%nat
    /\ checkpoint_ids
         (snd (foldM_M wave st (zip (seq start (length cs)) cs)))
       = wave_ids previous start counts.
Proof.
  revert start st. induction cs as [|chunk cs IH]; intros start st; simpl.
  - by exists [].
  - destruct (process_chunk_log st start chunk) as (c & Hc).
    match goal with
    | |- context [bindM ?m ?f] => destruct (bindM_snd m f) as [->|(a & _ & ->)]
    end.
    + exists [c]. split; [simpl; lia|].
      unfold wave_ids. simpl. by rewrite app_nil_r.
    + destruct (IH (S start) a) as (counts & Hlen & Hids).
      exists (c :: counts). split; [simpl; lia|].
      rewrite checkpoint_ids_app, Hc, Hids. done.
Qed.

(** A result with rows is the result of a video with frames, and when
    every task returns, the results with rows are those of the videos with
    frames. *)
Lemma results_writes chunk :
  (length (List.filter has_rows (map (fun q => fst (task q)) chunk))
   <= wave_writes E chunk)%nat
  /\ (forall rs, map (fun q => fst (task q)) chunk = map Ok rs ->
        length (List.filter has_rows (map (fun q => fst (task q)) chunk))
        = wave_writes E chunk).
Proof.
  unfold wave_writes. induction chunk as [|q chunk [IHle IHeq]];
    [by split|].
  cbn [map List.filter].
  assert (Hq : forall r, fst (task q) = Ok r ->
                         length r = length (VideoCapture E (filename_of q))).
  { intros r Hr. destruct (task q) as [o log] eqn:Htask. simpl in Hr. subst o.
    by apply process_video_parallel_length in Htask. }
  fold (filename_of q).
  destruct (fst (task q)) as [r|e] eqn:Hres.
  - specialize (Hq r eq_refl).
    destruct r as [|row r], (VideoCapture E (filename_of q)) as [|frame frames];
      try done; cbn [has_rows length].
    + split; [done|]. intros [|r0 rs]; [done|]. intros [= _ Hrest]. eauto.
    + split; [lia|]. intros [|r0 rs]; [done|]. intros [= _ Hrest].
      f_equal. eauto.
  - cbn [has_rows]. split.
    + destruct (VideoCapture E (filename_of q)); cbn [length]; lia.
    + intros [|r0 rs]; done.
Qed.

(** The checkpoints one wave writes, counted: at most one per video of the
    chunk that has a frame, and exactly that many when the wave raises
    nothing. *)
Lemma process_chunk_writes st k chunk :
  exists c,
    checkpoint_ids (snd (wave st (k, chunk)))
    = replicate c (Z.of_nat k + previous)
    /\ (c <= wave_writes E chunk)%nat
    /\ (is_ok (fst (wave st (k, chunk))) = true -> c = wave_writes E chunk).
Proof.
  destruct (wave st (k, chunk)) as [r log] eqn:Hwave. cbn [fst snd].
  unfold process_chunk in Hwave.
  destruct (max_workers <=? 0).
  { injection Hwave as <- <-. exists 0%nat. split; [done|]. split; [lia|done]. }
  rewrite executor_map_run in Hwave. unfold bindM at 1 in Hwave.
  destruct (bindM _ _) as [r' log'] eqn:Hinner. injection Hwave as <- <-.
  rewrite checkpoint_ids_app, (proj1 (tasks_log _)). cbn [app].
  destruct (collect_all_writes chunk (Z.of_nat k + previous)
              (enumerate (map (fun q => fst (task q)) chunk)) st)
    as (c & Hids & Hle & Heq).
  rewrite enumerate_snd in Hle, Heq.
  destruct (results_writes chunk) as [Hbound Hexact].
  exists c.
  destruct (foldM_M _ st _) as [[st1|e] log1] eqn:Hfold;
    cbn [bindM fst snd is_ok] in *.
  - destruct (count_completion E models move_when_done st1) as [r2 log2] eqn:Hcount.
    injection Hinner as <- <-.
    pose proof (count_completion_log st1) as Hquiet. rewrite Hcount in Hquiet.
    simpl in Hquiet. rewrite checkpoint_ids_app, Hids, Hquiet, app_nil_r.
    split; [done|].
    apply collect_all_Ok in Hfold as (_ & (rs & table & Hrs & _) & _).
    rewrite enumerate_snd in Hrs.
    rewrite (Heq eq_refl). split; [exact Hbound|]. intros _.
    by apply (Hexact rs).
  - injection Hinner as <- <-. split; [done|].
    split; [exact (Nat.le_trans _ _ _ Hle Hbound) | done].
Qed.

(** The checkpoint indices of the waves over the chunks [cs], counted. *)
Lemma waves_writes cs start st :
  exists counts,
    checkpoint_ids
      (snd (foldM_M wave st (zip (seq start (length cs)) cs)))
    = wave_ids previous start counts
    /\ Forall2 (fun c chunk => (c <= wave_writes E chunk)%nat)
               counts (take (length counts) cs)
    /\ (is_ok (fst (foldM_M wave st (zip (seq start (length cs)) cs))) = true ->
        counts = map (wave_writes E) cs).
Proof.
  revert start st. induction cs as [|chunk cs IH]; intros start st.
  - exists []. by repeat split.
  - cbn [length seq zip zip_with foldM_M].
    destruct (process_chunk_writes st start chunk) as (c & Hc & Hle & Heq).
    destruct (wave st (start, chunk)) as [[st1|e] log1] eqn:Hwave;
      cbn [bindM fst snd is_ok] in *.
    + destruct (IH (S start) st1) as (counts & Hids & Hall & Hok).
      destruct (foldM_M wave st1 _) as [r log2]. cbn [fst snd] in *.
      exists (c :: counts). rewrite checkpoint_ids_app, Hc, Hids.
      split; [done|]. split; [by constructor|].
      intros Hr. cbn [map]. f_equal; [by apply Heq | by apply Hok].
    + exists [c]. split; [|split; [|done]].
      * unfold wave_ids. simpl. by rewrite app_nil_r.
      * cbn [length take]. rewrite take_0. by repeat constructor.
Qed.

Lemma wave_ids_sorted start counts :
  StronglySorted Z.le (wave_ids previous start counts)
  /\ Forall (fun id => Z.of_nat start + previous <= id) (wave_ids previous start counts).
Proof.
  revert start. unfold wave_ids.
  induction counts as [|c counts IH]; intros start; simpl.
  - split; constructor.
  - destruct (IH (S start)) as [Hsorted Hlow]. split.
    + induction c as [|c IHc]; simpl; [done|].
      constructor; [done|]. apply Forall_app. split.
      * apply Forall_replicate. lia.
      * eapply Forall_impl; [exact Hlow|]. simpl. lia.
    + apply Forall_app. split.
      * apply Forall_replicate. lia.
      * eapply Forall_impl; [exact Hlow|]. simpl. lia.
Qed.

End Coordinator.

(* ===================================================================== *)
(** ** Properties of a run *)
(* ===================================================================== *)

Section Run.

Context {Model Device Frame : Type}.
Variable E : ProcessDataset.Collaborators Model Device Frame.
Variable models : gmap string Model.
Variable devices : gmap string Device.

Import ProcessDataset.

#[local] Arguments process_chunk : simpl never.

Lemma chunks_nonempty {A} (lst : list A) n cs c :
  chunks lst n = Ok cs -> c ∈ cs -> c <> [].
Proof.
  intros Hcs Hc. destruct (Z.lt_trichotomy n 0) as [Hn|[->|Hn]].
  - rewrite chunks_negative in Hcs by done. injection Hcs as <-.
    by apply elem_of_nil in Hc.
  - by rewrite chunks_zero in Hcs.
  - destruct (chunks_positive lst n Hn) as (cs' & Hcs' & _ & Hsizes & _).
    assert (cs' = cs) as -> by congruence.
    apply list_elem_of_lookup in Hc as [k Hk].
    apply Hsizes in Hk as [Hlen _]. intros ->. unfold len in Hlen. simpl in Hlen. lia.
Qed.

Lemma after_waves_S model mv w prev cs k chunk :
  cs !! k = Some chunk ->
  after_waves E models devices model mv w prev cs (S k)
  = do st <- after_waves E models devices model mv w prev cs k;
    process_chunk E models devices model mv w prev st (k, chunk).
Proof.
  intros Hk. unfold after_waves.
  rewrite (take_S_r _ _ (k, chunk)) by by apply enumerate_lookup.
  apply foldM_M_snoc.
Qed.

Lemma after_waves_S_Ok model mv w prev cs k chunk st' log' :
  cs !! k = Some chunk ->
  after_waves E models devices model mv w prev cs (S k) = (Ok st', log') ->
  exists st log evs,
    after_waves E models devices model mv w prev cs k = (Ok st, log)
    /\ process_chunk E models devices model mv w prev st (k, chunk) = (Ok st', evs)
    /\ log' = log ++ evs.
Proof.
  intros Hk. rewrite (after_waves_S _ _ _ _ _ _ _ Hk). intros H.
  apply bindM_Ok_inv in H as (st & log & evs & Hrun & Hone & ->).
  eauto 6.
Qed.

(** C2. In a run over the chunks [cs] of the pending tasks, the wave of every
    chunk increments the completion counter of one video only, the video of
    the last task of that chunk, the counters of all other videos staying
    as they were; and when the incremented counter equals the number of
    configured models while a relocation target is given, the file of that
    video is moved to the target and its entry is removed from the map
    (otherwise the entry holds the new count and nothing is moved). *)
Theorem completion_counting (query_args : list query) (size_ : Z)
    (cs : list (list query)) model mv w prev k st' log' :
  chunks query_args size_ = Ok cs ->
  (k < length cs)%nat ->
  after_waves E models devices model mv w prev cs (S k) = (Ok st', log') ->
  exists st log chunk q evs,
    after_waves E models devices model mv w prev cs k = (Ok st, log)
    /\ cs !! k = Some chunk
    /\ last chunk = Some q
    /\ log' = log ++ evs
    /\ let f := filename_of q in
       let count := default 0 (videos_processed st !! f) + 1 in
       (forall v, v <> f ->
          videos_processed st' !! v = videos_processed st !! v)
       /\ match mv with
          | Some target =>
              if count =? Z.of_nat (size models)
              then videos_processed st' !! f = None
                   /\ moves_of evs = [(f, target)]
              else videos_processed st' !! f = Some count
                   /\ moves_of evs = []
          | None =>
              videos_processed st' !! f = Some count /\ moves_of evs = []
          end.
Proof.
  intros Hcs Hk Hrun.
  destruct (cs !! k) as [chunk|] eqn:Hchunk;
    [|apply lookup_ge_None in Hchunk; lia].
  destruct (after_waves_S_Ok _ _ _ _ _ _ _ _ _ Hchunk Hrun)
    as (st & log & evs & Hbefore & Hwave & ->).
  apply process_chunk_Ok in Hwave as [_ Hcount].
  destruct Hcount as (q & Hlast & Hcount).
  { eapply chunks_nonempty; [exact Hcs|]. by eapply list_elem_of_lookup_2. }
  exists st, log, chunk, q, evs. do 4 (split; [done|]).
  simpl in *. destruct mv as [target|].
  - destruct (_ =? _); destruct Hcount as [-> Hmoves].
    + split; [|split; [apply lookup_delete_eq | done]].
      intros v Hv. by rewrite lookup_delete_ne, lookup_insert_ne.
    + split; [|split; [apply lookup_insert_eq | done]].
      intros v Hv. by rewrite lookup_insert_ne.
  - destruct Hcount as [-> Hmoves].
    split; [|split; [apply lookup_insert_eq | done]].
    intros v Hv. by rewrite lookup_insert_ne.
Qed.

(** C5. When the first [n] waves of a run have been collected, every task
    of these waves has returned a result, and the accumulated table holds
    the rows of these results and nothing else: its row count is the sum of
    the row counts of the results, which is the sum of the frame counts of
    their videos, with one row per frame, numbered from 0 (an empty result
    adds nothing). The table after fewer waves is a prefix of it: rows are
    only appended. *)
Theorem table_after_waves (cs : list (list query)) model mv w prev n st log :
  after_waves E models devices model mv w prev cs n = (Ok st, log) ->
  let tasks := concat (take n cs) in
  let frames q := length (VideoCapture E (filename_of q)) in
  (exists rs,
     map (fun q => fst (process_video_parallel E models devices q)) tasks
     = map Ok rs
     /\ length (detections st) = sum_list (map length rs))
  /\ length (detections st) = sum_list (map frames tasks)
  /\ map frame_id (detections st) = flat_map (fun q => seq 0 (frames q)) tasks
  /\ (forall m, (m <= n)%nat ->
        exists st_m log_m,
          after_waves E models devices model mv w prev cs m = (Ok st_m, log_m)
          /\ detections st_m `prefix_of` detections st).
Proof.
  intros Hrun tasks frames. unfold after_waves in Hrun.
  pose proof Hrun as Hall.
  apply waves_Ok in Hall as (rs & table & Hrs & Htable & Hids).
  rewrite fmap_take, enumerate_snd in Hrs. fold tasks in Hrs.
  simpl in Htable. subst table.
  pose proof (results_frames E models devices tasks rs Hrs) as Hframes.
  assert (Hlen : length (detections st) = sum_list (map length rs)).
  { rewrite <- (length_map frame_id), Hids, length_concat. f_equal.
    rewrite <- list_fmap_compose. apply list_fmap_ext.
    intros _ r _. simpl. apply length_map. }
  split; [eauto|]. split; [|split].
  - rewrite <- (length_map frame_id), Hids, Hframes.
    clear. induction tasks as [|q tasks IH]; simpl; [done|].
    by rewrite length_app, length_seq, IH.
  - by rewrite Hids.
  - intros m Hm. unfold after_waves.
    rewrite <- (take_drop m (take n (enumerate cs))) in Hrun.
    rewrite take_take, Nat.min_l, foldM_M_app in Hrun by done.
    apply bindM_Ok_inv in Hrun as (st_m & log_m & log2 & Hm_run & Hrest & _).
    exists st_m, log_m. split; [done|].
    apply waves_Ok in Hrest as (_ & table & _ & -> & _).
    by apply prefix_app_r.
Qed.

(** C9. For a video that yields no decodable frame, [infer_video] returns
    no per-frame result and the shape (0, 0), raising nothing;
    [process_video] then returns no row and writes no file; and the
    coordinator, reading that result, adds no row to the table and writes
    no checkpoint. *)
Theorem zero_frames filename (m : Model) (d : Device) framework output
    model chunk ckpt st r_idx q :
  VideoCapture E filename = [] ->
  chunk !! r_idx = Some q ->
  infer_video E filename m d framework = Ok ([], [0; 0])
  /\ process_video E filename m d framework output = (Ok [], [])
  /\ exists st',
       collect E model chunk ckpt st
               (r_idx, fst (process_video E filename m d framework output))
       = (Ok st', [])
       /\ detections st' = detections st.
Proof.
  intros Hframes Hq.
  assert (Hinfer : infer_video E filename m d framework = Ok ([], [0; 0])).
  { unfold infer_video. by rewrite Hframes. }
  assert (Hvideo : process_video E filename m d framework output = (Ok [], [])).
  { unfold process_video. rewrite Hinfer. by destruct output. }
  do 2 (split; [done|]). rewrite Hvideo.
  unfold collect, index. rewrite Hq.
  destruct q as [[[fn mo] fw] out]. simpl. eauto.
Qed.

(** C10. With no video left to process (none enumerated, or all skipped in
    per-video mode) and a worker count that is not negative, the worker
    count is clamped to 0, [chunks] is called with the chunk size 0 and
    raises, and [process_dataset] ends with an exception having written no
    file, not even the final CSV. The exception is the [ValueError] of
    [chunks] unless reading the indices of the checkpoints on disk raised
    first. *)
Theorem empty_run_raises dataset dataset_name model framework output
    per_video_results process_all move_when_done max_workers videos :
  enumerate_videos E process_all dataset = Ok videos ->
  skip_processed E per_video_results output videos = [] ->
  0 <= max_workers ->
  clamp_workers 0 max_workers = 0
  /\ chunks (A := query) [] (clamp_workers 0 max_workers * 2) = Raise ValueError
  /\ exists e,
       process_dataset E models devices dataset dataset_name model framework
                       output per_video_results process_all move_when_done
                       max_workers
       = (Raise e, [])
       /\ (is_ok (scan_tmp_files E output) = true -> e = ValueError).
Proof.
  intros Hvideos Hnone Hw.
  assert (Hclamp : clamp_workers 0 max_workers = 0).
  { unfold clamp_workers. destruct (Z.ltb_spec 0 (max_workers * 2)); lia. }
  split; [done|]. split; [by rewrite Hclamp|].
  unfold process_dataset. rewrite Hvideos, bindM_lift, Hnone.
  change (len (map _ (@nil string))) with 0.
  rewrite Hclamp, bindM_lift.
  destruct (scan_tmp_files E output) as [tmp_files|e]; [|by exists e].
  exists ValueError. split; [|done].
  rewrite bindM_lift.
  assert (Hprev : exists p, previous_tmp_files tmp_files = Ok p).
  { unfold previous_tmp_files. destruct (0 <? len tmp_files) eqn:Hlen; [|eauto].
    destruct tmp_files; [done|]. simpl. eauto. }
  destruct Hprev as [p ->]. by rewrite bindM_lift.
Qed.

End Run.

Lemma fold_max_spec xs x :
  fold_left Z.max xs x ∈ x :: xs
  /\ Forall (fun t => t <= fold_left Z.max xs x) (x :: xs).
Proof.
  revert x. induction xs as [|y xs IH]; intros x; simpl.
  - split; [apply list_elem_of_here | by constructor].
  - destruct (IH (Z.max x y)) as [Hin Hall].
    inversion Hall as [|? ? Hfirst Hrest]; subst. split.
    + apply elem_of_cons in Hin as [Heq|Hin].
      * rewrite Heq. destruct (Z.max_spec x y) as [[_ ->]|[_ ->]].
        -- apply list_elem_of_further, list_elem_of_here.
        -- apply list_elem_of_here.
      * by do 2 apply list_elem_of_further.
    + constructor; [lia|]. constructor; [lia|done].
Qed.

Lemma previous_tmp_files_spec tmp_files :
  exists offset,
    ProcessDataset.previous_tmp_files tmp_files = Ok offset
    /\ (tmp_files = [] -> offset = 0)
    /\ (tmp_files <> [] ->
        offset - 1 ∈ tmp_files /\ Forall (fun t => t <= offset - 1) tmp_files).
Proof.
  unfold ProcessDataset.previous_tmp_files.
  destruct tmp_files as [|x xs]; simpl.
  - exists 0. by repeat split.
  - replace (0 <? len (x :: xs)) with true
      by (symmetry; apply Z.ltb_lt; unfold len; simpl; lia).
    simpl. eexists. split; [reflexivity|]. split; [done|]. intros _.
    replace (fold_left Z.max xs x + 1 - 1) with (fold_left Z.max xs x) by lia.
    apply fold_max_spec.
Qed.

Section Checkpoints.

Context {Model Device Frame : Type}.
Variable E : ProcessDataset.Collaborators Model Device Frame.
Variable models : gmap string Model.
Variable devices : gmap string Device.

Import ProcessDataset.

(** C4. The checkpoint files a run writes carry the indices
    [chunk_index + offset], where [offset] is one plus the highest index
    among the checkpoint files found on disk when the run starts, and 0
    when there is none: the wave of the chunk of index [k] writes
    [counts !! k] times, always to index [k + offset], once per video of
    the chunk that has a frame and whose result it collects, that is once
    per video of the chunk that has a frame when the run raises nothing.
    Hence the indices never decrease along the run, grow strictly from one
    chunk to the next, and are all different from every index found at the
    start. With indices 0 and 1 on disk the offset is 2, the index of the
    first wave. *)
Theorem checkpoint_indices dataset dataset_name model framework output
    per_video_results process_all move_when_done max_workers tmp_files :
  scan_tmp_files E output = Ok tmp_files ->
  let run := process_dataset E models devices dataset dataset_name model
                             framework output per_video_results
                             process_all move_when_done max_workers in
  let log := snd run in
  exists offset counts,
    previous_tmp_files tmp_files = Ok offset
    /\ (tmp_files = [] -> offset = 0)
    /\ (tmp_files <> [] ->
        offset - 1 ∈ tmp_files /\ Forall (fun t => t <= offset - 1) tmp_files)
    /\ checkpoint_ids log
       = flat_map (fun '(k, c) => replicate c (Z.of_nat k + offset))
                  (enumerate counts)
    /\ (forall videos cs,
          enumerate_videos E process_all dataset = Ok videos ->
          (let tasks := tasks_of (skip_processed E per_video_results output
                                                 videos)
                                 model framework output per_video_results in
           chunks tasks (clamp_workers (len tasks) max_workers * 2) = Ok cs) ->
          Forall2 (fun c chunk => (c <= wave_writes E chunk)%nat)
                  counts (take (length counts) cs)
          /\ (fst run = Ok tt -> counts = map (wave_writes E) cs))
    /\ StronglySorted Z.le (checkpoint_ids log)
    /\ Forall (fun id => offset <= id /\ id ∉ tmp_files) (checkpoint_ids log)
    /\ previous_tmp_files [0; 1] = Ok 2.
Proof.
  intros Hscan run log.
  destruct (previous_tmp_files_spec tmp_files) as (offset & Hprev & Hnone & Hsome).
  exists offset.
  assert (Hids : exists counts,
             checkpoint_ids log = wave_ids offset 0 counts
             /\ forall videos cs,
                  enumerate_videos E process_all dataset = Ok videos ->
                  chunks (tasks_of (skip_processed E per_video_results output
                                                   videos)
                                   model framework output per_video_results)
                         (clamp_workers
                            (len (tasks_of (skip_processed E per_video_results
                                                           output videos)
                                           model framework output
                                           per_video_results))
                            max_workers * 2) = Ok cs ->
                  Forall2 (fun c chunk => (c <= wave_writes E chunk)%nat)
                          counts (take (length counts) cs)
                  /\ (fst run = Ok tt -> counts = map (wave_writes E) cs)).
  { subst log run. unfold process_dataset. rewrite bindM_lift.
    destruct (enumerate_videos E process_all dataset) as [videos|e];
      [|exists []; split; [done|]; by intros videos cs [=]].
    rewrite Hscan, bindM_lift, Hprev, bindM_lift.
    fold (tasks_of (skip_processed E per_video_results output videos) model
                   framework output per_video_results).
    set (tasks := tasks_of _ _ _ _ _).
    destruct (chunks tasks _) as [cs|e] eqn:Hcs.
    2: { exists []. split; [done|]. intros videos' cs' [= <-].
         fold tasks. rewrite Hcs. by intros [=]. }
    destruct (waves_writes E models devices model move_when_done
                (clamp_workers (len tasks) max_workers)
                offset cs 0 initial_state) as (counts & Hcounts & Hall & Hok).
    exists counts. rewrite bindM_lift. unfold after_waves.
    rewrite take_ge by (rewrite enumerate_length; lia).
    fold (enumerate cs) in Hcounts, Hok.
    destruct (foldM_M _ initial_state (enumerate cs)) as [[st|e] wlog];
      cbn [bindM emit fst snd is_ok] in *.
    - split; [by rewrite checkpoint_ids_app, Hcounts; simpl; rewrite app_nil_r|].
      intros videos' cs' [= <-]. fold tasks. rewrite Hcs. intros [= <-].
      split; [done|]. intros _. by apply Hok.
    - split; [done|].
      intros videos' cs' [= <-]. fold tasks. rewrite Hcs. intros [= <-].
      split; [done|]. intros [=]. }
  destruct Hids as (counts & Hids & Htied). exists counts.
  destruct (wave_ids_sorted offset 0 counts) as [Hsorted Hlow].
  rewrite Hids.
  do 3 (split; [done|]). split; [reflexivity|].
  split; [exact Htied|]. split; [done|].
  split; [|reflexivity].
  eapply Forall_impl; [exact Hlow|]. simpl. intros id Hid. split; [lia|].
  intros Hin. destruct tmp_files as [|t ts]; [by apply elem_of_nil in Hin|].
  destruct Hsome as [_ Hall]; [done|].
  rewrite Forall_forall in Hall. apply Hall in Hin. lia.
Qed.

End Checkpoints.

(** The second wave of the demo run: the counter of [video_d], the last
    video of the chunk, reaches the number of models and the file moves. *)
Lemma completion_counting_witness :
  exists st' log',
    ProcessDataset.after_waves Demo.E Demo.models Demo.devices "edge"
      (Some "done") 1 2 Demo.waves 2 = (Ok st', log')
    /\ exists st log chunk q evs,
         ProcessDataset.after_waves Demo.E Demo.models Demo.devices "edge"
           (Some "done") 1 2 Demo.waves 1 = (Ok st, log)
         /\ Demo.waves !! 1%nat = Some chunk
         /\ last chunk = Some q
         /\ log' = log ++ evs
         /\ let f := filename_of q in
            let count :=
              default 0 (ProcessDataset.videos_processed st !! f) + 1 in
            (forall v, v <> f ->
               ProcessDataset.videos_processed st' !! v
               = ProcessDataset.videos_processed st !! v)
            /\ (if count =? Z.of_nat (size Demo.models)
                then ProcessDataset.videos_processed st' !! f = None
                     /\ moves_of evs = [(f, "done")]
                else ProcessDataset.videos_processed st' !! f = Some count
                     /\ moves_of evs = []).
Proof.
  eexists _, _. split; [vm_compute; reflexivity|].
  apply (completion_counting Demo.E Demo.models Demo.devices Demo.tasks 2
           Demo.waves "edge" (Some "done") 1 2 1);
    [reflexivity | simpl; lia | vm_compute; reflexivity].
Defined.

(** The demo run after its two waves: 2 + 1 + 2 + 0 rows. *)
Lemma table_after_waves_witness :
  exists st log,
    ProcessDataset.after_waves Demo.E Demo.models Demo.devices "edge"
      (Some "done") 1 2 Demo.waves 2 = (Ok st, log)
    /\ length (ProcessDataset.detections st) = 5%nat
    /\ let tasks := concat (take 2 Demo.waves) in
       let frames q :=
         length (ProcessDataset.VideoCapture Demo.E (filename_of q)) in
       (exists rs,
          map (fun q => fst (ProcessDataset.process_video_parallel
                               Demo.E Demo.models Demo.devices q)) tasks
          = map Ok rs
          /\ length (ProcessDataset.detections st) = sum_list (map length rs))
       /\ length (ProcessDataset.detections st) = sum_list (map frames tasks)
       /\ map frame_id (ProcessDataset.detections st)
          = flat_map (fun q => seq 0 (frames q)) tasks
       /\ (forall m, (m <= 2)%nat ->
             exists st_m log_m,
               ProcessDataset.after_waves Demo.E Demo.models Demo.devices
                 "edge" (Some "done") 1 2 Demo.waves m = (Ok st_m, log_m)
               /\ ProcessDataset.detections st_m
                  `prefix_of` ProcessDataset.detections st).
Proof.
  eexists _, _. split; [vm_compute; reflexivity|]. split; [reflexivity|].
  eapply (table_after_waves Demo.E Demo.models Demo.devices Demo.waves "edge"
            (Some "done") 1 2 2).
  vm_compute; reflexivity.
Defined.

(** [video_d] has no frame. *)
Lemma zero_frames_witness :
  ProcessDataset.VideoCapture Demo.E Demo.video_d = []
  /\ ProcessDataset.infer_video Demo.E Demo.video_d "mobilenet" "cpu" "tf"
     = Ok ([], [0; 0])
  /\ ProcessDataset.process_video Demo.E Demo.video_d "mobilenet" "cpu" "tf"
       (Some "out") = (Ok [], [])
  /\ exists st',
       ProcessDataset.collect Demo.E "edge"
         [(Demo.video_c, "edge", "tf", Some "out");
          (Demo.video_d, "edge", "tf", Some "out")] 3
         ProcessDataset.initial_state
         (1%nat, fst (ProcessDataset.process_video Demo.E Demo.video_d
                        "mobilenet" "cpu" "tf" (Some "out")))
       = (Ok st', [])
       /\ ProcessDataset.detections st'
          = ProcessDataset.detections ProcessDataset.initial_state.
Proof.
  split; [reflexivity|].
  apply (zero_frames Demo.E Demo.video_d "mobilenet" "cpu" "tf" (Some "out")
           "edge" _ 3 ProcessDataset.initial_state 1
           (Demo.video_d, "edge", "tf", Some "out"));
    reflexivity.
Defined.

(** An empty dataset and one worker. *)
Lemma empty_run_raises_witness :
  ProcessDataset.clamp_workers 0 1 = 0
  /\ chunks (A := ProcessDataset.query) [] (ProcessDataset.clamp_workers 0 1 * 2)
     = Raise ValueError
  /\ exists e,
       ProcessDataset.process_dataset Demo.E Demo.models Demo.devices []
         "run" "edge" "tf" "out" false true None 1
       = (Raise e, [])
       /\ (is_ok (ProcessDataset.scan_tmp_files Demo.E "out") = true
           -> e = ValueError).
Proof.
  apply (empty_run_raises Demo.E Demo.models Demo.devices [] "run" "edge" "tf"
           "out" false true None 1 []);
    [reflexivity | reflexivity | lia].
Defined.

(** Per-video mode with the only video already processed. *)
Example all_skipped_raises :
  ProcessDataset.process_dataset Demo.E_with_pickle Demo.models Demo.devices
    [Demo.video_a] "run" "edge" "tf" "out" true true None 4
  = (Raise ValueError, []).
Proof. vm_compute. reflexivity. Qed.

(** A worker count of 0 stays 0 and [chunks] raises all the same; a
    negative one, which counts no worker, gives [range] a negative step: no
    chunk is made and the final CSV is written, empty. *)
Example empty_run_no_worker :
  ProcessDataset.process_dataset Demo.E Demo.models Demo.devices []
    "run" "edge" "tf" "out" false true None 0
  = (Raise ValueError, []).
Proof. vm_compute. reflexivity. Qed.

Lemma empty_run_counterexample :
  ProcessDataset.skip_processed Demo.E false "out" [] = []
  /\ ProcessDataset.process_dataset Demo.E Demo.models Demo.devices []
       "run" "edge" "tf" "out" false true None (-1)
     = (Ok tt, [ToCsv FinalCsv []]).
Proof. split; vm_compute; reflexivity. Qed.

(** The demo run, with [run.tmp.csv.0] and [run.tmp.csv.1] on disk. *)
Lemma checkpoint_indices_witness :
  ProcessDataset.scan_tmp_files Demo.E "out" = Ok [0; 1]
  /\ let run := ProcessDataset.process_dataset Demo.E Demo.models
                  Demo.devices Demo.dataset "run" "edge" "tf" "out"
                  false true (Some "done") 1 in
     let log := snd run in
     exists offset counts,
       ProcessDataset.previous_tmp_files [0; 1] = Ok offset
       /\ ([0; 1] = [] -> offset = 0)
       /\ ([0; 1] <> [] ->
           offset - 1 ∈ [0; 1] /\ Forall (fun t => t <= offset - 1) [0; 1])
       /\ checkpoint_ids log
          = flat_map (fun '(k, c) => replicate c (Z.of_nat k + offset))
                     (enumerate counts)
       /\ (forall videos cs,
             ProcessDataset.enumerate_videos Demo.E true Demo.dataset
             = Ok videos ->
             (let tasks := tasks_of (ProcessDataset.skip_processed
                                       Demo.E false "out" videos)
                                    "edge" "tf" "out" false in
              chunks tasks (ProcessDataset.clamp_workers (len tasks) 1 * 2)
              = Ok cs) ->
             Forall2 (fun c chunk => (c <= wave_writes Demo.E chunk)%nat)
                     counts (take (length counts) cs)
             /\ (fst run = Ok tt -> counts = map (wave_writes Demo.E) cs))
       /\ StronglySorted Z.le (checkpoint_ids log)
       /\ Forall (fun id => offset <= id /\ id ∉ [0; 1]) (checkpoint_ids log)
       /\ ProcessDataset.previous_tmp_files [0; 1] = Ok 2.
Proof.
  split; [reflexivity|].
  apply (checkpoint_indices Demo.E Demo.models Demo.devices Demo.dataset "run"
           "edge" "tf" "out" false true (Some "done") 1 [0; 1]).
  reflexivity.
Defined.

(** In the demo run the chunks have two and one video with a frame. *)
Example wave_writes_demo : map (wave_writes Demo.E) Demo.waves = [2; 1]%nat.
Proof. reflexivity. Qed.

(** In the demo run the first wave writes index 2 twice, the second wave
    index 3 once. *)
Example first_new_checkpoint :
  checkpoint_ids
    (snd (ProcessDataset.process_dataset Demo.E Demo.models Demo.devices
            Demo.dataset "run" "edge" "tf" "out" false true (Some "done") 1))
  = [2; 2; 3].
Proof. vm_compute. reflexivity. Qed.

(** A wave whose results are all empty writes no checkpoint, and the next
    wave still writes under its own index: two videos without frames, then
    [video_a]. *)
Example checkpoint_after_empty_wave :
  checkpoint_ids
    (snd (ProcessDataset.process_dataset Demo.E Demo.models Demo.devices
            [Demo.video_d; "data/2020-01-01T09:00:00.cam3.mkv"; Demo.video_a]
            "run" "edge" "tf" "out" false true None 1))
  = [3].
Proof. vm_compute. reflexivity. Qed.

(* ===================================================================== *)
(** ** The enumeration of the videos *)
(* ===================================================================== *)

Section Enumeration.

Context {Model Device Frame : Type}.
Variable E : ProcessDataset.Collaborators Model Device Frame.
Variable models : gmap string Model.
Variable devices : gmap string Device.

Import ProcessDataset.

Local Abbreviation key := (date_hour_key E).

(** A video with a bucket key has a non-empty stem, so the stem stored in
    [processed_ts] is truthy. *)
Lemma key_stem_nonempty f k : key f = Ok k -> nonempty (stem f) = true.
Proof.
  unfold date_hour_key. intros H.
  apply bind_Ok_inv in H as (ts & _ & H).
  apply bind_Ok_inv in H as (c & Hcam & _).
  destruct (stem f); [discriminate|done].
Qed.

Lemma fast_inv_init : fast_inv key [] [] ∅.
Proof.
  split; try (intros ? H; by apply elem_of_nil in H).
  - constructor.
  - constructor.
  - intros k v H. by rewrite lookup_empty in H.
Qed.

Lemma earliest_in_bucket_app seen f v :
  earliest_in_bucket key seen v -> earliest_in_bucket key (seen ++ [f]) v.
Proof.
  intros (i & Hi & Hbefore). exists i. split.
  - by apply lookup_app_l_Some.
  - intros j u Hj Hu. apply (Hbefore j u Hj).
    rewrite lookup_app_l in Hu; [done|].
    apply lookup_lt_Some in Hi. lia.
Qed.

Lemma fast_step_inv seen videos processed_ts f videos' processed_ts' :
  fast_inv key seen videos processed_ts ->
  fast_step E (videos, processed_ts) f = Ok (videos', processed_ts') ->
  fast_inv key (seen ++ [f]) videos' processed_ts'.
Proof.
  intros [Hsub Hnodup Hearly Hcov Hflag Hkept]. unfold fast_step.
  intros H. apply bind_Ok_inv in H as (k & Hk & H).
  set (looked := match processed_ts !! k with
                 | Some v => (v, processed_ts)
                 | None => (FlagBool false, <[k := FlagBool false]> processed_ts)
                 end) in H.
  destruct looked as [v pts] eqn:Hlooked.
  destruct (truthy v) eqn:Htruthy.
  - (* the bucket is taken: the video is dropped *)
    injection H as <- <-.
    assert (Hpts : processed_ts !! k = Some v /\ pts = processed_ts).
    { subst looked. destruct (processed_ts !! k) as [v'|].
      - by injection Hlooked as -> ->.
      - injection Hlooked as <- _. discriminate. }
    destruct Hpts as [Hv ->].
    split; try done.
    + by apply sublist_inserts_r.
    + intros u Hu. by apply earliest_in_bucket_app, Hearly.
    + intros u Hu. apply elem_of_app in Hu as [Hu|Hu]; [by apply Hcov|].
      apply list_elem_of_singleton in Hu as ->.
      destruct (Hflag k v Hv Htruthy) as (g & Hg & Hgk).
      exists g. split; [done|congruence].
  - (* the bucket is free: the video is kept *)
    injection H as <- <-.
    assert (Hfree : forall g, g ∈ videos -> key g <> Ok k).
    { intros g Hg Hgk. destruct (Hkept g Hg) as (k' & v' & Hk' & Hv' & Ht').
      assert (k' = k) as -> by congruence.
      subst looked. rewrite Hv' in Hlooked. injection Hlooked as -> _.
      congruence. }
    assert (Hother : forall k', k' <> k -> pts !! k' = processed_ts !! k').
    { intros k' Hne. subst looked. destruct (processed_ts !! k).
      - by injection Hlooked as _ <-.
      - injection Hlooked as _ <-. by rewrite lookup_insert_ne. }
    split.
    + by apply sublist_app.
    + rewrite fmap_app. apply NoDup_app. split; [done|]. split.
      * intros o Ho Hin. apply list_elem_of_singleton in Hin as ->.
        apply list_elem_of_fmap in Ho as (g & Hgk & Hg).
        apply (Hfree g Hg). congruence.
      * apply NoDup_singleton.
    + intros u Hu. apply elem_of_app in Hu as [Hu|Hu].
      * by apply earliest_in_bucket_app, Hearly.
      * apply list_elem_of_singleton in Hu as ->.
        exists (length seen). split.
        -- by rewrite lookup_app_r, Nat.sub_diag.
        -- intros j u Hj Hu Hsame. rewrite lookup_app_l in Hu by done.
           destruct (Hcov u) as (g & Hg & Hgu);
             [by eapply list_elem_of_lookup_2|].
           apply (Hfree g Hg). congruence.
    + intros u Hu. apply elem_of_app in Hu as [Hu|Hu].
      * destruct (Hcov u Hu) as (g & Hg & Hgu). exists g.
        split; [|done]. apply elem_of_app. by left.
      * apply list_elem_of_singleton in Hu as ->. exists f.
        split; [|done]. apply elem_of_app. right. apply list_elem_of_here.
    + intros k' v' Hv' Ht'. destruct (decide (k' = k)) as [->|Hne].
      * exists f. split; [|done]. apply elem_of_app. right. apply list_elem_of_here.
      * rewrite lookup_insert_ne, Hother in Hv' by done.
        destruct (Hflag k' v' Hv' Ht') as (g & Hg & Hgk). exists g.
        split; [|done]. apply elem_of_app. by left.
    + intros g Hg. apply elem_of_app in Hg as [Hg|Hg].
      * destruct (Hkept g Hg) as (k' & v' & Hk' & Hv' & Ht').
        exists k', v'. split; [done|]. split; [|done].
        assert (k' <> k) by (intros ->; by apply (Hfree g Hg)).
        by rewrite lookup_insert_ne, Hother.
      * apply list_elem_of_singleton in Hg as ->.
        exists k, (FlagStem (stem f)). split; [done|].
        split; [apply lookup_insert_eq|]. simpl. by eapply key_stem_nonempty.
Qed.

Lemma fast_loop_inv rest seen videos processed_ts videos' processed_ts' :
  fast_inv key seen videos processed_ts ->
  foldM (fast_step E) (videos, processed_ts) rest = Ok (videos', processed_ts') ->
  fast_inv key (seen ++ rest) videos' processed_ts'.
Proof.
  revert seen videos processed_ts.
  induction rest as [|f rest IH]; intros seen videos processed_ts Hinv; simpl.
  - intros [= <- <-]. by rewrite app_nil_r.
  - intros H. apply bind_Ok_inv in H as ([videos1 pts1] & Hstep & Hrest).
    rewrite (assoc_L _ seen [f] rest : seen ++ f :: rest = (seen ++ [f]) ++ rest).
    eapply IH; [|exact Hrest]. by eapply fast_step_inv.
Qed.

(** C6. In fast mode ([process_all] false) the list of videos is a
    subsequence of the enumeration that holds at most one video per bucket
    key [[cam] date:hour], read off the timestamp and the camera in the
    file name; a kept video is the earliest of its bucket in enumeration
    order, and every enumerated video has its bucket represented, so that
    exactly the later videos of a bucket are dropped. *)
Theorem fast_mode_one_per_bucket dataset videos :
  enumerate_videos E false dataset = Ok videos ->
  sublist videos dataset
  /\ NoDup (date_hour_key E <$> videos)
  /\ (forall v, v ∈ videos -> earliest_in_bucket (date_hour_key E) dataset v)
  /\ (forall u, u ∈ dataset ->
        exists v, v ∈ videos /\ date_hour_key E v = date_hour_key E u).
Proof.
  unfold enumerate_videos. intros H.
  apply bind_Ok_inv in H as ([videos' pts] & Hloop & [= <-]).
  destruct (fast_loop_inv dataset [] [] ∅ videos' pts fast_inv_init Hloop)
    as [Hsub Hnodup Hearly Hcov _ _].
  done.
Qed.

End Enumeration.

(** The demo enumeration: [video_b] shares the bucket of [video_a]. *)
Lemma fast_mode_one_per_bucket_witness :
  ProcessDataset.enumerate_videos Demo.E false Demo.dataset
  = Ok [Demo.video_a; Demo.video_c; Demo.video_d]
  /\ sublist [Demo.video_a; Demo.video_c; Demo.video_d] Demo.dataset
  /\ NoDup (ProcessDataset.date_hour_key Demo.E
              <$> [Demo.video_a; Demo.video_c; Demo.video_d])
  /\ (forall v, v ∈ [Demo.video_a; Demo.video_c; Demo.video_d] ->
        earliest_in_bucket (ProcessDataset.date_hour_key Demo.E) Demo.dataset v)
  /\ (forall u, u ∈ Demo.dataset ->
        exists v, v ∈ [Demo.video_a; Demo.video_c; Demo.video_d]
                  /\ ProcessDataset.date_hour_key Demo.E v
                     = ProcessDataset.date_hour_key Demo.E u).
Proof.
  split; [reflexivity|].
  apply (fast_mode_one_per_bucket Demo.E Demo.dataset). reflexivity.
Defined.

Section PerVideo.

Context {Model Device Frame : Type}.
Variable E : ProcessDataset.Collaborators Model Device Frame.
Variable models : gmap string Model.
Variable devices : gmap string Device.

Import ProcessDataset.

Lemma skip_processed_elem output videos v :
  v ∈ skip_processed E true output videos
  <-> v ∈ videos /\ isfile E (pkl_path output v) = false.
Proof.
  unfold skip_processed. rewrite !list_elem_of_In, filter_In.
  by rewrite negb_true_iff.
Qed.

Lemma skip_processed_idemp output videos :
  skip_processed E true output (skip_processed E true output videos)
  = skip_processed E true output videos.
Proof.
  unfold skip_processed. induction videos as [|v videos IH]; simpl; [done|].
  destruct (isfile E (pkl_path output v)) eqn:Hv; simpl; [done|].
  by rewrite Hv, IH.
Qed.

Lemma skip_processed_sublist output videos :
  sublist (skip_processed E true output videos) videos.
Proof.
  unfold skip_processed. induction videos as [|v videos IH]; simpl; [done|].
  destruct (negb _); by constructor.
Qed.

Lemma skip_processed_after_run output videos log v :
  v ∈ skip_processed (after_run E log) true output videos
  <-> v ∈ skip_processed E true output videos
      /\ pkl_path output v ∉ pickles_of log.
Proof.
  unfold skip_processed. rewrite !list_elem_of_In, !filter_In.
  cbn [isfile after_run].
  rewrite !negb_true_iff, orb_false_iff, bool_decide_eq_false.
  rewrite ?list_elem_of_In. tauto.
Qed.

(** C8. In per-video mode the videos to process are the enumerated videos
    whose per-video file [<output>/<stem>.pkl] does not exist, in their
    order; a video whose file exists is left out; filtering the remaining
    videos again changes nothing; the run is the run over the remaining
    videos alone; and on a disk that has since received the per-video files
    of a run, the videos to process are those of before whose file that run
    did not write. *)
Theorem per_video_skip dataset dataset_name model framework output
    process_all move_when_done max_workers videos :
  enumerate_videos E process_all dataset = Ok videos ->
  let todo := skip_processed E true output videos in
  (forall v, v ∈ todo <-> v ∈ videos /\ isfile E (pkl_path output v) = false)
  /\ sublist todo videos
  /\ skip_processed E true output todo = todo
  /\ (forall log v,
        v ∈ skip_processed (after_run E log) true output videos
        <-> v ∈ todo /\ pkl_path output v ∉ pickles_of log)
  /\ process_dataset E models devices dataset dataset_name model framework
                     output true process_all move_when_done max_workers
     = process_dataset E models devices todo dataset_name model framework
                       output true true move_when_done max_workers.
Proof.
  intros Hvideos todo.
  split; [apply skip_processed_elem|].
  split; [apply skip_processed_sublist|].
  split; [apply skip_processed_idemp|].
  split; [intros log v; apply skip_processed_after_run|].
  subst todo. unfold process_dataset. rewrite Hvideos.
  change (enumerate_videos E true ?d) with (@Ok (list string) d).
  rewrite !bindM_lift. by rewrite skip_processed_idemp.
Qed.

End PerVideo.

(** The per-video file of [video_a] exists: the run leaves [video_a] out. *)
Lemma per_video_skip_witness :
  ProcessDataset.skip_processed Demo.E_with_pickle true "out" Demo.dataset
  = [Demo.video_b; Demo.video_c; Demo.video_d]
  /\ let todo := ProcessDataset.skip_processed Demo.E_with_pickle true "out"
                   Demo.dataset in
     (forall v, v ∈ todo <->
                v ∈ Demo.dataset
                /\ ProcessDataset.isfile Demo.E_with_pickle
                     (ProcessDataset.pkl_path "out" v) = false)
     /\ sublist todo Demo.dataset
     /\ ProcessDataset.skip_processed Demo.E_with_pickle true "out" todo = todo
     /\ (forall log v,
           v ∈ ProcessDataset.skip_processed
                 (after_run Demo.E_with_pickle log) true "out" Demo.dataset
           <-> v ∈ todo /\ ProcessDataset.pkl_path "out" v ∉ pickles_of log)
     /\ ProcessDataset.process_dataset Demo.E_with_pickle Demo.models
          Demo.devices Demo.dataset "run" "edge" "tf" "out" true true
          (Some "done") 1
        = ProcessDataset.process_dataset Demo.E_with_pickle Demo.models
            Demo.devices todo "run" "edge" "tf" "out" true true
            (Some "done") 1.
Proof.
  split; [reflexivity|].
  apply (per_video_skip Demo.E_with_pickle Demo.models Demo.devices
           Demo.dataset "run" "edge" "tf" "out" true (Some "done") 1).
  reflexivity.
Defined.

(** The per-video files that run writes: none for [video_a], which is left
    out, and none for [video_d], which has no frame. *)
Example per_video_run_pickles :
  pickles_of
    (snd (ProcessDataset.process_dataset Demo.E_with_pickle Demo.models
            Demo.devices Demo.dataset "run" "edge" "tf" "out" true true
            (Some "done") 1))
  = ["out/2020-01-01T10:45:00.cam1.pkl"; "out/2020-01-01T11:05:00.cam1.pkl"].
Proof. vm_compute. reflexivity. Qed.

(** A second run on the disk the first run leaves: only [video_d], which
    has no frame and got no file, is processed again. *)
Example per_video_rerun :
  ProcessDataset.skip_processed
    (after_run Demo.E_with_pickle
       (snd (ProcessDataset.process_dataset Demo.E_with_pickle Demo.models
               Demo.devices Demo.dataset "run" "edge" "tf" "out" true true
               (Some "done") 1)))
    true "out" Demo.dataset
  = [Demo.video_d].
Proof. vm_compute. reflexivity. Qed.

(* ===================================================================== *)
(** ** The export validation *)
(* ===================================================================== *)

Module DatasetFacts.

Import Dataset.

Lemma float_le_trans a b c :
  float_le a b = true -> float_le b c = true -> float_le a c = true.
Proof.
  destruct a as [| |x|], b as [| |y|], c as [| |z|]; simpl; try done.
  rewrite !Qle_bool_iff. apply Qle_trans.
Qed.

Lemma float_lt_le a b : float_lt a b = true -> float_le a b = true.
Proof.
  destruct a as [| |x|], b as [| |y|]; simpl; try done.
  rewrite negb_true_iff. intros H. apply Qle_bool_iff, Qlt_le_weak, Qnot_le_lt.
  rewrite <- Qle_bool_iff. by rewrite H.
Qed.

Lemma float_lt_false a b :
  is_number a = true -> is_number b = true ->
  float_lt a b = false -> float_le b a = true.
Proof.
  destruct a as [| |x|], b as [| |y|]; simpl; try done.
  by rewrite negb_false_iff.
Qed.

Lemma float_le_not_lt a b : float_le a b = true -> float_lt b a = false.
Proof.
  destruct a as [| |x|], b as [| |y|]; simpl; try done.
  by intros ->.
Qed.

Lemma round64_pos_number a : is_number (round64_pos a) = true.
Proof. unfold round64_pos. by destruct (_ <=? _). Qed.

Lemma round64_number q : is_number (round64 q) = true.
Proof.
  unfold round64. destruct (Qcompare q (inject_Z 0)); [done| |].
  - pose proof (round64_pos_number (Qopp q)) as H.
    by destruct (round64_pos (Qopp q)).
  - apply round64_pos_number.
Qed.

(** The quotient of a number by an image size is a number. *)
Lemma over_number x size : is_number x = true -> is_number (over x size) = true.
Proof.
  unfold over, truediv. destruct x; try done. intros _. apply round64_number.
Qed.

Lemma fold_max_number xs x :
  Forall (fun c => is_number c = true) (x :: xs) ->
  is_number (fold_left (fun m y => if float_lt m y then y else m) xs x) = true.
Proof.
  revert x. induction xs as [|y xs IH]; intros x; simpl.
  - by inversion 1.
  - inversion 1 as [|? ? Hx Hrest]; subst. inversion Hrest; subst.
    apply IH. constructor; [|done]. by destruct (float_lt x y).
Qed.

Lemma fold_max_le bound xs x :
  Forall (fun c => is_number c = true) (x :: xs) ->
  float_le (fold_left (fun m y => if float_lt m y then y else m) xs x) bound
  = true
  <-> Forall (fun c => float_le c bound = true) (x :: xs).
Proof.
  revert x. induction xs as [|y xs IH]; intros x Hnum; simpl.
  - split; [by repeat constructor | by inversion 1].
  - inversion Hnum as [|? ? Hx Hrest]; subst.
    inversion Hrest as [|? ? Hy Hxs]; subst.
    rewrite IH by (constructor; [by destruct (float_lt x y) | done]).
    destruct (float_lt x y) eqn:Hxy.
    + apply float_lt_le in Hxy. split.
      * inversion 1 as [|? ? Hyb Hall]; subst.
        constructor; [|by constructor]. by eapply float_le_trans.
      * inversion 1 as [|? ? Hxb Hall]; subst. done.
    + apply float_lt_false in Hxy; [|done|done]. split.
      * inversion 1 as [|? ? Hxb Hall]; subst.
        constructor; [done|]. constructor; [|done].
        by eapply float_le_trans.
      * inversion 1 as [|? ? Hxb Hall]; subst.
        inversion Hall; subst. by constructor.
Qed.

Lemma fold_min_ge bound xs x :
  Forall (fun c => is_number c = true) (x :: xs) ->
  float_le bound (fold_left (fun m y => if float_lt y m then y else m) xs x)
  = true
  <-> Forall (fun c => float_le bound c = true) (x :: xs).
Proof.
  revert x. induction xs as [|y xs IH]; intros x Hnum; simpl.
  - split; [by repeat constructor | by inversion 1].
  - inversion Hnum as [|? ? Hx Hrest]; subst.
    inversion Hrest as [|? ? Hy Hxs]; subst.
    rewrite IH by (constructor; [by destruct (float_lt y x) | done]).
    destruct (float_lt y x) eqn:Hxy.
    + apply float_lt_le in Hxy. split.
      * inversion 1 as [|? ? Hyb Hall]; subst.
        constructor; [|by constructor]. by eapply float_le_trans.
      * inversion 1 as [|? ? Hxb Hall]; subst. done.
    + apply float_lt_false in Hxy; [|done|done]. split.
      * inversion 1 as [|? ? Hxb Hall]; subst.
        constructor; [done|]. constructor; [|done].
        by eapply float_le_trans.
      * inversion 1 as [|? ? Hxb Hall]; subst.
        inversion Hall; subst. by constructor.
Qed.

(** With every label in the map, the loop over the rows fills the columns
    with the normalised coordinates of the rows, in order. *)
Lemma add_rows_known w h id_map rows cols :
  (forall row, row ∈ rows -> is_Some (id_map !! class row)) ->
  exists cols',
    foldM (add_row w h id_map) cols rows = Ok cols'
    /\ xmins cols' = xmins cols ++ map (fun row => over (xmin row) w) rows
    /\ xmaxs cols' = xmaxs cols ++ map (fun row => over (xmax row) w) rows
    /\ ymins cols' = ymins cols ++ map (fun row => over (ymin row) h) rows
    /\ ymaxs cols' = ymaxs cols ++ map (fun row => over (ymax row) h) rows.
Proof.
  revert cols. induction rows as [|row rows IH]; intros cols Hknown; simpl.
  - exists cols. by rewrite !app_nil_r.
  - destruct (Hknown row) as [id Hid]; [apply list_elem_of_here|].
    unfold add_row at 2. rewrite Hid. simpl.
    edestruct IH as (cols' & Hrun & Hx & HX & Hy & HY).
    { intros r Hr. apply Hknown. by apply list_elem_of_further. }
    exists cols'. split; [exact Hrun|]. simpl in *.
    rewrite Hx, HX, Hy, HY, <- !app_assoc. done.
Qed.

Lemma coords_in_bounds w h rows :
  Forall (fun c => float_le c upper_bound = true)
         (map (fun row => over (xmin row) w) rows
          ++ map (fun row => over (xmax row) w) rows
          ++ map (fun row => over (ymin row) h) rows
          ++ map (fun row => over (ymax row) h) rows)
  /\ Forall (fun c => float_le lower_bound c = true)
            (map (fun row => over (xmin row) w) rows
             ++ map (fun row => over (xmax row) w) rows
             ++ map (fun row => over (ymin row) h) rows
             ++ map (fun row => over (ymax row) h) rows)
  <-> Forall (row_in_bounds w h) rows.
Proof.
  rewrite !Forall_app, !Forall_map. unfold row_in_bounds.
  induction rows as [|row rows IH].
  - split; [constructor | repeat split; constructor].
  - split.
    + intros [(Hx & HX & Hy & HY) (Lx & LX & Ly & LY)].
      inversion Hx; inversion HX; inversion Hy; inversion HY;
        inversion Lx; inversion LX; inversion Ly; inversion LY; subst.
      constructor; [by repeat constructor|]. apply IH. done.
    + inversion 1 as [|? ? Hrow Hrows]; subst.
      apply IH in Hrows as [(Hx & HX & Hy & HY) (Lx & LX & Ly & LY)].
      inversion Hrow as [|? ? [? ?] Hr1]; subst.
      inversion Hr1 as [|? ? [? ?] Hr2]; subst.
      inversion Hr2 as [|? ? [? ?] Hr3]; subst.
      inversion Hr3 as [|? ? [? ?] _]; subst.
      repeat split; by constructor.
Qed.

(** The normalised coordinates of rows of numbers are numbers. *)
Lemma coords_numbers w h rows :
  Forall row_numbers rows ->
  Forall (fun c => is_number c = true)
         (map (fun row => over (xmin row) w) rows
          ++ map (fun row => over (xmax row) w) rows
          ++ map (fun row => over (ymin row) h) rows
          ++ map (fun row => over (ymax row) h) rows).
Proof.
  intros Hrows. rewrite !Forall_app, !Forall_map.
  repeat split; (eapply Forall_impl; [exact Hrows|]); intros row Hrow;
    unfold row_numbers in Hrow;
    inversion Hrow as [|? ? H1 Hr1]; subst;
    inversion Hr1 as [|? ? H2 Hr2]; subst;
    inversion Hr2 as [|? ? H3 Hr3]; subst;
    inversion Hr3 as [|? ? H4 _]; subst;
    by apply over_number.
Qed.

Lemma insert_sorted_elem x s sorted :
  x ∈ insert_sorted s sorted -> x = s \/ x ∈ sorted.
Proof.
  induction sorted as [|t rest IH]; simpl.
  - intros H. apply list_elem_of_singleton in H. by left.
  - destruct (String.compare s t).
    + by right.
    + intros H. apply elem_of_cons in H as [->|H]; [by left | by right].
    + intros H. apply elem_of_cons in H as [->|H].
      * right. apply list_elem_of_here.
      * destruct (IH H) as [->|Hin]; [by left|].
        right. by apply list_elem_of_further.
Qed.

Lemma group_keys_elem name df : name ∈ group_keys df -> name ∈ map file df.
Proof.
  unfold group_keys. induction (map file df) as [|s names IH]; simpl.
  - done.
  - intros H. apply insert_sorted_elem in H as [->|H].
    + apply list_elem_of_here.
    + by apply list_elem_of_further, IH.
Qed.

(** A group of [_split_by_filename] holds at least one row. *)
Lemma group_nonempty df group :
  group ∈ split_by_filename df -> object group <> [].
Proof.
  unfold split_by_filename. intros H.
  apply list_elem_of_fmap in H as (name & -> & Hname). simpl.
  apply group_keys_elem, list_elem_of_fmap in Hname as (row & -> & Hrow).
  intros Hnil.
  assert (Hin : In row (List.filter (fun r => String.eqb (file r) (file row)) df)).
  { apply filter_In. split; [by apply list_elem_of_In | apply String.eqb_refl]. }
  by rewrite Hnil in Hin.
Qed.

End DatasetFacts.


Example split_by_filename_demo :
  Dataset.split_by_filename [Demo.row_120; Demo.row_105]
  = [Demo.group_a; Demo.group_b].
Proof. reflexivity. Qed.



Example export_105_passes :
  is_ok (Dataset.create_tf_example Demo.no_terminal Demo.images Demo.group_a
           "imgs" Demo.id_map)
  = true.
Proof. vm_compute. reflexivity. Qed.

(** A row with [xmax / width = 1.2] stops in the debugger: without a
    terminal the conversion ends with [BdbQuit], and with an operator who
    continues it ends on the assertion. *)
Example export_120_aborts :
  Dataset.create_tf_example Demo.no_terminal Demo.images Demo.group_b "imgs"
    Demo.id_map = Raise BdbQuit
  /\ Dataset.create_tf_example Demo.operator_continues Demo.images
       Demo.group_b "imgs" Demo.id_map = Raise AssertionError.
Proof. split; vm_compute; reflexivity. Qed.

(** The bound is the float 1.1, and the quotient is rounded: a row whose
    [xmax] is the float next above 110 passes on an image 100 wide, its
    quotient being the float 1.1, although 110.00000000000001 / 100 is
    above 11 / 10. *)
Example export_float_boundary :
  Dataset.over (Dataset.xmax Demo.row_110) 100 = Dataset.upper_bound
  /\ is_ok (Dataset.create_tf_example Demo.no_terminal Demo.images
              {| Dataset.filename := "a.jpg";
                 Dataset.object := [Demo.row_110] |}
              "imgs" Demo.id_map) = true.
Proof. split; vm_compute; reflexivity. Qed.

(** The conversion writes the record of the first image and stops at the
    second. *)
Example export_aborts_conversion :
  exists written,
    Dataset.generate_tfrecord Demo.operator_continues Demo.images "imgs"
      [Demo.row_120; Demo.row_105] Demo.id_map
    = (Raise AssertionError, [written]).
Proof. eexists. vm_compute. reflexivity. Qed.

(** A label that the map does not know stops the conversion before the
    validation, whatever the coordinates. *)
Example export_unknown_label :
  Dataset.create_tf_example Demo.no_terminal Demo.images Demo.group_a "imgs" ∅
  = Raise KeyError.
Proof. vm_compute. reflexivity. Qed.

(* ===================================================================== *)
(** ** The classification top-K *)
(* ===================================================================== *)

Section TopK.

Context {Model Device Frame : Type}.
Variable E : ProcessDataset.Collaborators Model Device Frame.

Import ProcessDataset.

(** Whatever [K] and the scores are, a result of [get_top_torch] holds the
    first two [index, score] pairs of the selection, one under each key. *)
Lemma get_top_torch_shape preds topn top :
  get_top_torch E preds topn = Ok top ->
  exists i0 s0 i1 s1, top = TopTorch [i0; s0] [i1; s1].
Proof.
  unfold get_top_torch. intros H.
  apply bind_Ok_inv in H as (part & _ & H).
  apply bind_Ok_inv in H as (results & Hresults & H).
  apply bind_Ok_inv in H as (r0 & Hr0 & H).
  apply bind_Ok_inv in H as (r1 & Hr1 & [= <-]).
  unfold index in Hr0, Hr1.
  destruct (results !! 0%nat) as [r0'|] eqn:H0; [|discriminate].
  destruct (results !! 1%nat) as [r1'|] eqn:H1; [|discriminate].
  injection Hr0 as ->. injection Hr1 as ->.
  assert (Hpair : forall i r, results !! i = Some r -> exists a b, r = [a; b]).
  { clear -Hresults. revert results Hresults.
    induction (slice_to part _) as [|idx idxs IH]; intros results; simpl.
    - intros [= <-] i r Hr. by rewrite lookup_nil in Hr.
    - intros Hres. apply bind_Ok_inv in Hres as (r' & Hr' & Hres).
      apply bind_Ok_inv in Hres as (rs & Hrs & [= <-]).
      apply bind_Ok_inv in Hr' as (p & _ & [= <-]).
      intros [|i] r; simpl; [intros [= <-]; eauto | by apply IH]. }
  destruct (Hpair _ _ H0) as (i0 & s0 & ->).
  destruct (Hpair _ _ H1) as (i1 & s1 & ->).
  eauto.
Qed.

End TopK.

(** C1 (the code departs from the claim). On twelve class scores,
    [0.01 * (i + 1)] at index [i], and K = 10, the ten highest scores are
    those of the indices 11 down to 2; [get_top_torch] returns the index 11
    and its score under the key [idxs] and the index 10 and its score under
    the key [scores], and the indices 2 to 9 nowhere: the result does not
    hold the K highest-scoring indices with their scores. *)
Theorem get_top_torch_two_entries :
  ProcessDataset.get_top_torch Demo.E (Demo.class_scores Demo.frame12) 10
  = Ok (TopTorch ["11"; "0.12"] ["10"; "0.11"])
  /\ highest_indices (Demo.class_scores Demo.frame12) 10
     = [11; 10; 9; 8; 7; 6; 5; 4; 3; 2]%nat
  /\ ~ top_k_contract (Demo.class_scores Demo.frame12) 10
                      (TopTorch ["11"; "0.12"] ["10"; "0.11"]).
Proof.
  split; [vm_compute; reflexivity|]. split; [vm_compute; reflexivity|].
  intros (selected & Hperm & Htop).
  apply Permutation_length in Hperm.
  injection Htop as Hidxs _. apply (f_equal length) in Hidxs.
  rewrite length_map in Hidxs.
  replace (length (highest_indices (Demo.class_scores Demo.frame12) 10))
    with 10%nat in Hperm by (vm_compute; reflexivity).
  simpl in Hidxs. lia.
Qed.

(** The selection itself is made around position 5, not [K]: with an
    [argpartition] that keeps its promise and no more, the ten selected
    indices hold 0, 1, 2 and 3, the four lowest scores, and miss 4 and 5. *)
Example argpartition_pivot_is_5 :
  let neg := map Qopp (Demo.class_scores Demo.frame12) in
  exists part,
    Demo.pivoting_argpartition neg 5 = Ok part
    /\ Demo.is_argpartition neg 5 part = true
    /\ slice_to part 10 = [11; 10; 9; 8; 7; 6; 0; 1; 2; 3]%nat.
Proof.
  eexists. split; [vm_compute; reflexivity|]. split; [|reflexivity].
  unfold Demo.is_argpartition. rewrite !andb_true_iff. split; [split|].
  - apply bool_decide_eq_true.
    change ([11; 10; 9; 8; 7; 6; 0; 1; 2; 3; 4; 5]%nat
            ≡ₚ [0; 1; 2; 3; 4; 5; 6; 7; 8; 9; 10; 11]%nat).
    solve_Permutation.
  - vm_compute. reflexivity.
  - vm_compute. reflexivity.
Qed.

Example get_top_torch_pivoting :
  ProcessDataset.get_top_torch Demo.E_pivoting
    (Demo.class_scores Demo.frame12) 10
  = Ok (TopTorch ["11"; "0.12"] ["10"; "0.11"]).
Proof. vm_compute. reflexivity. Qed.

(** The detection sibling returns lists of up to [K] entries under each
    key. *)
Example get_top_tf_demo :
  ProcessDataset.get_top_tf (Demo.detections_of Demo.frame2) 10
  = TopTf [[Qmake 1 4; Qmake 1 4; Qmake 1 2; Qmake 1 2];
           [Qmake 0 1; Qmake 0 1; Qmake 1 1; Qmake 1 1]]
          [Qmake 9 10; Qmake 1 8] [3; 1].
Proof. reflexivity. Qed.

(** [process_video] cannot read what [get_top_torch] returns: the entries
    under [scores] are strings, which the format [.3f] refuses. *)
Example torch_video_raises :
  ProcessDataset.process_video Demo.E Demo.video_e "mobilenet" "cpu" "torch" None
  = (Raise ValueError, []).
Proof. vm_compute. reflexivity. Qed.

(* ===================================================================== *)
(** ** More on the per-video runner *)
(* ===================================================================== *)

Lemma mapM_o_pure {A B} (f : A -> outcome B) (g : A -> B) xs :
  (forall x, x ∈ xs -> f x = Ok (g x)) -> mapM_o f xs = Ok (map g xs).
Proof.
  induction xs as [|x xs IH]; intros Hf; simpl; [done|].
  rewrite (Hf x) by apply list_elem_of_here. simpl.
  rewrite IH; [done|]. intros y Hy. apply Hf. by apply list_elem_of_further.
Qed.

Lemma enumerate_map {A B} (f : A -> B) (xs : list A) :
  enumerate (map f xs) = map (fun '(i, x) => (i, f x)) (enumerate xs).
Proof.
  unfold enumerate. rewrite length_map.
  generalize 0%nat. induction xs as [|x xs IH]; intros start; simpl; [done|].
  by rewrite IH.
Qed.

Lemma enumerate_elem {A} (xs : list A) i x :
  (i, x) ∈ enumerate xs -> xs !! i = Some x.
Proof.
  intros H. apply list_elem_of_lookup in H as [j Hj].
  by apply enumerate_lookup_inv in Hj as [-> Hx].
Qed.

Section RunnerMore.

Context {Model Device Frame : Type}.
Variable E : ProcessDataset.Collaborators Model Device Frame.

Import ProcessDataset.

(** X1. Whenever [get_top_torch] returns, the selection [part[:topn]] (with
    [topn] lowered to the number of scores) starts with two indices [i0] and
    [i1], and the result is the pair of [i0] and its score under [idxs] and
    the pair of [i1] and its score under [scores]; the rest of the
    selection is not in the result. *)
Theorem get_top_torch_first_two preds topn top :
  get_top_torch E preds topn = Ok top ->
  exists part i0 i1 rest p0 p1,
    argpartition E (map Qopp preds) 5 = Ok part
    /\ slice_to part (if len preds <? topn then len preds else topn)
       = i0 :: i1 :: rest
    /\ preds !! i0 = Some p0
    /\ preds !! i1 = Some p1
    /\ top = TopTorch [pretty i0; format_f 2 p0] [pretty i1; format_f 2 p1].
Proof.
  unfold get_top_torch. intros H.
  apply bind_Ok_inv in H as (part & Hpart & H).
  apply bind_Ok_inv in H as (results & Hresults & H).
  apply bind_Ok_inv in H as (r0 & Hr0 & H).
  apply bind_Ok_inv in H as (r1 & Hr1 & [= <-]).
  exists part.
  destruct (slice_to part _) as [|i0 [|i1 rest]] eqn:Hsel; simpl in Hresults.
  - injection Hresults as <-. discriminate.
  - apply bind_Ok_inv in Hresults as (x0 & _ & [= <-]). discriminate.
  - apply bind_Ok_inv in Hresults as (x0 & Hx0 & Hresults).
    apply bind_Ok_inv in Hresults as (xs & Hxs & [= <-]).
    apply bind_Ok_inv in Hxs as (x1 & Hx1 & Hxs).
    apply bind_Ok_inv in Hxs as (xs' & _ & [= <-]).
    apply bind_Ok_inv in Hx0 as (p0 & Hp0 & [= <-]).
    apply bind_Ok_inv in Hx1 as (p1 & Hp1 & [= <-]).
    injection Hr0 as <-. injection Hr1 as <-.
    unfold index in Hp0, Hp1.
    destruct (preds !! i0) as [p0'|] eqn:Hl0; [injection Hp0 as ->|discriminate].
    destruct (preds !! i1) as [p1'|] eqn:Hl1; [injection Hp1 as ->|discriminate].
    exists i0, i1, rest, p0, p1. done.
Qed.

(** X2. A top-1 (or a top-0) cannot be asked of [get_top_torch]: when the
    partition returns indices of the score vector and [topn] is 0 or 1, the
    selection has fewer than two entries and building the result raises
    [IndexError]. *)
Theorem get_top_torch_needs_two preds topn part :
  argpartition E (map Qopp preds) 5 = Ok part ->
  Forall (fun idx => (idx < length preds)%nat) part ->
  0 <= topn <= 1 ->
  get_top_torch E preds topn = Raise IndexError.
Proof.
  intros Hpart Hrange Htopn. unfold get_top_torch. rewrite Hpart.
  cbn [mbind outcome_bind].
  set (n := if len preds <? topn then len preds else topn).
  assert (Hn : 0 <= n <= 1).
  { subst n. destruct (Z.ltb_spec (len preds) topn); unfold len in *; lia. }
  unfold slice_to. destruct (Z.leb_spec 0 n) as [_|?]; [|lia].
  assert (Hsel : exists sel, take (Z.to_nat n) part = sel
                             /\ (length sel <= 1)%nat
                             /\ Forall (fun idx => (idx < length preds)%nat) sel).
  { eexists. split; [reflexivity|]. split.
    - rewrite length_take. lia.
    - by apply Forall_take. }
  destruct Hsel as (sel & -> & Hlen & Hsel).
  destruct sel as [|i0 [|i1 sel]].
  - reflexivity.
  - inversion Hsel as [|? ? Hi0 _]; subst.
    destruct (preds !! i0) as [p0|] eqn:Hp0;
      [|apply lookup_ge_None in Hp0; lia].
    cbn [mapM_o]. unfold index. rewrite Hp0. reflexivity.
  - simpl in Hlen. lia.
Qed.

(** X3. [process_video] never returns under the framework [torch] for a
    video with a frame, and writes no file: if [get_top_torch] has not
    raised already, reading [d['boxes']] raises [KeyError] in per-video
    mode, and formatting the entries under [scores] raises [ValueError]
    otherwise. *)
Theorem torch_video_never_returns filename (m : Model) (d : Device) output :
  VideoCapture E filename <> [] ->
  exists e,
    process_video E filename m d "torch" output = (Raise e, [])
    /\ (is_ok (infer_video E filename m d "torch") = true ->
        e = match output with Some _ => KeyError | None => ValueError end).
Proof.
  intros Hframes. unfold process_video. rewrite bindM_lift.
  destruct (infer_video E filename m d "torch") as [[data shape]|e] eqn:Hinfer;
    [|by exists e].
  pose proof (infer_video_frames E _ _ _ _ _ _ Hinfer) as Hlen.
  unfold infer_video in Hinfer.
  apply bind_Ok_inv in Hinfer as (data' & Hdata & [= <- _]).
  destruct (VideoCapture E filename) as [|frame frames]; [done|].
  simpl in Hdata.
  apply bind_Ok_inv in Hdata as (d0 & Hd0 & Hdata).
  apply bind_Ok_inv in Hdata as (rest & _ & [= <-]).
  apply get_top_torch_shape in Hd0 as (i0 & s0 & i1 & s1 & ->).
  destruct output as [out|].
  - exists KeyError. split; [|done].
    replace (0 <? len (TopTorch [i0; s0] [i1; s1] :: rest)) with true
      by (symmetry; apply Z.ltb_lt; unfold len; simpl; lia).
    by rewrite bindM_lift.
  - exists ValueError. split; [|done].
    cbn [bindM retM]. by rewrite bindM_lift.
Qed.

(** The frames of a video under a detection model. *)
Lemma infer_video_detection filename (m : Model) (d : Device) framework :
  framework <> "torch" ->
  infer_video E filename m d framework
  = Ok (map (fun frame => get_top_tf (infer_tf E m frame d) 10)
            (VideoCapture E filename),
        match VideoCapture E filename with
        | frame :: _ => frame_shape E frame
        | [] => [0; 0]
        end).
Proof.
  intros Hfw. apply String.eqb_neq in Hfw. unfold infer_video. rewrite Hfw.
  by rewrite (mapM_o_pure _ (fun frame => get_top_tf (infer_tf E m frame d) 10)).
Qed.

(** The rows [process_video] makes of the data of a detection model. *)
Lemma detection_rows_of_data filename (m : Model) (d : Device) :
  let data := map (fun frame => get_top_tf (infer_tf E m frame d) 10)
                  (VideoCapture E filename) in
  (do scores <- lift (mapM_o (fun p => ss ← top_scores_3f p; Ok (join "," ss))
                             data);
   lift (mapM_o (fun '(i, s) =>
                   c ← index (map (fun p => join "," (top_idxs_str p)) data) i;
                   Ok (i, s, c))
                (enumerate scores)))
  = (Ok (detection_rows E m filename), []).
Proof.
  intros data.
  rewrite (mapM_o_pure _ (fun p => join "," (match p with
                                             | TopTorch _ _ => []
                                             | TopTf _ scores _ =>
                                                 map (format_f 3) scores
                                             end))).
  2: { intros p Hp. subst data. apply list_elem_of_fmap in Hp as (frame & -> & _).
       reflexivity. }
  rewrite bindM_lift.
  set (classes := map (fun p => join "," (top_idxs_str p)) data).
  set (scores := map _ data).
  rewrite (mapM_o_pure _ (fun '(i, s) => (i, s, default "" (classes !! i)))).
  2: { intros [i s] His. apply enumerate_elem in His.
       assert (Hi : (i < length classes)%nat).
       { apply lookup_lt_Some in His. subst scores classes.
         by rewrite length_map in *. }
       apply lookup_lt_is_Some in Hi as [c Hc]. unfold index. by rewrite Hc. }
  unfold lift, detection_rows. f_equal. f_equal.
  subst scores classes data. rewrite !enumerate_map, !map_map.
  apply map_ext_in. intros [i frame] Hi.
  apply list_elem_of_In, enumerate_elem in Hi.
  rewrite !list_lookup_fmap, Hi. done.
Qed.

(** X4. For a detection model (any framework but [torch]) and no per-video
    file, [process_video] always returns, writes nothing, and gives one row
    per decoded frame: the frame number, the first ten scores with three
    decimals joined by commas, and the first ten class ids, truncated to
    integers, joined by commas. *)
Theorem detection_video_rows filename (m : Model) (d : Device) framework :
  framework <> "torch" ->
  process_video E filename m d framework None
  = (Ok (map (fun '(i, frame) =>
                (i, tf_scores_str (run_detector E m frame),
                    tf_classes_str (run_detector E m frame)))
             (enumerate (VideoCapture E filename))),
     []).
Proof.
  intros Hfw. unfold process_video.
  rewrite (infer_video_detection filename m d framework Hfw), bindM_lift.
  cbn [bindM retM].
  pose proof (detection_rows_of_data filename m d) as Hrows.
  cbv zeta in Hrows. rewrite Hrows. reflexivity.
Qed.

End RunnerMore.

(** On the twelve class scores of the demo frame, K = 10. *)
Lemma get_top_torch_first_two_witness :
  exists part i0 i1 rest p0 p1,
    ProcessDataset.argpartition Demo.E
      (map Qopp (Demo.class_scores Demo.frame12)) 5 = Ok part
    /\ slice_to part
         (if len (Demo.class_scores Demo.frame12) <? 10
          then len (Demo.class_scores Demo.frame12) else 10)
       = i0 :: i1 :: rest
    /\ Demo.class_scores Demo.frame12 !! i0 = Some p0
    /\ Demo.class_scores Demo.frame12 !! i1 = Some p1
    /\ TopTorch ["11"; "0.12"] ["10"; "0.11"]
       = TopTorch [pretty i0; format_f 2 p0] [pretty i1; format_f 2 p1].
Proof.
  apply (get_top_torch_first_two Demo.E (Demo.class_scores Demo.frame12) 10).
  vm_compute. reflexivity.
Defined.

(** On the same scores, K = 1. *)
Lemma get_top_torch_needs_two_witness :
  ProcessDataset.get_top_torch Demo.E (Demo.class_scores Demo.frame12) 1
  = Raise IndexError.
Proof.
  apply (get_top_torch_needs_two Demo.E (Demo.class_scores Demo.frame12) 1
           (Demo.argsort (map Qopp (Demo.class_scores Demo.frame12)))).
  - vm_compute. reflexivity.
  - vm_compute. repeat constructor.
  - lia.
Defined.

(** [video_e] has one frame. *)
Lemma torch_video_never_returns_witness :
  exists e,
    ProcessDataset.process_video Demo.E Demo.video_e "mobilenet" "cpu" "torch"
      (Some "out") = (Raise e, [])
    /\ (is_ok (ProcessDataset.infer_video Demo.E Demo.video_e "mobilenet" "cpu"
                 "torch") = true ->
        e = KeyError).
Proof.
  apply (torch_video_never_returns Demo.E Demo.video_e "mobilenet" "cpu"
           (Some "out")).
  vm_compute. discriminate.
Defined.

(** [video_b] has one frame, with two detections. *)
Lemma detection_video_rows_witness :
  ProcessDataset.process_video Demo.E Demo.video_b "mobilenet" "cpu" "tf" None
  = (Ok (map (fun '(i, frame) =>
                (i, tf_scores_str (ProcessDataset.run_detector Demo.E
                                     "mobilenet" frame),
                    tf_classes_str (ProcessDataset.run_detector Demo.E
                                      "mobilenet" frame)))
             (enumerate (ProcessDataset.VideoCapture Demo.E Demo.video_b))),
     []).
Proof.
  apply (detection_video_rows Demo.E Demo.video_b "mobilenet" "cpu" "tf").
  discriminate.
Defined.

Example detection_video_rows_demo :
  ProcessDataset.process_video Demo.E Demo.video_b "mobilenet" "cpu" "tf" None
  = (Ok [(0%nat, "0.900,0.125", "3,1")], []).
Proof. vm_compute. reflexivity. Qed.

(* ===================================================================== *)
(** ** More on the coordinator: what a run writes and moves *)
(* ===================================================================== *)

Lemma checkpoint_tables_app l1 l2 :
  checkpoint_tables (l1 ++ l2) = checkpoint_tables l1 ++ checkpoint_tables l2.
Proof.
  induction l1 as [|[p df|[idx|] tbl|src dst] l1 IH]; simpl; congruence.
Qed.

Lemma final_tables_app l1 l2 :
  final_tables (l1 ++ l2) = final_tables l1 ++ final_tables l2.
Proof.
  induction l1 as [|[p df|[idx|] tbl|src dst] l1 IH]; simpl; congruence.
Qed.

Lemma last_table_app table ts1 ts2 :
  last_table table (ts1 ++ ts2) = last_table (last_table table ts1) ts2.
Proof.
  unfold last_table. destruct ts2 as [|t ts2 _] using rev_ind.
  - by rewrite app_nil_r.
  - by rewrite app_assoc, !last_snoc.
Qed.

Lemma growing_app table ts1 ts2 :
  growing table (ts1 ++ ts2)
  <-> growing table ts1 /\ growing (last_table table ts1) ts2.
Proof.
  revert table. induction ts1 as [|t ts1 IH]; intros table; simpl.
  - unfold last_table. simpl. tauto.
  - rewrite IH.
    replace (last_table table (t :: ts1)) with (last_table t ts1); [tauto|].
    unfold last_table. rewrite last_cons. by destruct (last ts1).
Qed.

Section Effects.

Context {Model Device Frame : Type}.
Variable E : ProcessDataset.Collaborators Model Device Frame.
Variable models : gmap string Model.
Variable devices : gmap string Device.
Variable model : string.
Variable move_when_done : option string.
Variable max_workers previous : Z.

Import ProcessDataset.

#[local] Arguments process_chunk : simpl never.

Local Abbreviation task := (process_video_parallel E models devices).
Local Abbreviation wave := (process_chunk E models devices model move_when_done
                                          max_workers previous).

Lemma task_events q :
  Forall (fun ev => exists out df,
            snd q = Some out
            /\ ev = ToPickle (pkl_path out (filename_of q)) df
            /\ VideoCapture E (filename_of q) <> [])
         (snd (task q)).
Proof.
  destruct q as [[[fn mo] fw] output]. simpl.
  destruct (models !! mo) as [m|]; [|constructor].
  destruct (devices !! mo) as [d|]; [|constructor].
  destruct (process_video_log E fn m d fw output)
    as [->|(out & df & -> & Hframes & ->)]; [constructor|].
  constructor; [|constructor]. eauto.
Qed.

Lemma tasks_events chunk sub :
  sub ⊆ chunk ->
  forall ckpt,
    Forall (wave_event E move_when_done ckpt chunk)
           (flat_map (fun q => snd (task q)) sub).
Proof.
  intros Hsub ckpt. induction sub as [|q sub IH]; simpl; [constructor|].
  apply Forall_app. split.
  - eapply Forall_impl; [apply task_events|]. simpl.
    intros ev (out & df & Hout & -> & Hframes). simpl.
    exists q, out. split; [|done]. apply Hsub, list_elem_of_here.
  - apply IH. intros x Hx. apply Hsub. by apply list_elem_of_further.
Qed.

Lemma collect_all_events chunk ckpt items st :
  Forall (fun ev => exists table, ev = ToCsv (TmpCsv ckpt) table)
         (snd (foldM_M (collect E model chunk ckpt) st items)).
Proof.
  revert st. induction items as [|item items IH]; intros st; simpl;
    [constructor|].
  assert (Hfirst : Forall (fun ev => exists table, ev = ToCsv (TmpCsv ckpt) table)
                          (snd (collect E model chunk ckpt st item))).
  { destruct (collect_log E model chunk ckpt st item) as [->|[table ->]];
      [constructor|]. constructor; [eauto|constructor]. }
  match goal with
  | |- context [bindM ?m ?f] => destruct (bindM_snd m f) as [->|(a & _ & ->)]
  end; [done|].
  apply Forall_app. split; [done|apply IH].
Qed.

Lemma count_completion_events st f :
  filename st = Some f ->
  snd (count_completion E models move_when_done st) = []
  \/ exists target,
       move_when_done = Some target
       /\ default 0 (videos_processed st !! f) + 1 = Z.of_nat (size models)
       /\ snd (count_completion E models move_when_done st) = [Move f target].
Proof.
  intros Hf. unfold count_completion. rewrite Hf, bindM_lift.
  destruct move_when_done as [target|]; cbv zeta; [|by left].
  destruct (Z.eqb_spec (default 0 (videos_processed st !! f) + 1)
                       (Z.of_nat (size models))) as [Heq|Hne]; [|by left].
  rewrite bindM_lift.
  destruct (shutil_move E f target) as [[]|e]; [|by left].
  right. eauto.
Qed.

(** Every file effect of a wave is one of the three a wave can have. *)
Lemma process_chunk_events st k chunk :
  chunk <> [] ->
  Forall (wave_event E move_when_done (Z.of_nat k + previous) chunk)
         (snd (wave st (k, chunk))).
Proof.
  intros Hne. unfold process_chunk.
  destruct (max_workers <=? 0); [constructor|].
  rewrite executor_map_run. unfold bindM at 1.
  destruct (bindM _ _) as [r log'] eqn:Hinner. simpl.
  apply Forall_app. split.
  { apply tasks_events. intros q. apply tasks_run_elem. }
  apply (f_equal snd) in Hinner. simpl in Hinner. subst log'.
  assert (Hcsv : forall st0 items,
             Forall (wave_event E move_when_done (Z.of_nat k + previous) chunk)
                    (snd (foldM_M (collect E model chunk (Z.of_nat k + previous))
                                  st0 items))).
  { intros st0 items. eapply Forall_impl; [apply collect_all_events|].
    simpl. by intros ev [table ->]. }
  match goal with
  | |- context [bindM ?m ?f] => destruct (bindM_snd m f) as [->|(a & Ha & ->)]
  end; [apply Hcsv|].
  apply Forall_app. split; [apply Hcsv|].
  destruct (foldM_M _ _ _) as [r1 log1] eqn:Hfold. simpl in Ha. subst r1.
  apply collect_all_Ok in Hfold as (_ & _ & Hlast & _).
  destruct (enumerate_last (map (fun q => fst (task q)) chunk))
    as (future & Hlast_item & _); [by destruct chunk|].
  apply Hlast in Hlast_item as (q & Hq & Hname).
  rewrite length_map, <- last_lookup in Hq.
  destruct (count_completion_events a _ Hname)
    as [->|(target & Htarget & _ & ->)]; [constructor|].
  constructor; [|constructor]. simpl. eauto.
Qed.

Lemma waves_events items st :
  (forall k chunk, (k, chunk) ∈ items -> chunk <> []) ->
  Forall (fun ev => exists k chunk,
            (k, chunk) ∈ items
            /\ wave_event E move_when_done (Z.of_nat k + previous) chunk ev)
         (snd (foldM_M wave st items)).
Proof.
  revert st. induction items as [|[k chunk] items IH]; intros st Hne; simpl;
    [constructor|].
  assert (Hfirst : Forall (fun ev => exists k' chunk',
                             (k', chunk') ∈ (k, chunk) :: items
                             /\ wave_event E move_when_done
                                           (Z.of_nat k' + previous) chunk' ev)
                          (snd (wave st (k, chunk)))).
  { eapply Forall_impl; [apply process_chunk_events|].
    - apply (Hne k). apply list_elem_of_here.
    - simpl. intros ev Hev. exists k, chunk. split; [apply list_elem_of_here|done]. }
  match goal with
  | |- context [bindM ?m ?f] => destruct (bindM_snd m f) as [->|(a & _ & ->)]
  end; [done|].
  apply Forall_app. split; [done|].
  eapply Forall_impl; [apply IH|].
  - intros k' chunk' Hin. apply (Hne k'). by apply list_elem_of_further.
  - simpl. intros ev (k' & chunk' & Hin & Hev). exists k', chunk'.
    split; [by apply list_elem_of_further | done].
Qed.

Lemma tracks_bind table (m : M LoopState) (f : LoopState -> M LoopState) :
  tracks table m ->
  (forall st, fst m = Ok st -> tracks (detections st) (f st)) ->
  tracks table (bindM m f).
Proof.
  unfold tracks. intros [Hgrow Hlast] Hf. unfold bindM.
  destruct m as [[a|e] log]; simpl in *; [|by split].
  specialize (Hf a eq_refl). specialize (Hlast a eq_refl).
  destruct (f a) as [r log2]. destruct Hf as [Hgrow2 Hlast2]. simpl in *.
  rewrite checkpoint_tables_app. split.
  - apply growing_app. split; [done|]. by rewrite <- Hlast.
  - intros st Hst. rewrite last_table_app, <- Hlast. by apply Hlast2.
Qed.

Lemma collect_tracks chunk ckpt st item :
  tracks (detections st) (collect E model chunk ckpt st item).
Proof.
  destruct item as [r_idx future].
  destruct (collect E model chunk ckpt st (r_idx, future)) as [[st'|e] log]
    eqn:Hrun.
  - apply collect_Ok in Hrun
      as (r & q & _ & _ & _ & _ & [(_ & Hsame & ->)|(Hr & Hnew & ->)]).
    + split; [done|]. simpl. by intros st0 [= <-].
    + destruct Hnew as (ts & c & d & h & mi & Hnew). split.
      * simpl. split; [|done]. eexists. split; [|exact Hnew].
        unfold rows_of. destruct r; [done|]. done.
      * simpl. by intros st0 [= <-].
  - assert (Hlog : log = []).
    { destruct (collect_log E model chunk ckpt st (r_idx, future))
        as [H|[table H]]; rewrite Hrun in H; simpl in H; [done|].
      subst log. exfalso. revert Hrun. unfold collect.
      rewrite bindM_lift. destruct future as [r|]; [|discriminate].
      rewrite bindM_lift. unfold index.
      destruct (chunk !! r_idx) as [[[[fn m] fw] out]|]; [|discriminate].
      destruct (len r =? 0); [discriminate|].
      rewrite bindM_lift.
      destruct (split_on "." (stem fn) !! 0%nat); [|discriminate].
      rewrite bindM_lift.
      destruct (split_on "." (stem fn) !! 1%nat); [|discriminate].
      rewrite bindM_lift.
      destruct (split_date E _) as [[[? ?] ?]|]; discriminate. }
    subst log. split; [done|]. simpl. discriminate.
Qed.

Lemma collect_all_tracks chunk ckpt items st :
  tracks (detections st) (foldM_M (collect E model chunk ckpt) st items).
Proof.
  revert st. induction items as [|item items IH]; intros st; simpl.
  - split; [done|]. simpl. by intros st0 [= <-].
  - apply tracks_bind; [apply collect_tracks|]. intros st1 _. apply IH.
Qed.

Lemma count_completion_tracks st :
  tracks (detections st) (count_completion E models move_when_done st).
Proof.
  split.
  - assert (Hnone : checkpoint_tables
                      (snd (count_completion E models move_when_done st)) = []).
    { unfold count_completion. rewrite bindM_lift.
      destruct (filename st) as [f|]; [|done].
      destruct move_when_done as [target|]; cbv zeta; [|done].
      destruct (_ =? _); [|done]. rewrite bindM_lift.
      by destruct (shutil_move E f target) as [[]|e]. }
    by rewrite Hnone.
  - intros st' Hst'.
    destruct (count_completion E models move_when_done st) as [r log] eqn:Hrun.
    simpl in Hst'. subst r.
    pose proof Hrun as Hrun'.
    apply count_completion_Ok in Hrun as (f & _ & -> & _ & Hcase).
    simpl in Hcase.
    destruct move_when_done as [target|].
    + destruct (_ =? _); destruct Hcase as [_ ->]; done.
    + destruct Hcase as [_ ->]. done.
Qed.

Lemma tasks_tables chunk :
  checkpoint_tables (flat_map (fun q => snd (task q)) chunk) = [].
Proof.
  induction chunk as [|q chunk IH]; simpl; [done|].
  rewrite checkpoint_tables_app, IH, app_nil_r.
  pose proof (task_events q) as Hq.
  induction Hq as [|ev evs (out & df & _ & -> & _) _ IHq]; [done|]. done.
Qed.

Lemma process_chunk_tracks st item :
  tracks (detections st) (wave st item).
Proof.
  destruct item as [k chunk]. unfold process_chunk.
  destruct (max_workers <=? 0); [split; [done|discriminate]|].
  rewrite executor_map_run. unfold bindM at 1.
  set (inner := bindM _ _).
  assert (Hinner : tracks (detections st) inner).
  { subst inner. apply tracks_bind; [apply collect_all_tracks|].
    intros st1 _. apply count_completion_tracks. }
  destruct inner as [r log']. destruct Hinner as [Hgrow Hlast]. simpl in *.
  split; simpl; rewrite checkpoint_tables_app, tasks_tables; done.
Qed.

Lemma waves_tracks items st :
  tracks (detections st) (foldM_M wave st items).
Proof.
  revert st. induction items as [|item items IH]; intros st; simpl.
  - split; [done|]. simpl. by intros st0 [= <-].
  - apply tracks_bind; [apply process_chunk_tracks|]. intros st1 _. apply IH.
Qed.

(** The moves of a wave: none unless the new count of the last video is the
    number of models. *)
Lemma process_chunk_moves st k chunk q :
  last chunk = Some q ->
  moves_of (snd (wave st (k, chunk))) = []
  \/ default 0 (videos_processed st !! filename_of q) + 1
     = Z.of_nat (size models).
Proof.
  intros Hq. unfold process_chunk.
  destruct (max_workers <=? 0); [by left|].
  rewrite executor_map_run. unfold bindM at 1.
  destruct (bindM _ _) as [r log'] eqn:Hinner. simpl.
  rewrite moves_of_app, (proj2 (tasks_log E models devices _)). simpl.
  apply (f_equal snd) in Hinner. simpl in Hinner. subst log'.
  destruct (collect_all_log E model chunk (Z.of_nat k + previous)
              (enumerate (map (fun q => fst (task q)) chunk)) st)
    as (c & _ & Hquiet).
  match goal with
  | |- context [bindM ?m ?f] => destruct (bindM_snd m f) as [->|(a & Ha & ->)]
  end; [by left|].
  rewrite moves_of_app, Hquiet. simpl.
  destruct (foldM_M _ _ _) as [r1 log1] eqn:Hfold. simpl in Ha. subst r1.
  apply collect_all_Ok in Hfold as (Hsame & _ & Hlast & _).
  destruct (enumerate_last (map (fun q => fst (task q)) chunk))
    as (future & Hlast_item & _); [by destruct chunk|].
  apply Hlast in Hlast_item as (q' & Hq' & Hname).
  rewrite length_map, <- last_lookup in Hq'.
  assert (q' = q) as -> by congruence.
  destruct (count_completion_events a _ Hname)
    as [->|(target & _ & Hcount & _)]; [by left|].
  right. by rewrite <- Hsame.
Qed.

Lemma last_videos_cons chunk cs q :
  last chunk = Some q ->
  last_videos (chunk :: cs) = filename_of q :: last_videos cs.
Proof. intros Hq. unfold last_videos. simpl. by rewrite Hq. Qed.

Lemma last_is_Some {A} (l : list A) : l <> [] -> exists x, last l = Some x.
Proof.
  intros Hne. destruct (last l) as [x|] eqn:Hl; [eauto|].
  by apply last_None in Hl.
Qed.

(** With two models or more and the last videos of the waves all different
    and not counted yet, no wave moves a file. *)
Lemma waves_no_move items st :
  (2 <= size models)%nat ->
  (forall k chunk, (k, chunk) ∈ items -> chunk <> []) ->
  NoDup (last_videos items.*2) ->
  (forall v, v ∈ last_videos items.*2 -> videos_processed st !! v = None) ->
  moves_of (snd (foldM_M wave st items)) = [].
Proof.
  intros Hsize. revert st.
  induction items as [|[k chunk] items IH]; intros st Hne Hnodup Hfresh;
    [done|].
  destruct (last_is_Some chunk) as [q Hq];
    [apply (Hne k), list_elem_of_here|].
  change (((k, chunk) :: items).*2) with (chunk :: items.*2) in *.
  rewrite (last_videos_cons _ _ _ Hq) in Hnodup, Hfresh.
  apply NoDup_cons in Hnodup as [Hnew Hnodup].
  assert (Hquiet : moves_of (snd (wave st (k, chunk))) = []).
  { destruct (process_chunk_moves st k chunk q Hq) as [H|H]; [done|].
    rewrite (Hfresh (filename_of q)) in H by apply list_elem_of_here.
    simpl in H. lia. }
  cbn [foldM_M].
  match goal with
  | |- context [bindM ?m ?f] => destruct (bindM_snd m f) as [->|(a & Ha & ->)]
  end; [done|].
  rewrite moves_of_app, Hquiet. simpl.
  apply IH; [|done|].
  - intros k' chunk' Hin. apply (Hne k'). by apply list_elem_of_further.
  - intros v Hv.
    destruct (wave st (k, chunk)) as [r log] eqn:Hwave. simpl in Ha. subst r.
    apply process_chunk_Ok in Hwave as [_ Hcount].
    destruct Hcount as (q' & Hq' & Hcount);
      [apply (Hne k), list_elem_of_here|].
    assert (q' = q) as -> by congruence. cbv zeta in Hcount.
    rewrite (Hfresh (filename_of q)) in Hcount by apply list_elem_of_here.
    change (default 0 None + 1) with 1 in Hcount.
    assert (Hvp : videos_processed a
                  = <[filename_of q := 1]> (videos_processed st)).
    { revert Hcount. destruct move_when_done as [target|].
      - destruct (Z.eqb_spec 1 (Z.of_nat (size models))); [lia|]. by intros [? _].
      - by intros [? _]. }
    rewrite Hvp, lookup_insert_ne.
    + apply Hfresh. by apply list_elem_of_further.
    + intros <-. done.
Qed.

(** With one model and a target, every wave moves its last video and
    leaves the counters empty. *)
Lemma waves_single_model target items st st' log :
  size models = 1%nat ->
  move_when_done = Some target ->
  (forall k chunk, (k, chunk) ∈ items -> chunk <> []) ->
  videos_processed st = ∅ ->
  foldM_M wave st items = (Ok st', log) ->
  moves_of log = map (fun v => (v, target)) (last_videos items.*2)
  /\ videos_processed st' = ∅.
Proof.
  intros Hsize Htarget. revert st log.
  induction items as [|[k chunk] items IH]; intros st log Hne Hempty.
  - intros [= <- <-]. done.
  - cbn [foldM_M]. intros H.
    apply bindM_Ok_inv in H as (st1 & log1 & log2 & Hwave & Hrest & ->).
    apply process_chunk_Ok in Hwave as [_ Hcount].
    destruct Hcount as (q & Hq & Hcount);
      [apply (Hne k), list_elem_of_here|].
    cbv zeta in Hcount. rewrite Htarget, Hempty, lookup_empty, Hsize in Hcount.
    change (default 0 None + 1 =? Z.of_nat 1) with true in Hcount.
    destruct Hcount as [Hvp Hmoves].
    apply IH in Hrest as [Hmoves2 Hfinal].
    + change (((k, chunk) :: items).*2) with (chunk :: items.*2).
      rewrite (last_videos_cons _ _ _ Hq), moves_of_app, Hmoves, Hmoves2.
      done.
    + intros k' chunk' Hin. apply (Hne k'). by apply list_elem_of_further.
    + rewrite Hvp, delete_insert_eq. apply delete_empty.
Qed.

End Effects.

Lemma chunks_elem {A} (lst : list A) n cs c x :
  chunks lst n = Ok cs -> c ∈ cs -> x ∈ c -> x ∈ lst.
Proof.
  intros Hcs Hc Hx. destruct (Z.lt_trichotomy n 0) as [Hn|[->|Hn]].
  - rewrite chunks_negative in Hcs by done. injection Hcs as <-.
    by apply elem_of_nil in Hc.
  - by rewrite chunks_zero in Hcs.
  - destruct (chunks_positive lst n Hn) as (cs' & Hcs' & Hcat & _).
    assert (cs' = cs) as -> by congruence.
    rewrite <- Hcat. apply list_elem_of_In, in_concat.
    exists c. split; by apply list_elem_of_In.
Qed.

Lemma chunks_concat {A} (lst : list A) n cs :
  chunks lst n = Ok cs -> cs = [] \/ concat cs = lst.
Proof.
  intros Hcs. destruct (Z.lt_trichotomy n 0) as [Hn|[->|Hn]].
  - rewrite chunks_negative in Hcs by done. left. congruence.
  - by rewrite chunks_zero in Hcs.
  - destruct (chunks_positive lst n Hn) as (cs' & Hcs' & Hcat & _).
    right. congruence.
Qed.

Lemma enumerate_nonempty {A} (cs : list (list A)) :
  (forall c, c ∈ cs -> c <> []) ->
  forall k chunk, (k, chunk) ∈ enumerate cs -> chunk <> [].
Proof.
  intros Hcs k chunk Hin. apply Hcs.
  apply enumerate_elem in Hin. by eapply list_elem_of_lookup_2.
Qed.

Lemma pickles_of_elem p log :
  p ∈ pickles_of log -> exists df, ToPickle p df ∈ log.
Proof.
  induction log as [|[p' df|[idx|] tbl|src dst] log IH]; simpl.
  - intros H. by apply elem_of_nil in H.
  - intros H. apply elem_of_cons in H as [->|H].
    + exists df. apply list_elem_of_here.
    + destruct (IH H) as [df' Hdf]. exists df'. by apply list_elem_of_further.
  - intros H. destruct (IH H) as [df' Hdf]. exists df'. by apply list_elem_of_further.
  - intros H. destruct (IH H) as [df' Hdf]. exists df'. by apply list_elem_of_further.
  - intros H. destruct (IH H) as [df' Hdf]. exists df'. by apply list_elem_of_further.
Qed.

Lemma moves_of_elem src dst log :
  (src, dst) ∈ moves_of log -> Move src dst ∈ log.
Proof.
  induction log as [|[p' df|[idx|] tbl|src' dst'] log IH]; simpl.
  - intros H. by apply elem_of_nil in H.
  - intros H. by apply list_elem_of_further, IH.
  - intros H. by apply list_elem_of_further, IH.
  - intros H. by apply list_elem_of_further, IH.
  - intros H. apply elem_of_cons in H as [[= -> ->]|H].
    + apply list_elem_of_here.
    + by apply list_elem_of_further, IH.
Qed.

Lemma final_tables_none (P : event -> Prop) log :
  (forall table, ~ P (ToCsv FinalCsv table)) ->
  Forall P log -> final_tables log = [].
Proof.
  intros HP Hlog.
  induction Hlog as [|[p df|[idx|] tbl|src dst] log Hev _ IH]; simpl; try done.
  by apply HP in Hev.
Qed.

Section RunEffects.

Context {Model Device Frame : Type}.
Variable E : ProcessDataset.Collaborators Model Device Frame.
Variable models : gmap string Model.
Variable devices : gmap string Device.

Import ProcessDataset.

#[local] Arguments process_chunk : simpl never.

(** A run either raises before the first wave, having written nothing, or
    it is the loop over the chunks of the tasks followed by the writing of
    the final CSV. *)
Lemma process_dataset_cases dataset dataset_name model framework output
    per_video_results process_all move_when_done max_workers :
  (exists e,
     process_dataset E models devices dataset dataset_name model framework
                     output per_video_results process_all move_when_done
                     max_workers = (Raise e, []))
  \/ (exists videos tmp_files previous cs,
        enumerate_videos E process_all dataset = Ok videos
        /\ scan_tmp_files E output = Ok tmp_files
        /\ previous_tmp_files tmp_files = Ok previous
        /\ let tasks := tasks_of (skip_processed E per_video_results output videos)
                                 model framework output per_video_results in
           let workers := clamp_workers (len tasks) max_workers in
           chunks tasks (workers * 2) = Ok cs
           /\ process_dataset E models devices dataset dataset_name model
                              framework output per_video_results process_all
                              move_when_done max_workers
              = do st <- foldM_M (process_chunk E models devices model
                                                move_when_done workers previous)
                                 initial_state (enumerate cs);
                emit (ToCsv FinalCsv (detections st))).
Proof.
  unfold process_dataset. rewrite bindM_lift.
  destruct (enumerate_videos E process_all dataset) as [videos|e];
    [|left; by exists e].
  rewrite bindM_lift.
  destruct (scan_tmp_files E output) as [tmp_files|e]; [|left; by exists e].
  rewrite bindM_lift.
  destruct (previous_tmp_files tmp_files) as [previous|e] eqn:Hprev;
    [|left; by exists e].
  rewrite bindM_lift.
  destruct (chunks _ _) as [cs|e] eqn:Hcs; [|left; by exists e].
  right. exists videos, tmp_files, previous, cs.
  do 3 (split; [done|]). split; [exact Hcs|].
  unfold after_waves. rewrite take_ge by (rewrite enumerate_length; lia).
  reflexivity.
Qed.

(** X5. The checkpoints of a run are cumulative: whether the run ends well
    or not, every table written to a checkpoint file is the table written
    before it (the empty table for the first) with at least one row
    appended. *)
Theorem checkpoints_cumulative dataset dataset_name model framework output
    per_video_results process_all move_when_done max_workers :
  growing [] (checkpoint_tables
                (snd (process_dataset E models devices dataset dataset_name
                        model framework output per_video_results process_all
                        move_when_done max_workers))).
Proof.
  destruct (process_dataset_cases dataset dataset_name model framework output
              per_video_results process_all move_when_done max_workers)
    as [[e ->]|(videos & tmp & prev & cs & _ & _ & _ & _ & ->)]; [done|].
  match goal with
  | |- context [foldM_M (process_chunk _ _ _ _ _ ?w _) initial_state ?items] =>
      pose proof (waves_tracks E models devices model move_when_done w prev
                    items initial_state) as [Hgrow _]
  end.
  match goal with
  | |- context [bindM ?m ?f] => destruct (bindM_snd m f) as [->|(a & _ & ->)]
  end; [done|].
  rewrite checkpoint_tables_app. simpl. by rewrite app_nil_r.
Qed.

(** X6. The final CSV is written exactly when the run raises nothing: then
    it is the last file effect of the run, it is written once, and its
    table is the table of the last checkpoint (the empty table when no
    checkpoint was written); a run that raises writes no final CSV. *)
Theorem final_csv_written dataset dataset_name model framework output
    per_video_results process_all move_when_done max_workers :
  let run := process_dataset E models devices dataset dataset_name model
               framework output per_video_results process_all move_when_done
               max_workers in
  match fst run with
  | Ok _ =>
      exists log,
        snd run = log ++ [ToCsv FinalCsv (last_table [] (checkpoint_tables log))]
        /\ final_tables log = []
  | Raise _ => final_tables (snd run) = []
  end.
Proof.
  intros run. subst run.
  destruct (process_dataset_cases dataset dataset_name model framework output
              per_video_results process_all move_when_done max_workers)
    as [[e ->]|(videos & tmp & prev & cs & _ & _ & _ & Hcs & ->)]; [done|].
  match goal with
  | |- context [foldM_M (process_chunk _ _ _ _ _ ?w _) initial_state ?items] =>
      pose proof (waves_tracks E models devices model move_when_done w prev
                    items initial_state) as [_ Hlast];
      pose proof (waves_events E models devices model move_when_done w prev
                    items initial_state) as Hevents;
      destruct (foldM_M (process_chunk E models devices model move_when_done
                                       w prev) initial_state items)
        as [[st|e] log] eqn:Hloop
  end.
  - simpl in *. exists log. rewrite (Hlast st eq_refl). split; [done|].
    eapply final_tables_none; [|apply Hevents].
    + intros table (k & chunk & _ & []).
    + apply enumerate_nonempty. intros c Hc. by eapply chunks_nonempty.
  - simpl in *. eapply final_tables_none; [|apply Hevents].
    + intros table (k & chunk & _ & []).
    + apply enumerate_nonempty. intros c Hc. by eapply chunks_nonempty.
Qed.

(** X7. A run writes per-video files in per-video mode only, only for
    enumerated videos that have a frame, and only where no such file
    existed when the run started: a per-video file is never overwritten. *)
Theorem pickles_only_pending dataset dataset_name model framework output
    per_video_results process_all move_when_done max_workers videos p :
  enumerate_videos E process_all dataset = Ok videos ->
  p ∈ pickles_of (snd (process_dataset E models devices dataset dataset_name
                         model framework output per_video_results process_all
                         move_when_done max_workers)) ->
  per_video_results = true
  /\ isfile E p = false
  /\ exists v, v ∈ videos /\ p = pkl_path output v /\ VideoCapture E v <> [].
Proof.
  intros Hvideos.
  destruct (process_dataset_cases dataset dataset_name model framework output
              per_video_results process_all move_when_done max_workers)
    as [[e ->]|(videos' & tmp & prev & cs & Hvideos' & _ & _ & Hcs & ->)].
  { intros H. by apply elem_of_nil in H. }
  assert (videos' = videos) as -> by congruence.
  match goal with
  | |- context [foldM_M (process_chunk _ _ _ _ _ ?w _) initial_state ?items] =>
      pose proof (waves_events E models devices model move_when_done w prev
                    items initial_state) as Hevents
  end.
  intros Hp.
  assert (Hin : exists df,
             ToPickle p df
             ∈ snd (foldM_M (process_chunk E models devices model move_when_done
                              (clamp_workers
                                 (len (tasks_of (skip_processed E per_video_results
                                                   output videos)
                                         model framework output per_video_results))
                                 max_workers) prev)
                      initial_state (enumerate cs))).
  { apply pickles_of_elem in Hp as [df Hdf]. exists df. revert Hdf.
    match goal with
    | |- context [bindM ?m ?f] => destruct (bindM_snd m f) as [->|(a & _ & ->)]
    end; [done|].
    intros Hdf. apply elem_of_app in Hdf as [Hdf|Hdf]; [done|].
    apply list_elem_of_singleton in Hdf. discriminate. }
  destruct Hin as [df Hdf].
  rewrite Forall_forall in Hevents.
  apply Hevents in Hdf as (k & chunk & Hchunk & q & out & Hq & Hout & -> & Hframes).
  2: { apply enumerate_nonempty. intros c Hc. by eapply chunks_nonempty. }
  apply enumerate_elem in Hchunk.
  assert (Htask : q ∈ tasks_of (skip_processed E per_video_results output videos)
                               model framework output per_video_results).
  { eapply chunks_elem; [exact Hcs| |exact Hq]. by eapply list_elem_of_lookup_2. }
  unfold tasks_of in Htask. apply list_elem_of_fmap in Htask as (v & -> & Hv).
  simpl in Hout. destruct per_video_results; [|discriminate].
  injection Hout as <-. apply skip_processed_elem in Hv as [Hv Hfile].
  split; [done|]. split; [exact Hfile|]. exists v. done.
Qed.

(** X8. A run moves a file only to the target it was given, and only the
    video of the last task of one of its chunks: without a target no file
    moves, and the other videos of a chunk never move. *)
Theorem moves_only_last dataset dataset_name model framework output
    per_video_results process_all move_when_done max_workers videos cs src dst :
  enumerate_videos E process_all dataset = Ok videos ->
  (let tasks := tasks_of (skip_processed E per_video_results output videos)
                         model framework output per_video_results in
   chunks tasks (clamp_workers (len tasks) max_workers * 2) = Ok cs) ->
  (src, dst) ∈ moves_of (snd (process_dataset E models devices dataset
                                dataset_name model framework output
                                per_video_results process_all move_when_done
                                max_workers)) ->
  move_when_done = Some dst
  /\ exists chunk q, chunk ∈ cs /\ last chunk = Some q /\ src = filename_of q.
Proof.
  intros Hvideos Hchunks.
  destruct (process_dataset_cases dataset dataset_name model framework output
              per_video_results process_all move_when_done max_workers)
    as [[e ->]|(videos' & tmp & prev & cs' & Hvideos' & _ & _ & Hcs & ->)].
  { intros H. by apply elem_of_nil in H. }
  assert (videos' = videos) as -> by congruence.
  simpl in Hchunks, Hcs. assert (cs' = cs) as -> by congruence.
  match goal with
  | |- context [foldM_M (process_chunk _ _ _ _ _ ?w _) initial_state ?items] =>
      pose proof (waves_events E models devices model move_when_done w prev
                    items initial_state) as Hevents
  end.
  intros Hmove. apply moves_of_elem in Hmove.
  assert (Hin : Move src dst
                ∈ snd (foldM_M (process_chunk E models devices model move_when_done
                                 (clamp_workers
                                    (len (tasks_of (skip_processed E per_video_results
                                                      output videos)
                                            model framework output per_video_results))
                                    max_workers) prev)
                         initial_state (enumerate cs))).
  { revert Hmove.
    match goal with
    | |- context [bindM ?m ?f] => destruct (bindM_snd m f) as [->|(a & _ & ->)]
    end; [done|].
    intros Hdf. apply elem_of_app in Hdf as [Hdf|Hdf]; [done|].
    apply list_elem_of_singleton in Hdf. discriminate. }
  rewrite Forall_forall in Hevents.
  apply Hevents in Hin as (k & chunk & Hchunk & Htarget & q & Hq & ->).
  2: { apply enumerate_nonempty. intros c Hc. by eapply chunks_nonempty. }
  split; [done|]. exists chunk, q. split; [|done].
  apply enumerate_elem in Hchunk. by eapply list_elem_of_lookup_2.
Qed.

Lemma last_videos_elem cs v :
  v ∈ last_videos cs -> v ∈ filename_of <$> concat cs.
Proof.
  unfold last_videos. intros H.
  apply list_elem_of_omap in H as (chunk & Hchunk & Hlast).
  destruct (last chunk) as [q|] eqn:Hq; [|discriminate].
  injection Hlast as <-. apply list_elem_of_fmap. exists q. split; [done|].
  apply list_elem_of_In, in_concat. exists chunk.
  split; apply list_elem_of_In; [done|]. by apply last_Some_elem_of.
Qed.

Lemma last_videos_NoDup cs :
  NoDup (filename_of <$> concat cs) -> NoDup (last_videos cs).
Proof.
  induction cs as [|chunk cs IH]; [constructor|].
  change (concat (chunk :: cs)) with (chunk ++ concat cs).
  rewrite fmap_app. intros H. apply NoDup_app in H as (_ & Hdisjoint & Hrest).
  unfold last_videos. simpl. fold (last_videos cs).
  destruct (last chunk) as [q|] eqn:Hq; simpl; [|by apply IH].
  apply NoDup_cons. split; [|by apply IH].
  intros Hin. apply last_videos_elem in Hin.
  apply (Hdisjoint (filename_of q)); [|done].
  apply list_elem_of_fmap. exists q. split; [done|]. by apply last_Some_elem_of.
Qed.

Lemma tasks_of_videos videos model framework output per_video_results :
  filename_of <$> tasks_of videos model framework output per_video_results
  = videos.
Proof.
  unfold tasks_of. induction videos as [|v videos IH]; simpl; [done|].
  by f_equal.
Qed.

Lemma skip_processed_NoDup per_video_results output videos :
  NoDup videos -> NoDup (skip_processed E per_video_results output videos).
Proof.
  unfold skip_processed. destruct per_video_results; [|done].
  induction 1 as [|v videos Hnew _ IH]; simpl; [constructor|].
  destruct (negb _); [|done]. constructor; [|done].
  rewrite list_elem_of_In, filter_In, <- list_elem_of_In. tauto.
Qed.

(** X9. With a single model loaded and a target given, a run that raises
    nothing moves the video of the last task of every chunk, in the order of
    the chunks, and nothing else. *)
Theorem single_model_moves dataset dataset_name model framework output
    per_video_results process_all target max_workers videos cs log :
  size models = 1%nat ->
  enumerate_videos E process_all dataset = Ok videos ->
  (let tasks := tasks_of (skip_processed E per_video_results output videos)
                         model framework output per_video_results in
   chunks tasks (clamp_workers (len tasks) max_workers * 2) = Ok cs) ->
  process_dataset E models devices dataset dataset_name model framework output
                  per_video_results process_all (Some target) max_workers
  = (Ok tt, log) ->
  moves_of log = map (fun v => (v, target)) (last_videos cs).
Proof.
  intros Hsize Hvideos Hchunks.
  destruct (process_dataset_cases dataset dataset_name model framework output
              per_video_results process_all (Some target) max_workers)
    as [[e ->]|(videos' & tmp & prev & cs' & Hvideos' & _ & _ & Hcs & ->)];
    [discriminate|].
  assert (videos' = videos) as -> by congruence.
  simpl in Hchunks, Hcs. assert (cs' = cs) as -> by congruence.
  intros Hrun.
  apply bindM_Ok_inv in Hrun as (st & log1 & log2 & Hloop & [= <-] & ->).
  eapply waves_single_model in Hloop as [Hmoves _]; try done.
  - rewrite moves_of_app, Hmoves, enumerate_snd. simpl. by rewrite app_nil_r.
  - apply enumerate_nonempty. intros c Hc. by eapply chunks_nonempty.
Qed.

(** X10. With two models or more loaded and no video enumerated twice, a
    run moves no file, whatever the target: every counter stops at one. *)
Theorem several_models_no_move dataset dataset_name model framework output
    per_video_results process_all move_when_done max_workers videos :
  (2 <= size models)%nat ->
  enumerate_videos E process_all dataset = Ok videos ->
  NoDup videos ->
  moves_of (snd (process_dataset E models devices dataset dataset_name model
                   framework output per_video_results process_all
                   move_when_done max_workers)) = [].
Proof.
  intros Hsize Hvideos Hnodup.
  destruct (process_dataset_cases dataset dataset_name model framework output
              per_video_results process_all move_when_done max_workers)
    as [[e ->]|(videos' & tmp & prev & cs & Hvideos' & _ & _ & Hcs & ->)];
    [done|].
  assert (videos' = videos) as -> by congruence.
  assert (Hloop : forall w,
             moves_of (snd (foldM_M (process_chunk E models devices model
                                       move_when_done w prev)
                                    initial_state (enumerate cs))) = []).
  { intros w. apply waves_no_move; [done| | |].
    - apply enumerate_nonempty. intros c Hc. by eapply chunks_nonempty.
    - rewrite enumerate_snd. apply last_videos_NoDup.
      apply chunks_concat in Hcs as [-> | ->]; [constructor|].
      rewrite tasks_of_videos. by apply skip_processed_NoDup.
    - intros v _. apply lookup_empty. }
  match goal with
  | |- context [bindM ?m ?f] => destruct (bindM_snd m f) as [->|(a & _ & ->)]
  end; [apply Hloop|].
  by rewrite moves_of_app, Hloop.
Qed.


Lemma unknown_model_wave model move_when_done workers previous st k chunk :
  models !! model = None ->
  Forall (fun q : query => snd (fst (fst q)) = model) chunk ->
  chunk <> [] ->
  0 < workers ->
  process_chunk E models devices model move_when_done workers previous st
                (k, chunk)
  = (Raise KeyError, []).
Proof.
  intros Hmodel Hchunk Hne Hw. unfold process_chunk.
  destruct (Z.leb_spec workers 0) as [?|_]; [lia|].
  rewrite executor_map_run.
  assert (Htask : forall q, q ∈ chunk ->
                            process_video_parallel E models devices q
                            = (Raise KeyError, [])).
  { intros [[[fn mo] fw] out] Hq. rewrite Forall_forall in Hchunk.
    apply Hchunk in Hq. simpl in Hq. subst mo. simpl. by rewrite Hmodel. }
  assert (Hlogs : forall sub,
             (forall q, q ∈ sub -> q ∈ chunk) ->
             flat_map (fun q => snd (process_video_parallel E models devices q))
                      sub = []).
  { intros sub Hsub. induction sub as [|q sub IH]; simpl; [done|].
    rewrite (Htask q) by apply Hsub, list_elem_of_here. simpl. apply IH.
    intros q' Hq'. apply Hsub. by apply list_elem_of_further. }
  rewrite Hlogs by (intros q; apply tasks_run_elem). destruct chunk as [|q chunk]; [done|].
  cbn [map]. rewrite (Htask q) by apply list_elem_of_here.
  unfold bindM at 1. unfold enumerate.
  cbn [length seq zip zip_with foldM_M fst].
  unfold collect at 1. rewrite bindM_lift. reflexivity.
Qed.

(** X12. When the chosen model is not in the registry and there is a video
    to process, a run with at least one worker raises [KeyError] when it
    reads the first result, having written no file. *)
Theorem unknown_model_raises dataset dataset_name model framework output
    per_video_results process_all move_when_done max_workers videos tmp_files :
  enumerate_videos E process_all dataset = Ok videos ->
  scan_tmp_files E output = Ok tmp_files ->
  skip_processed E per_video_results output videos <> [] ->
  models !! model = None ->
  1 <= max_workers ->
  process_dataset E models devices dataset dataset_name model framework output
                  per_video_results process_all move_when_done max_workers
  = (Raise KeyError, []).
Proof.
  intros Hvideos Hscan Hsome Hmodel Hw. unfold process_dataset.
  rewrite Hvideos, bindM_lift, Hscan, bindM_lift.
  destruct (previous_tmp_files_spec tmp_files) as (prev & -> & _).
  rewrite bindM_lift.
  set (tasks := map _ (skip_processed E per_video_results output videos)).
  assert (Htasks : 0 < @len query tasks).
  { subst tasks. unfold len. rewrite length_map.
    destruct (skip_processed _ _ _ _); [done|]. simpl. lia. }
  set (workers := clamp_workers (@len query tasks) max_workers).
  assert (Hworkers : 0 < workers).
  { subst workers. unfold clamp_workers.
    destruct (_ <? _) eqn:Hlt; lia. }
  destruct (@chunks_positive query tasks (workers * 2) ltac:(lia))
    as (cs & Hcs & Hcat & Hsizes & _).
  rewrite Hcs, bindM_lift.
  destruct cs as [|chunk cs].
  { simpl in Hcat. rewrite <- Hcat in Htasks. unfold len in Htasks.
    simpl in Htasks. lia. }
  unfold after_waves. rewrite take_ge by (rewrite enumerate_length; lia).
  unfold enumerate. cbn [length seq zip zip_with foldM_M].
  rewrite unknown_model_wave; [reflexivity|done| | |done].
  - apply Forall_forall. intros q Hq.
    assert (Hin : q ∈ tasks).
    { rewrite <- Hcat. apply elem_of_app. by left. }
    subst tasks. apply list_elem_of_fmap in Hin as (v & -> & _). done.
  - destruct (Hsizes 0%nat chunk eq_refl) as [Hlen _]. intros ->.
    unfold len in Hlen. simpl in Hlen. lia.
Qed.

End RunEffects.

(** The per-video file of [video_a] in a per-video run of the demo. *)
Lemma pickles_only_pending_witness :
  true = true
  /\ ProcessDataset.isfile Demo.E "out/2020-01-01T10:30:00.cam1.pkl" = false
  /\ exists v,
       v ∈ Demo.dataset
       /\ "out/2020-01-01T10:30:00.cam1.pkl" = ProcessDataset.pkl_path "out" v
       /\ ProcessDataset.VideoCapture Demo.E v <> [].
Proof.
  apply (pickles_only_pending Demo.E Demo.models Demo.devices Demo.dataset
           "run" "edge" "tf" "out" true true None 1 Demo.dataset
           "out/2020-01-01T10:30:00.cam1.pkl");
    [reflexivity | vm_compute; apply list_elem_of_here].
Defined.

(** The move of [video_b], the last video of the first chunk of the demo. *)
Lemma moves_only_last_witness :
  Some "done" = Some "done"
  /\ exists chunk q,
       chunk ∈ Demo.waves /\ last chunk = Some q
       /\ Demo.video_b = filename_of q.
Proof.
  apply (moves_only_last Demo.E Demo.models Demo.devices Demo.dataset
           "run" "edge" "tf" "out" false true (Some "done") 1 Demo.dataset
           Demo.waves Demo.video_b "done");
    [reflexivity | reflexivity | vm_compute; apply list_elem_of_here].
Defined.

(** The demo run has one model: [video_b] and [video_d] move. *)
Lemma single_model_moves_witness :
  exists log,
    ProcessDataset.process_dataset Demo.E Demo.models Demo.devices Demo.dataset
      "run" "edge" "tf" "out" false true (Some "done") 1 = (Ok tt, log)
    /\ moves_of log = [(Demo.video_b, "done"); (Demo.video_d, "done")].
Proof.
  eexists. split; [vm_compute; reflexivity|].
  apply (single_model_moves Demo.E Demo.models Demo.devices Demo.dataset
           "run" "edge" "tf" "out" false true "done" 1 Demo.dataset Demo.waves);
    [reflexivity | reflexivity | reflexivity | vm_compute; reflexivity].
Defined.

(** The same run with two models in the registry moves nothing. *)
Lemma several_models_no_move_witness :
  moves_of (snd (ProcessDataset.process_dataset Demo.E Demo2.models
                   Demo2.devices Demo.dataset "run" "edge" "tf" "out" false
                   true (Some "done") 1)) = [].
Proof.
  apply (several_models_no_move Demo.E Demo2.models Demo2.devices Demo.dataset
           "run" "edge" "tf" "out" false true (Some "done") 1 Demo.dataset).
  - vm_compute. lia.
  - reflexivity.
  - apply (bool_decide_unpack _). vm_compute. exact I.
Defined.


(** The demo registry has no model [ref]. *)
Lemma unknown_model_raises_witness :
  ProcessDataset.process_dataset Demo.E Demo.models Demo.devices Demo.dataset
    "run" "ref" "tf" "out" false true (Some "done") 1
  = (Raise KeyError, []).
Proof.
  apply (unknown_model_raises Demo.E Demo.models Demo.devices Demo.dataset
           "run" "ref" "tf" "out" false true (Some "done") 1
           Demo.dataset [0; 1]);
    [reflexivity | reflexivity | discriminate | reflexivity | lia].
Defined.

(** The tables of the three checkpoint writes of the demo run have 2, 3
    and 5 rows, and the final CSV has the 5 rows of the last one. *)
Example checkpoint_tables_demo :
  map length
      (checkpoint_tables
         (snd (ProcessDataset.process_dataset Demo.E Demo.models Demo.devices
                 Demo.dataset "run" "edge" "tf" "out" false true
                 (Some "done") 1)))
  = [2; 3; 5]%nat
  /\ map length
         (final_tables
            (snd (ProcessDataset.process_dataset Demo.E Demo.models
                    Demo.devices Demo.dataset "run" "edge" "tf" "out" false
                    true (Some "done") 1)))
     = [5%nat].
Proof. split; vm_compute; reflexivity. Qed.

(** A move that is refused ends the run: the target already holds a file
    of the name of [video_b], the last video of the first wave. The
    checkpoints of that wave are on disk, nothing is moved, and there is no
    final CSV. *)
Example move_refused :
  ProcessDataset.process_dataset Demo2.E_refusing Demo.models Demo.devices
    Demo.dataset "run" "edge" "tf" "out" false true (Some "done") 1
  = (Raise IOError,
     [ToCsv (TmpCsv 2)
        (take 2 (last_table []
                   (checkpoint_tables
                      (snd (ProcessDataset.process_dataset Demo.E Demo.models
                              Demo.devices Demo.dataset "run" "edge" "tf"
                              "out" false true None 1)))));
      ToCsv (TmpCsv 2)
        (take 3 (last_table []
                   (checkpoint_tables
                      (snd (ProcessDataset.process_dataset Demo.E Demo.models
                              Demo.devices Demo.dataset "run" "edge" "tf"
                              "out" false true None 1)))))]).
Proof. vm_compute. reflexivity. Qed.

(** A task that raises cancels the tasks no worker has taken. In per-video
    mode with four workers the wave holds [video_bad], whose per-video
    table cannot be made, and three more videos; one of them was taken when
    the exception was read: its file is written, those of the other two
    are not, and the run ends with the exception. *)
Example cancelled_tasks :
  ProcessDataset.process_dataset Demo2.E_refusing Demo.models Demo.devices
    [Demo2.video_bad; Demo.video_a; Demo.video_b; Demo.video_c]
    "run" "edge" "tf" "out" true true None 4
  = (Raise ValueError,
     snd (ProcessDataset.process_video Demo.E Demo.video_a "mobilenet" "cpu"
            "tf" (Some "out"))).
Proof. vm_compute. reflexivity. Qed.

(* ===================================================================== *)
(** ** More on the enumeration of the fast mode *)
(* ===================================================================== *)

Section EnumerationMore.

Context {Model Device Frame : Type}.
Variable E : ProcessDataset.Collaborators Model Device Frame.

Import ProcessDataset.

Local Abbreviation key := (date_hour_key E).

(** A step of the loop returns exactly when the name of the file parses. *)
Lemma fast_step_key acc f :
  match key f with
  | Ok _ => exists acc', fast_step E acc f = Ok acc'
  | Raise e => fast_step E acc f = Raise e
  end.
Proof.
  destruct acc as [videos pts]. unfold fast_step.
  destruct (key f) as [k|e]; [|done]. cbn [mbind outcome_bind].
  destruct (pts !! k) as [v|]; cbn beta iota.
  - destruct (truthy v); eauto.
  - cbn [truthy]. eauto.
Qed.

Lemma fast_loop_parses dataset acc :
  match foldM (fast_step E) acc dataset with
  | Ok _ => Forall (fun f => is_ok (key f) = true) dataset
  | Raise e =>
      exists before f after,
        dataset = before ++ f :: after
        /\ Forall (fun f => is_ok (key f) = true) before
        /\ key f = Raise e
  end.
Proof.
  revert acc. induction dataset as [|f dataset IH]; intros acc; simpl; [done|].
  pose proof (fast_step_key acc f) as Hstep.
  destruct (key f) as [k|e] eqn:Hk.
  - destruct Hstep as (acc' & ->). cbn [mbind outcome_bind].
    specialize (IH acc'). destruct (foldM _ acc' dataset) as [r|e].
    + constructor; [by rewrite Hk | done].
    + destruct IH as (before & g & after & -> & Hbefore & Hg).
      exists (f :: before), g, after. split; [done|]. split; [|done].
      constructor; [by rewrite Hk | done].
  - rewrite Hstep. cbn [mbind outcome_bind].
    exists [], f, dataset. by split.
Qed.

(** A video whose bucket is free is kept. *)
Lemma fast_step_free acc pts f k :
  key f = Ok k ->
  (forall v, pts !! k = Some v -> truthy v = false) ->
  exists pts1,
    fast_step E (acc, pts) f
    = Ok (acc ++ [f], <[k := FlagStem (stem f)]> pts1)
    /\ forall k', k' <> k -> pts1 !! k' = pts !! k'.
Proof.
  intros Hk Hfalsy. unfold fast_step. rewrite Hk. cbn [mbind outcome_bind].
  destruct (pts !! k) as [v|] eqn:Hv; cbn beta iota.
  - rewrite (Hfalsy v eq_refl). by exists pts.
  - cbn [truthy]. exists (<[k := FlagBool false]> pts). split; [done|].
    intros k' Hne. by rewrite lookup_insert_ne.
Qed.

(** Videos of pairwise different buckets that are free are all kept. *)
Lemma fast_keeps_all vs acc pts :
  NoDup (key <$> vs) ->
  (forall f, f ∈ vs ->
     exists k, key f = Ok k
               /\ forall v, pts !! k = Some v -> truthy v = false) ->
  exists pts', foldM (fast_step E) (acc, pts) vs = Ok (acc ++ vs, pts').
Proof.
  revert acc pts. induction vs as [|f vs IH]; intros acc pts Hnodup Hfree.
  - exists pts. simpl. by rewrite app_nil_r.
  - rewrite fmap_cons in Hnodup. apply NoDup_cons in Hnodup as [Hnotin Hnodup].
    destruct (Hfree f) as (k & Hk & Hfalsy); [apply list_elem_of_here|].
    destruct (fast_step_free acc pts f k Hk Hfalsy) as (pts1 & Hstep & Hother).
    destruct (IH (acc ++ [f]) (<[k := FlagStem (stem f)]> pts1) Hnodup)
      as (pts' & Hrest).
    { intros g Hg. destruct (Hfree g) as (k' & Hk' & Hfalsy');
        [by apply list_elem_of_further|].
      exists k'. split; [done|]. intros v' Hv'.
      assert (k' <> k) as Hne.
      { intros ->. apply Hnotin. rewrite Hk, <- Hk'.
        apply list_elem_of_fmap. by exists g. }
      rewrite lookup_insert_ne, Hother in Hv' by done. by apply Hfalsy'. }
    exists pts'. cbn [foldM]. rewrite Hstep. cbn [mbind outcome_bind].
    rewrite Hrest. by rewrite <- app_assoc.
Qed.

(** X13. The fast mode reads the name of every file of the dataset, also
    of the videos it drops: the enumeration returns exactly when every name
    parses into a bucket key, and otherwise ends with the exception of the
    first name that does not. *)
Theorem fast_mode_parses_all dataset :
  match enumerate_videos E false dataset with
  | Ok _ => Forall (fun f => is_ok (date_hour_key E f) = true) dataset
  | Raise e =>
      exists before f after,
        dataset = before ++ f :: after
        /\ Forall (fun f => is_ok (date_hour_key E f) = true) before
        /\ date_hour_key E f = Raise e
  end.
Proof.
  unfold enumerate_videos.
  pose proof (fast_loop_parses dataset ([], ∅)) as H.
  by destruct (foldM _ _ dataset) as [acc|e].
Qed.

(** X14. The fast mode is idempotent: the videos it keeps are all kept
    when the list goes through the fast mode again. *)
Theorem fast_mode_idempotent dataset videos :
  enumerate_videos E false dataset = Ok videos ->
  enumerate_videos E false videos = Ok videos.
Proof.
  unfold enumerate_videos. intros H.
  apply bind_Ok_inv in H as ([videos' pts] & Hloop & [= <-]).
  destruct (fast_loop_inv E dataset [] [] ∅ videos' pts (fast_inv_init E) Hloop)
    as [_ Hnodup _ _ _ Hkept].
  destruct (fast_keeps_all videos' [] ∅ Hnodup) as (pts' & ->); [|done].
  intros f Hf. destruct (Hkept f Hf) as (k & v & Hk & _ & _).
  exists k. split; [done|]. intros v'. by rewrite lookup_empty.
Qed.

End EnumerationMore.

(** The demo dataset in fast mode keeps all videos but [video_b]. *)
Lemma fast_mode_idempotent_witness :
  ProcessDataset.enumerate_videos Demo.E false
    [Demo.video_a; Demo.video_c; Demo.video_d]
  = Ok [Demo.video_a; Demo.video_c; Demo.video_d].
Proof.
  apply (fast_mode_idempotent Demo.E Demo.dataset). reflexivity.
Defined.

(** A name without camera part stops the fast mode, and only the fast
    mode. *)
Example fast_mode_bad_name :
  ProcessDataset.enumerate_videos Demo.E false
    [Demo.video_a; "data/clip.mp4"; Demo.video_b] = Raise IndexError
  /\ ProcessDataset.enumerate_videos Demo.E true
       [Demo.video_a; "data/clip.mp4"; Demo.video_b]
     = Ok [Demo.video_a; "data/clip.mp4"; Demo.video_b].
Proof. split; reflexivity. Qed.

(* ===================================================================== *)
(** ** A detection run that returns *)
(* ===================================================================== *)

Lemma bindM_fst_Ok {A B} (m : M A) (f : A -> M B) a :
  fst m = Ok a -> fst (bindM m f) = fst (f a).
Proof.
  destruct m as [o log]. simpl. intros ->. simpl. by destruct (f a).
Qed.

Lemma mapM_o_app_inv {A B} (f : A -> outcome B) xs ys zs :
  mapM_o f (xs ++ ys) = Ok zs ->
  exists zs1 zs2,
    zs = zs1 ++ zs2 /\ mapM_o f xs = Ok zs1 /\ mapM_o f ys = Ok zs2.
Proof.
  revert zs. induction xs as [|x xs IH]; intros zs; simpl.
  - intros H. by exists [], zs.
  - intros H. apply bind_Ok_inv in H as (z & Hz & H).
    apply bind_Ok_inv in H as (zs' & Hzs & [= <-]).
    destruct (IH zs' Hzs) as (zs1 & zs2 & -> & H1 & H2).
    exists (z :: zs1), zs2. rewrite Hz, H1. by split.
Qed.

Section DetectionRun.

Context {Model Device Frame : Type}.
Variable E : ProcessDataset.Collaborators Model Device Frame.
Variable models : gmap string Model.
Variable devices : gmap string Device.
Variable model framework : string.
Variable m : Model.
Variable d : Device.
Variable move_when_done : option string.
Variable workers previous : Z.

Hypothesis model_loaded : models !! model = Some m.
Hypothesis device_set : devices !! model = Some d.
Hypothesis detection : framework <> "torch".
Hypothesis some_worker : 0 < workers.

Import ProcessDataset.

#[local] Arguments process_chunk : simpl never.

Local Abbreviation task := (process_video_parallel E models devices).
Local Abbreviation wave := (process_chunk E models devices model move_when_done
                                          workers previous).

Local Abbreviation plain := (plain_task model framework).

(** The move of the video of a task, should the run make it, is made. *)
Local Abbreviation movable :=
  (fun q : query =>
     forall target, move_when_done = Some target ->
                    shutil_move E (filename_of q) target = Ok tt).

Lemma task_detection q :
  plain q -> task q = (Ok (detection_rows E m (filename_of q)), []).
Proof.
  unfold plain_task. intros ->. simpl. rewrite model_loaded, device_set.
  unfold process_video.
  rewrite (infer_video_detection E _ m d framework detection), bindM_lift.
  cbn [bindM retM].
  pose proof (detection_rows_of_data E (filename_of q) m d) as Hrows.
  cbv zeta in Hrows. by rewrite Hrows.
Qed.

Lemma collect_detection chunk ckpt st i q table :
  chunk !! i = Some q ->
  video_table E model m (filename_of q) = Ok table ->
  fst (collect E model chunk ckpt st
               (i, Ok (detection_rows E m (filename_of q))))
  = Ok {| detections := detections st ++ table;
          videos_processed := videos_processed st;
          filename := Some (filename_of q) |}.
Proof.
  intros Hq Htable. unfold collect. rewrite bindM_lift.
  unfold index at 1. rewrite Hq, bindM_lift.
  destruct q as [[[fn mo] fw] out]. unfold filename_of in *.
  cbn [fst] in *. unfold video_table in Htable.
  destruct (len (detection_rows E m fn) =? 0).
  - injection Htable as <-. by rewrite app_nil_r.
  - destruct (index (split_on "." (stem fn)) 0) as [ts|e]; [|done].
    cbn [mbind outcome_bind] in Htable. rewrite bindM_lift.
    destruct (index (split_on "." (stem fn)) 1) as [cam|e]; [|done].
    cbn [mbind outcome_bind] in Htable. rewrite bindM_lift.
    destruct (split_date E ts) as [[[date hour] minute]|e]; [|done].
    cbn [mbind outcome_bind] in Htable. injection Htable as <-.
    rewrite bindM_lift. reflexivity.
Qed.

Lemma collect_all_detection chunk ckpt qs :
  forall offset st tables,
    (forall j q, qs !! j = Some q -> chunk !! (offset + j)%nat = Some q) ->
    mapM_o (video_table E model m) (map filename_of qs) = Ok tables ->
    exists st',
      fst (foldM_M (collect E model chunk ckpt) st
             (zip (seq offset (length qs))
                  (map (fun q => Ok (detection_rows E m (filename_of q))) qs)))
      = Ok st'
      /\ detections st' = detections st ++ concat tables
      /\ (forall q, last qs = Some q -> filename st' = Some (filename_of q)).
Proof.
  induction qs as [|q qs IH]; intros offset st tables Hchunk Htables.
  - injection Htables as <-. exists st. simpl. by rewrite app_nil_r.
  - cbn [map mapM_o] in Htables.
    apply bind_Ok_inv in Htables as (table & Htable & Htables).
    apply bind_Ok_inv in Htables as (rest & Hrest & [= <-]).
    cbn [length seq map zip zip_with foldM_M].
    assert (Hq : chunk !! offset = Some q).
    { rewrite <- (Nat.add_0_r offset). by apply (Hchunk 0%nat). }
    pose proof (collect_detection chunk ckpt st offset q table Hq Htable)
      as Hone.
    destruct (IH (S offset)
                 {| detections := detections st ++ table;
                    videos_processed := videos_processed st;
                    filename := Some (filename_of q) |} rest)
      as (st' & Hfold & Hdet & Hname); [|done|].
    { intros j q' Hq'.
      replace (S offset + j)%nat with (offset + S j)%nat by lia.
      by apply Hchunk. }
    exists st'. split; [|split].
    + by rewrite (bindM_fst_Ok _ _ _ Hone).
    + rewrite Hdet. simpl. by rewrite app_assoc.
    + intros q0 Hlast. destruct qs as [|q' qs]; [|by apply Hname].
      simpl in Hfold, Hlast. injection Hfold as <-. by injection Hlast as <-.
Qed.

Lemma count_completion_returns st f :
  filename st = Some f ->
  (forall target, move_when_done = Some target ->
                  shutil_move E f target = Ok tt) ->
  exists st',
    fst (count_completion E models move_when_done st) = Ok st'
    /\ detections st' = detections st.
Proof.
  intros Hf Hmove. unfold count_completion. rewrite Hf, bindM_lift.
  destruct move_when_done as [target|]; [|by eexists].
  cbv zeta. destruct (_ =? _); [|by eexists].
  rewrite (Hmove target eq_refl), bindM_lift. by eexists.
Qed.

Lemma process_chunk_detection st k chunk tables :
  chunk <> [] ->
  Forall plain chunk ->
  Forall movable chunk ->
  mapM_o (video_table E model m) (map filename_of chunk) = Ok tables ->
  exists st',
    fst (wave st (k, chunk)) = Ok st'
    /\ detections st' = detections st ++ concat tables.
Proof.
  intros Hne Hplain Hmovable Htables. unfold process_chunk.
  destruct (Z.leb_spec workers 0) as [?|_]; [lia|].
  rewrite executor_map_run.
  assert (Hresults : map (fun q => fst (task q)) chunk
                     = map (fun q => Ok (detection_rows E m (filename_of q)))
                           chunk).
  { apply map_ext_in. intros q Hq. apply list_elem_of_In in Hq.
    rewrite Forall_forall in Hplain. by rewrite task_detection by auto. }
  rewrite Hresults.
  destruct (collect_all_detection chunk (Z.of_nat k + previous) chunk 0%nat st
              tables) as (st1 & Hfold & Hdet & Hname); [done|done|].
  destruct (last_is_Some chunk Hne) as (q & Hq).
  destruct (count_completion_returns st1 (filename_of q) (Hname q Hq))
    as (st' & Hcount & Hdet').
  { rewrite Forall_forall in Hmovable. apply Hmovable.
    by apply last_Some_elem_of. }
  exists st'. split; [|congruence].
  erewrite bindM_fst_Ok; [|reflexivity]. cbn [fst].
  unfold enumerate. rewrite length_map.
  by rewrite (bindM_fst_Ok _ _ _ Hfold).
Qed.

Lemma waves_detection items :
  forall st tables,
    Forall (fun item : nat * list query =>
              item.2 <> [] /\ Forall plain item.2 /\ Forall movable item.2)
           items ->
    mapM_o (video_table E model m) (map filename_of (concat items.*2))
    = Ok tables ->
    exists st',
      fst (foldM_M wave st items) = Ok st'
      /\ detections st' = detections st ++ concat tables.
Proof.
  induction items as [|[k chunk] items IH]; intros st tables Hitems Htables.
  - injection Htables as <-. exists st. simpl. by rewrite app_nil_r.
  - apply Forall_cons in Hitems as [(Hne & Hplain & Hmovable) Hitems].
    change (concat ((k, chunk) :: items).*2) with (chunk ++ concat items.*2)
      in Htables.
    rewrite map_app in Htables.
    apply mapM_o_app_inv in Htables as (t1 & t2 & -> & Ht1 & Ht2).
    destruct (process_chunk_detection st k chunk t1 Hne Hplain Hmovable Ht1)
      as (st1 & Hone & Hdet1).
    destruct (IH st1 t2 Hitems Ht2) as (st' & Hrest & Hdet).
    exists st'. split.
    + cbn [foldM_M]. by rewrite (bindM_fst_Ok _ _ _ Hone).
    + rewrite Hdet, Hdet1, concat_app. by rewrite app_assoc.
Qed.

End DetectionRun.

Section DetectionRunTheorem.

Context {Model Device Frame : Type}.
Variable E : ProcessDataset.Collaborators Model Device Frame.
Variable models : gmap string Model.
Variable devices : gmap string Device.

Import ProcessDataset.

#[local] Arguments process_chunk : simpl never.


End DetectionRunTheorem.


(* ===================================================================== *)
(** ** The per-video file *)
(* ===================================================================== *)

Lemma map_const_replicate {A B} (b : B) (xs : list A) :
  map (fun _ => b) xs = replicate (length xs) b.
Proof. induction xs as [|x xs IH]; simpl; [done | by f_equal]. Qed.

Lemma mapM_o_Ok_concat {A B C} (f : A -> outcome (list B)) (g : B -> C)
    (h : A -> list C) xs ys :
  (forall x y, x ∈ xs -> f x = Ok y -> map g y = h x) ->
  mapM_o f xs = Ok ys -> map g (concat ys) = flat_map h xs.
Proof.
  revert ys. induction xs as [|x xs IH]; intros ys Hgh; simpl.
  - by intros [= <-].
  - intros H. apply bind_Ok_inv in H as (y & Hy & H).
    apply bind_Ok_inv in H as (ys' & Hys & [= <-]). simpl.
    rewrite map_app. f_equal.
    + apply (Hgh x y); [apply list_elem_of_here | done].
    + apply IH; [|done]. intros x' y' Hx'. apply Hgh.
      by apply list_elem_of_further.
Qed.

Section PerVideoFile.

Context {Model Device Frame : Type}.
Variable E : ProcessDataset.Collaborators Model Device Frame.

Import ProcessDataset.

(** The rows of a frame in the per-video table carry the number of the
    frame, one row per box. *)
Lemma frame_pickle_rows_frames shape i boxes scores idxs rows :
  frame_pickle_rows shape i (TopTf boxes scores idxs) = Ok rows ->
  map pk_frame rows = replicate (length boxes) i.
Proof.
  unfold frame_pickle_rows. intros H.
  replace (replicate (length boxes) i)
    with (map (fun _ : nat => i) (seq 0 (length boxes)))
    by (by rewrite map_const_replicate, length_seq).
  eapply mapM_o_Ok_map; [|exact H].
  intros j row Hrow. cbv beta in Hrow.
  apply bind_Ok_inv in Hrow as (class_id & _ & Hrow).
  apply bind_Ok_inv in Hrow as (score & _ & Hrow).
  apply bind_Ok_inv in Hrow as (bbox & _ & Hrow).
  destruct bbox as [|ymin [|xmin [|ymax [|xmax [|]]]]]; try done.
  apply bind_Ok_inv in Hrow as (w & _ & Hrow).
  apply bind_Ok_inv in Hrow as (h & _ & [= <-]). done.
Qed.

(** X24. Asking for the per-video file changes no row: when
    [process_video] returns with an output directory, it returns the rows
    it returns without one. The file can only add a failure. *)
Theorem per_video_same_rows filename (m : Model) (d : Device) framework out
    rows :
  fst (process_video E filename m d framework (Some out)) = Ok rows ->
  process_video E filename m d framework None = (Ok rows, []).
Proof.
  unfold process_video. rewrite !bindM_lift.
  destruct (infer_video E filename m d framework) as [[data shape]|e]; [|done].
  cbn [bindM retM].
  set (rest := bindM (lift (mapM_o _ data)) _).
  assert (Hrest : snd rest = []).
  { subst rest. rewrite bindM_lift. destruct (mapM_o _ data); [|done]. done. }
  destruct rest as [o log]. simpl in Hrest. subst log.
  destruct (0 <? len data).
  - rewrite bindM_lift. destruct (mapM_o _ (enumerate data)); [|done].
    cbn [bindM emit fst]. by intros ->.
  - cbn [bindM retM fst]. by intros ->.
Qed.

(** X25. The per-video file of a detection model. When [process_video]
    returns for a video with frames and an output directory, it has written
    one file, [<output>/<stem>.pkl], whose table has one row per box kept
    of each frame (the first ten), in frame order, under the number of its
    frame. *)
Theorem per_video_file filename (m : Model) (d : Device) framework out rows
    log :
  framework <> "torch" ->
  VideoCapture E filename <> [] ->
  process_video E filename m d framework (Some out) = (Ok rows, log) ->
  exists df,
    log = [ToPickle (pkl_path out filename) df]
    /\ map pk_frame df
       = flat_map (fun '(i, frame) =>
                     replicate
                       (length (take 10 (detection_boxes
                                           (run_detector E m frame))))
                       i)
                  (enumerate (VideoCapture E filename)).
Proof.
  intros Hfw Hframes. apply String.eqb_neq in Hfw.
  unfold process_video, infer_video. rewrite Hfw.
  rewrite (mapM_o_pure _ (fun frame => get_top_tf (infer_tf E m frame d) 10))
    by done.
  cbn [mbind outcome_bind]. rewrite bindM_lift.
  set (data := map _ (VideoCapture E filename)).
  assert (Hlen : (0 <? len data) = true).
  { apply Z.ltb_lt. subst data. unfold len. rewrite length_map.
    destruct (VideoCapture E filename); [done|]. simpl. lia. }
  rewrite Hlen.
  set (rest := bindM (lift (mapM_o _ data)) _).
  assert (Hrest : snd rest = []).
  { subst rest. rewrite bindM_lift. destruct (mapM_o _ data); [|done]. done. }
  rewrite bindM_lift.
  destruct (mapM_o _ (enumerate data)) as [df_data|e] eqn:Hdf; [|done].
  destruct rest as [o log']. simpl in Hrest. subst log'.
  cbn [bindM emit]. intros [= -> <-].
  exists (concat df_data). split; [done|].
  subst data. rewrite enumerate_map in Hdf.
  rewrite (fun H => mapM_o_Ok_concat _ pk_frame
                      (fun '(i, p) =>
                         match p with
                         | TopTf boxes _ _ => replicate (length boxes) i
                         | TopTorch _ _ => []
                         end) _ _ H Hdf).
  - rewrite flat_map_concat_map, map_map, <- flat_map_concat_map.
    apply flat_map_ext. by intros [i frame].
  - intros [i p] y Hin Hy.
    apply list_elem_of_fmap in Hin as ([i' frame] & [= -> ->] & _).
    by apply frame_pickle_rows_frames in Hy.
Qed.

End PerVideoFile.

(** [video_b] of the demo in per-video mode. *)
Lemma per_video_same_rows_witness :
  exists rows,
    fst (ProcessDataset.process_video Demo.E Demo.video_b "mobilenet" "cpu"
           "tf" (Some "out")) = Ok rows
    /\ ProcessDataset.process_video Demo.E Demo.video_b "mobilenet" "cpu" "tf"
         None = (Ok rows, []).
Proof.
  eexists. split; [vm_compute; reflexivity|].
  apply (per_video_same_rows Demo.E Demo.video_b "mobilenet" "cpu" "tf" "out").
  reflexivity.
Defined.

(** [video_a] of the demo: two frames with two boxes each give four rows,
    under the frame numbers 0, 0, 1, 1. *)
Lemma per_video_file_witness :
  exists rows df,
    ProcessDataset.process_video Demo.E Demo.video_a "mobilenet" "cpu" "tf"
      (Some "out")
    = (Ok rows, [ToPickle "out/2020-01-01T10:30:00.cam1.pkl" df])
    /\ map pk_frame df = [0; 0; 1; 1]%nat.
Proof.
  destruct (ProcessDataset.process_video Demo.E Demo.video_a "mobilenet" "cpu"
              "tf" (Some "out")) as [[rows|e] log] eqn:Hrun;
    [|by vm_compute in Hrun].
  destruct (per_video_file Demo.E Demo.video_a "mobilenet" "cpu" "tf" "out"
              rows log) as (df & -> & Hframes);
    [discriminate | discriminate | exact Hrun |].
  exists rows, df. split; [reflexivity|].
  rewrite Hframes. reflexivity.
Defined.

(* ===================================================================== *)
(** ** More on the export: grouping, columns, errors, the records written *)
(* ===================================================================== *)

Module DatasetMore.

Import Dataset.

Lemma name_lt_trans a b c : name_lt a b -> name_lt b c -> name_lt a c.
Proof.
  unfold name_lt. change String.compare with OrderedTypeEx.String_as_OT.cmp.
  rewrite !OrderedTypeEx.String_as_OT.cmp_lt.
  apply OrderedTypeEx.String_as_OT.lt_trans.
Qed.

Lemma name_lt_irrefl a : ~ name_lt a a.
Proof.
  unfold name_lt. intros H.
  assert (Heq : String.compare a a = Eq)
    by (by apply OrderedTypeEx.String_as_OT.cmp_eq).
  congruence.
Qed.

Lemma compare_Gt s t : String.compare s t = Gt -> name_lt t s.
Proof.
  unfold name_lt. rewrite (String.compare_antisym t s). by intros ->.
Qed.

Lemma insert_sorted_keeps s x sorted :
  x = s \/ x ∈ sorted -> x ∈ insert_sorted s sorted.
Proof.
  induction sorted as [|t rest IH]; simpl.
  - intros [->|H]; [apply list_elem_of_here | by apply elem_of_nil in H].
  - destruct (String.compare s t) eqn:Hcmp.
    + apply String.compare_eq_iff in Hcmp as ->.
      intros [->|H]; [apply list_elem_of_here | done].
    + intros [->|H]; [apply list_elem_of_here | by apply list_elem_of_further].
    + intros [->|H].
      * apply list_elem_of_further, IH. by left.
      * apply elem_of_cons in H as [->|H]; [apply list_elem_of_here|].
        apply list_elem_of_further, IH. by right.
Qed.

Lemma insert_sorted_sorted s sorted :
  StronglySorted name_lt sorted ->
  StronglySorted name_lt (insert_sorted s sorted).
Proof.
  induction 1 as [|t rest Hrest IH Hall]; simpl.
  - repeat constructor.
  - destruct (String.compare s t) eqn:Hcmp.
    + by constructor.
    + constructor; [by constructor|].
      constructor; [done|]. eapply Forall_impl; [exact Hall|].
      intros u Hu. by eapply name_lt_trans.
    + constructor; [done|]. apply Forall_forall. intros u Hu.
      apply DatasetFacts.insert_sorted_elem in Hu as [->|Hu].
      * by apply compare_Gt.
      * rewrite Forall_forall in Hall. by apply Hall.
Qed.

Lemma group_keys_sorted df : StronglySorted name_lt (group_keys df).
Proof.
  unfold group_keys. induction (map file df) as [|s names IH]; simpl.
  - constructor.
  - by apply insert_sorted_sorted.
Qed.

Lemma group_keys_complete df row : row ∈ df -> file row ∈ group_keys df.
Proof.
  unfold group_keys. induction df as [|r df IH]; simpl.
  - intros H. by apply elem_of_nil in H.
  - intros H. apply insert_sorted_keeps.
    apply elem_of_cons in H as [->|H]; [by left | right; by apply IH].
Qed.

Lemma sorted_NoDup names : StronglySorted name_lt names -> NoDup names.
Proof.
  induction 1 as [|t rest Hrest IH Hall]; constructor; [|done].
  intros Hin. rewrite Forall_forall in Hall.
  by apply (name_lt_irrefl t), Hall.
Qed.

Lemma filter_sublist {A} (f : A -> bool) xs : sublist (List.filter f xs) xs.
Proof.
  induction xs as [|x xs IH]; simpl; [constructor|].
  destruct (f x); by constructor.
Qed.

Local Abbreviation rows_named df :=
  (fun name => List.filter (fun row => String.eqb (file row) name) df).

(** The rows of a table, taken by file name over names that are pairwise
    different and hold every file name of the table, are the rows of the
    table. *)
Lemma rows_by_name keys df :
  NoDup keys ->
  (forall row, row ∈ df -> file row ∈ keys) ->
  concat (map (rows_named df) keys) ≡ₚ df.
Proof.
  intros Hnodup. induction df as [|r df IH]; intros Hall.
  - induction keys as [|k keys IHk]; simpl; [done|].
    apply IHk; [by apply NoDup_cons in Hnodup as [_ ?]|].
    intros row H. by apply elem_of_nil in H.
  - assert (Hin : file r ∈ keys) by apply Hall, list_elem_of_here.
    apply list_elem_of_split in Hin as (l1 & l2 & Hkeys).
    assert (Hother : forall k, k ∈ l1 ++ l2 ->
                               rows_named (r :: df) k = rows_named df k).
    { intros k Hk. simpl. destruct (String.eqb_spec (file r) k) as [<-|]; [|done].
      exfalso. rewrite Hkeys in Hnodup.
      apply NoDup_app in Hnodup as (_ & Hl1 & Hl2).
      apply NoDup_cons in Hl2 as [Hl2 _].
      apply elem_of_app in Hk as [Hk|Hk]; [|done].
      apply (Hl1 _ Hk), list_elem_of_here. }
    etrans; [|apply perm_skip, IH; intros row H;
              by apply Hall, list_elem_of_further].
    rewrite Hkeys, !map_app, !concat_app. cbn [map concat].
    rewrite (map_ext_in _ (rows_named df) l1), (map_ext_in _ (rows_named df) l2).
    2: { intros k Hk. apply Hother, elem_of_app. right.
         by apply list_elem_of_In. }
    2: { intros k Hk. apply Hother, elem_of_app. left.
         by apply list_elem_of_In. }
    cbn [List.filter]. rewrite String.eqb_refl. cbn [app].
    by rewrite <- Permutation_middle.
Qed.

(** The columns the loop over the rows fills, when it raises nothing. *)
Lemma add_rows_Ok w h id_map rows cols cols' :
  foldM (add_row w h id_map) cols rows = Ok cols' ->
  xmins cols' = xmins cols ++ map (fun row => over (xmin row) w) rows
  /\ xmaxs cols' = xmaxs cols ++ map (fun row => over (xmax row) w) rows
  /\ ymins cols' = ymins cols ++ map (fun row => over (ymin row) h) rows
  /\ ymaxs cols' = ymaxs cols ++ map (fun row => over (ymax row) h) rows
  /\ classes_text cols' = classes_text cols ++ map class rows
  /\ map Some (classes cols')
     = map Some (classes cols) ++ map (fun row => id_map !! class row) rows.
Proof.
  revert cols. induction rows as [|row rows IH]; intros cols; simpl.
  - intros [= <-]. by rewrite !app_nil_r.
  - intros H. apply bind_Ok_inv in H as (cols1 & Hrow & Hrest).
    unfold add_row in Hrow. destruct (id_map !! class row) as [id|]; [|done].
    injection Hrow as <-.
    apply IH in Hrest as (Hx & HX & Hy & HY & Ht & Hc). simpl in *.
    rewrite Hx, HX, Hy, HY, Ht, Hc, map_app, <- !app_assoc. done.
Qed.

(** The first row with an unknown label stops the loop over the rows. *)
Lemma add_rows_unknown w h id_map rows cols :
  existsb (unknown_label id_map) rows = true ->
  foldM (add_row w h id_map) cols rows = Raise KeyError.
Proof.
  revert cols. induction rows as [|row rows IH]; intros cols; simpl; [done|].
  unfold unknown_label at 1, add_row at 2.
  destruct (id_map !! class row) as [id|]; simpl; [|done].
  apply IH.
Qed.

Lemma all_known id_map rows :
  existsb (unknown_label id_map) rows = false ->
  forall row, row ∈ rows -> is_Some (id_map !! class row).
Proof.
  intros Hnone row Hrow.
  destruct (id_map !! class row) as [id|] eqn:Hid; [by eexists|].
  assert (existsb (unknown_label id_map) rows = true); [|congruence].
  apply existsb_exists. exists row. split; [by apply list_elem_of_In|].
  unfold unknown_label. by rewrite Hid.
Qed.

Lemma write_pairs_runs set_trace images id_map pairs :
  let runs := map (fun '(img_dir, examples) =>
                     generate_tfrecord set_trace images img_dir examples id_map) pairs in
  exists n,
    Forall (fun run => fst run = Ok tt) (take n runs)
    /\ match fst (DatasetJoint.write_pairs set_trace images id_map pairs) with
       | Ok _ =>
           n = length runs
           /\ snd (DatasetJoint.write_pairs set_trace images id_map pairs)
              = concat (map snd runs)
       | Raise e =>
           exists run,
             runs !! n = Some run /\ fst run = Raise e
             /\ snd (DatasetJoint.write_pairs set_trace images id_map pairs)
                = concat (map snd (take (S n) runs))
       end.
Proof.
  cbv zeta. induction pairs as [|[img_dir examples] pairs IH]; simpl.
  - exists 0%nat. split; [constructor | done].
  - change (write_examples set_trace images img_dir id_map (split_by_filename examples))
      with (generate_tfrecord set_trace images img_dir examples id_map).
    destruct (generate_tfrecord set_trace images img_dir examples id_map)
      as [[[]|e] written] eqn:Hrun.
    + destruct IH as (n & Hok & Hresult).
      destruct (DatasetJoint.write_pairs set_trace images id_map pairs) as [r more].
      exists (S n). simpl in *. split; [by constructor|].
      destruct r.
      * destruct Hresult as [-> ->]. done.
      * destruct Hresult as (run & Hrun' & He & ->). by exists run.
    + exists 0%nat. simpl. split; [constructor|].
      eexists. split; [done|]. split; [done|]. simpl. by rewrite app_nil_r.
Qed.

End DatasetMore.

(** X16. [_split_by_filename] partitions the table by file name: the
    groups come in strictly increasing order of their file names, so no
    name comes twice; a group is never empty and holds rows of its file
    name only, in the order of the table; and the rows of all groups
    together are the rows of the table. *)
Theorem split_by_filename_partition df :
  StronglySorted name_lt (map Dataset.filename (Dataset.split_by_filename df))
  /\ (forall group,
        group ∈ Dataset.split_by_filename df ->
        Dataset.object group <> []
        /\ sublist (Dataset.object group) df
        /\ Forall (fun row => Dataset.file row = Dataset.filename group)
                  (Dataset.object group))
  /\ concat (map Dataset.object (Dataset.split_by_filename df)) ≡ₚ df.
Proof.
  unfold Dataset.split_by_filename. rewrite !map_map. cbn [Dataset.filename
    Dataset.object]. rewrite map_id. split; [|split].
  - apply DatasetMore.group_keys_sorted.
  - intros group Hgroup. split.
    { by eapply DatasetFacts.group_nonempty. }
    apply list_elem_of_fmap in Hgroup as (name & -> & _). simpl. split.
    + apply DatasetMore.filter_sublist.
    + apply Forall_forall. intros row Hrow.
      apply list_elem_of_In, filter_In in Hrow as [_ Hrow].
      by apply String.eqb_eq.
  - apply DatasetMore.rows_by_name.
    + apply DatasetMore.sorted_NoDup, DatasetMore.group_keys_sorted.
    + apply DatasetMore.group_keys_complete.
Qed.

(** X17. The example [create_tf_example] returns holds the group as it
    was read: the size and the bytes of the image file, the file name as
    name and as source id, the format [jpg], and one entry per row, in row
    order, in each of the six columns: [xmin] and [xmax] over the width,
    [ymin] and [ymax] over the height, the label, and the id the label map
    gives the label. *)
Theorem create_tf_example_columns set_trace images group path id_map example :
  Dataset.create_tf_example set_trace images group path id_map = Ok example ->
  exists image,
    images !! Dataset.os_path_join path (Dataset.filename group) = Some image
    /\ Dataset.image_height example = Dataset.height image
    /\ Dataset.image_width example = Dataset.width image
    /\ Dataset.image_encoded example = Dataset.encoded_jpg image
    /\ Dataset.image_filename example = Dataset.filename group
    /\ Dataset.image_source_id example = Dataset.filename group
    /\ Dataset.image_format example = "jpg"
    /\ Dataset.bbox_xmin example
       = map (fun row => Dataset.over (Dataset.xmin row) (Dataset.width image))
             (Dataset.object group)
    /\ Dataset.bbox_xmax example
       = map (fun row => Dataset.over (Dataset.xmax row) (Dataset.width image))
             (Dataset.object group)
    /\ Dataset.bbox_ymin example
       = map (fun row => Dataset.over (Dataset.ymin row) (Dataset.height image))
             (Dataset.object group)
    /\ Dataset.bbox_ymax example
       = map (fun row => Dataset.over (Dataset.ymax row) (Dataset.height image))
             (Dataset.object group)
    /\ Dataset.class_text example = map Dataset.class (Dataset.object group)
    /\ map Some (Dataset.class_label example)
       = map (fun row => id_map !! Dataset.class row) (Dataset.object group).
Proof.
  unfold Dataset.create_tf_example. cbv zeta. intros H.
  destruct (images !! _) as [image|]; [|done]. cbn [mbind outcome_bind] in H.
  apply bind_Ok_inv in H as (cols & Hcols & H).
  apply DatasetMore.add_rows_Ok in Hcols as (Hx & HX & Hy & HY & Ht & Hc).
  simpl in Hx, HX, Hy, HY, Ht, Hc.
  apply bind_Ok_inv in H as (hi & _ & H).
  apply bind_Ok_inv in H as (u0 & _ & H).
  apply bind_Ok_inv in H as (lo & _ & H).
  apply bind_Ok_inv in H as (u1 & _ & H).
  destruct (negb _); [done|]. destruct (negb _); [done|].
  injection H as <-. exists image. simpl. by repeat split.
Qed.

(** X18. The order of the failures of [create_tf_example]. An image that
    is not on disk raises [NotFoundError], whatever the rows are; with the
    image read, a row whose label is not in the label map raises
    [KeyError], whatever the coordinates are; with every label known, a
    group without rows raises [ValueError] from [max] of an empty list; and
    a group with rows gives an example, or fails an assertion, or ends
    with the exception that ends a debugger session opened before the
    assertions. *)
Theorem create_tf_example_failures set_trace images group path id_map :
  let result := Dataset.create_tf_example set_trace images group path id_map in
  match images !! Dataset.os_path_join path (Dataset.filename group) with
  | None => result = Raise NotFoundError
  | Some _ =>
      if existsb (unknown_label id_map) (Dataset.object group)
      then result = Raise KeyError
      else match Dataset.object group with
           | [] => result = Raise ValueError
           | _ :: _ =>
               is_ok result = true
               \/ result = Raise AssertionError
               \/ exists site e,
                    set_trace (Dataset.os_path_join path
                                 (Dataset.filename group)) site = Raise e
                    /\ result = Raise e
           end
  end.
Proof.
  cbv zeta. unfold Dataset.create_tf_example.
  set (p := Dataset.os_path_join path (Dataset.filename group)).
  destruct (images !! p) as [image|]; [|done]. cbn [mbind outcome_bind].
  destruct (existsb _ _) eqn:Hunknown.
  { by rewrite DatasetMore.add_rows_unknown. }
  edestruct (DatasetFacts.add_rows_known (Dataset.width image)
               (Dataset.height image) id_map (Dataset.object group))
    as (cols & -> & Hx & HX & Hy & HY).
  { by apply DatasetMore.all_known. }
  cbn [mbind outcome_bind]. rewrite Hx, HX, Hy, HY.
  destruct (Dataset.object group) as [|row rows]; [done|].
  cbn [map app Dataset.xmins Dataset.py_max Dataset.py_min mbind
       outcome_bind].
  destruct (float_lt Dataset.upper_bound _);
    [destruct (set_trace p 0%nat) as [[]|e0] eqn:Hs0|];
    cbn [mbind outcome_bind]; eauto 6;
    (destruct (float_lt _ Dataset.lower_bound);
     [destruct (set_trace p 1%nat) as [[]|e1] eqn:Hs1|];
     cbn [mbind outcome_bind]; eauto 6;
     (destruct (negb _); [by right; left|];
      destruct (negb _); [by right; left | by left])).
Qed.

(** X19. What [generate_tfrecord] leaves in the output file: the examples
    of the leading groups, in group order, up to the first group that
    fails to convert; it ends with the exception of that group, and
    without exception when every group converts. *)
Theorem generate_tfrecord_written set_trace images images_dir examples id_map :
  let run := Dataset.generate_tfrecord set_trace images images_dir examples
               id_map in
  exists n,
    Forall2 (fun group example =>
               Dataset.create_tf_example set_trace images group images_dir id_map
               = Ok example)
            (take n (Dataset.split_by_filename examples)) (snd run)
    /\ match fst run with
       | Ok _ => n = length (Dataset.split_by_filename examples)
       | Raise e =>
           exists group,
             Dataset.split_by_filename examples !! n = Some group
             /\ Dataset.create_tf_example set_trace images group images_dir id_map
                = Raise e
       end.
Proof.
  cbv zeta. unfold Dataset.generate_tfrecord.
  induction (Dataset.split_by_filename examples) as [|group groups IH]; simpl.
  - exists 0%nat. split; [constructor | done].
  - destruct (Dataset.create_tf_example set_trace images group images_dir id_map)
      as [ex|e] eqn:Hex.
    + destruct IH as (n & Hwritten & Hresult).
      destruct (Dataset.write_examples set_trace images images_dir id_map groups)
        as [r written].
      exists (S n). simpl in *. split; [by constructor|].
      destruct r; [by f_equal | done].
    + exists 0%nat. simpl. split; [constructor|]. by exists group.
Qed.

(** X20. [generate_joint_tfrecord] writes what [generate_tfrecord] writes
    for each pair of an image directory and a CSV, one after the other in
    one file, the pairs being made by [zip], which drops the entries of the
    longer list: when every pair converts, all of it and no exception;
    otherwise the records of the pairs up to the first that fails, with
    the records that pair wrote before it failed, and its exception. *)
Theorem generate_joint_tfrecord_written set_trace images images_dirs csv_inputs
    id_map :
  let runs := pair_runs set_trace images images_dirs csv_inputs id_map in
  let joint := DatasetJoint.generate_joint_tfrecord set_trace images
                 images_dirs
                 csv_inputs id_map in
  exists n,
    Forall (fun run => fst run = Ok tt) (take n runs)
    /\ match fst joint with
       | Ok _ => n = length runs /\ snd joint = concat (map snd runs)
       | Raise e =>
           exists run,
             runs !! n = Some run /\ fst run = Raise e
             /\ snd joint = concat (map snd (take (S n) runs))
       end.
Proof.
  cbv zeta. unfold pair_runs, DatasetJoint.generate_joint_tfrecord.
  replace (zip_with _ images_dirs csv_inputs)
    with (map (fun '(img_dir, examples) =>
                 Dataset.generate_tfrecord set_trace images img_dir examples
                                           id_map)
              (zip images_dirs csv_inputs)).
  - apply DatasetMore.write_pairs_runs.
  - unfold zip. generalize csv_inputs.
    induction images_dirs as [|dir dirs IH]; intros [|csv csvs]; simpl;
      try done.
    by rewrite IH.
Qed.

(** The example of the first demo image: one box up to 105 of 100 pixels,
    labelled [car], whose id is 1. *)
Lemma create_tf_example_columns_witness :
  exists example,
    Dataset.create_tf_example Demo.no_terminal Demo.images Demo.group_a "imgs" Demo.id_map
    = Ok example
    /\ Dataset.bbox_xmax example = [Dataset.over (Finite (Qmake 105 1)) 100]
    /\ Dataset.class_text example = ["car"]
    /\ map Some (Dataset.class_label example) = [Some 1].
Proof.
  destruct (Dataset.create_tf_example Demo.no_terminal Demo.images Demo.group_a "imgs"
              Demo.id_map) as [example|e] eqn:Hexample;
    [|by vm_compute in Hexample].
  exists example. split; [done|].
  destruct (create_tf_example_columns Demo.no_terminal Demo.images Demo.group_a "imgs"
              Demo.id_map example Hexample)
    as (image & Himage & _ & _ & _ & _ & _ & _ & _ & HX & _ & _ & Ht & Hc).
  vm_compute in Himage. injection Himage as <-.
  split; [|split].
  - rewrite HX. reflexivity.
  - exact Ht.
  - rewrite Hc. vm_compute. reflexivity.
Defined.

(** Rows of two files in mixed order: two groups, the rows of each in the
    order of the table. *)
Example split_by_filename_order :
  Dataset.split_by_filename [Demo.row_120; Demo.row_105; Demo.row_120]
  = [Demo.group_a;
     {| Dataset.filename := "b.jpg";
        Dataset.object := [Demo.row_120; Demo.row_120] |}].
Proof. reflexivity. Qed.

(** Two CSVs and three directories: the third directory is never read, and
    the failure of the second pair leaves the record of the first. *)
Example joint_export_demo :
  exists written,
    DatasetJoint.generate_joint_tfrecord Demo.operator_continues Demo.images
      ["imgs"; "imgs"; "nowhere"] [[Demo.row_105]; [Demo.row_120]] Demo.id_map
    = (Raise AssertionError, [written]).
Proof. eexists. vm_compute. reflexivity. Qed.

(* ===================================================================== *)
(** ** The entry point: the dataset and the registries *)
(* ===================================================================== *)

Section Main.

Context {Model Device Frame : Type}.
Variable E : ProcessDataset.Collaborators Model Device Frame.
Variable R : ProcessDatasetMain.Runtime Model Device.

Import ProcessDataset ProcessDatasetMain.

#[local] Arguments process_chunk : simpl never.

Local Abbreviation key := (getmtime R).

Lemma insert_by_key_perm (x : string) sorted :
  insert_by_key key x sorted ≡ₚ x :: sorted.
Proof.
  induction sorted as [|y rest IH]; simpl; [done|].
  destruct (Qle_bool (key y) (key x)); [|done].
  rewrite IH. apply perm_swap.
Qed.

Lemma insert_by_key_sorted (x : string) sorted :
  StronglySorted (older R) sorted ->
  StronglySorted (older R) (insert_by_key key x sorted).
Proof.
  induction 1 as [|y rest Hrest IH Hall]; simpl.
  - repeat constructor.
  - destruct (Qle_bool (key y) (key x)) eqn:Hle.
    + constructor; [done|]. rewrite insert_by_key_perm.
      constructor; [|done]. by apply Qle_bool_iff.
    + assert (Hxy : older R x y).
      { unfold older. apply Qlt_le_weak, Qnot_le_lt.
        rewrite <- Qle_bool_iff. by rewrite Hle. }
      constructor; [by constructor|].
      constructor; [done|]. eapply Forall_impl; [exact Hall|].
      intros z Hz. unfold older in *. by eapply Qle_trans.
Qed.

Lemma sorted_by_key_spec (xs : list string) :
  StronglySorted (older R) (sorted_by_key key xs)
  /\ sorted_by_key key xs ≡ₚ xs.
Proof.
  unfold sorted_by_key.
  assert (H : forall acc : list string,
             StronglySorted (older R) acc ->
             StronglySorted (older R)
               (fold_left (fun sorted x => insert_by_key key x sorted) xs acc)
             /\ fold_left (fun sorted x => insert_by_key key x sorted) xs acc
                ≡ₚ acc ++ xs).
  { induction xs as [|x xs IH]; intros acc Hacc; simpl.
    - by rewrite app_nil_r.
    - destruct (IH (insert_by_key key x acc)) as [Hsorted Hperm].
      { by apply insert_by_key_sorted. }
      split; [done|]. rewrite Hperm, insert_by_key_perm.
      by rewrite <- Permutation_middle. }
  destruct (H []) as [Hsorted Hperm]; [constructor|]. by split.
Qed.

Lemma filter_NoDup {A} (f : A -> bool) (xs : list A) :
  NoDup xs -> NoDup (List.filter f xs).
Proof.
  induction 1 as [|x xs Hnew _ IH]; simpl; [constructor|].
  destruct (f x); [|done]. constructor; [|done].
  rewrite list_elem_of_In, filter_In, <- list_elem_of_In. tauto.
Qed.

Lemma list_dataset_NoDup input :
  NoDup (rglob R input) -> NoDup (list_dataset E R input).
Proof.
  intros Hnodup. unfold list_dataset. destruct (isfile E input).
  - apply NoDup_singleton.
  - destruct (sorted_by_key_spec
                (List.filter (fun f => existsb (String.eqb (suffix f)) extensions)
                             (rglob R input))) as [_ Hperm].
    rewrite Hperm. by apply filter_NoDup.
Qed.

Lemma enumerate_videos_sublist process_all dataset videos :
  enumerate_videos E process_all dataset = Ok videos -> sublist videos dataset.
Proof.
  unfold enumerate_videos. destruct process_all.
  - by intros [= <-].
  - intros H. apply bind_Ok_inv in H as ([videos' pts] & Hloop & [= <-]).
    by destruct (fast_loop_inv E dataset [] [] ∅ videos' pts (fast_inv_init E)
                   Hloop).
Qed.

(** X21. The dataset [main] makes of a directory: the files below it
    whose suffix is [.mkv], [.mp4] or [.webm], each as often as the
    directory listing gives it, in the order of their modification
    times. *)
Theorem list_dataset_sorted input :
  isfile E input = false ->
  StronglySorted (older R) (list_dataset E R input)
  /\ list_dataset E R input ≡ₚ List.filter is_video (rglob R input)
  /\ (forall f, f ∈ list_dataset E R input
                <-> f ∈ rglob R input /\ suffix f ∈ extensions).
Proof.
  intros Hdir. unfold list_dataset. rewrite Hdir.
  destruct (sorted_by_key_spec (List.filter is_video (rglob R input)))
    as [Hsorted Hperm].
  split; [done|]. split; [done|]. intros f.
  change (fun f => existsb (String.eqb (suffix f)) extensions) with is_video.
  rewrite Hperm, list_elem_of_In, filter_In, <- list_elem_of_In.
  unfold is_video. rewrite existsb_exists. split.
  - intros [Hin (ext & Hext & Heq)]. split; [done|].
    apply String.eqb_eq in Heq as ->. by apply list_elem_of_In.
  - intros [Hin Hext]. split; [done|]. exists (suffix f).
    split; [by apply list_elem_of_In | apply String.eqb_refl].
Qed.

(** X22. The registries [main] fills. With a framework and a model among
    the choices of the command line, the chosen model has a model and a
    device; the two registries have the same keys; and the model registry
    holds both models under [torch] and only the chosen one under [tf]. *)
Theorem load_models_registers config :
  framework config = "torch" \/ framework config = "tf" ->
  model config = "edge" \/ model config = "ref" ->
  let models := fst (load_models R config) in
  let devices := snd (load_models R config) in
  is_Some (models !! model config)
  /\ is_Some (devices !! model config)
  /\ (forall name, is_Some (models !! name) <-> is_Some (devices !! name))
  /\ (forall name, is_Some (models !! name) ->
        if String.eqb (framework config) "torch"
        then name = "edge" \/ name = "ref"
        else name = model config)
  /\ size models = if String.eqb (framework config) "torch" then 2%nat
                   else 1%nat.
Proof.
  intros Hfw Hmodel. cbv zeta. unfold load_models.
  assert (Hkeys : forall (A : Type) (a b : A) name,
             is_Some ((<["ref" := a]> (<["edge" := b]> ∅) : gmap string A)
                        !! name)
             <-> name = "edge" \/ name = "ref").
  { intros A a b name. rewrite !lookup_insert_is_Some, lookup_empty.
    split.
    - intros [<-|[_ [<-|[_ H]]]]; [by right | by left | by destruct H].
    - intros [->| ->]; [right; split; [done | by left] | by left]. }
  assert (Hkey : forall (A : Type) (a : A) key name,
             is_Some (({[ key := a ]} : gmap string A) !! name)
             <-> name = key).
  { intros A a key name. rewrite lookup_singleton_is_Some. split; by intros ->. }
  destruct Hfw as [-> | ->]; cbn [String.eqb Ascii.eqb Bool.eqb fst snd].
  - split; [apply Hkeys; tauto|]. split.
    { destruct (cuda_is_available R); apply Hkeys; tauto. }
    split; [|split; [by intros name H; apply Hkeys in H | reflexivity]].
    intros name. destruct (cuda_is_available R); by rewrite !Hkeys.
  - destruct Hmodel as [-> | ->]; cbn [String.eqb Ascii.eqb Bool.eqb fst snd].
    + rewrite !insert_empty. split; [by apply Hkey|]. split; [by apply Hkey|].
      split; [intros name; by rewrite !Hkey|].
      split; [by intros name H; apply Hkey in H | apply map_size_singleton].
    + rewrite !insert_empty. split; [by apply Hkey|]. split; [by apply Hkey|].
      split; [intros name; by rewrite !Hkey|].
      split; [by intros name H; apply Hkey in H | apply map_size_singleton].
Qed.

(** X23. Under the framework [torch] the option [--move] moves nothing:
    [main] loads two models, and the run counts each video once. The
    directory listing gives no file twice. *)
Theorem main_torch_never_moves config :
  framework config = "torch" ->
  NoDup (rglob R (input config)) ->
  moves_of (snd (main E R config)) = [].
Proof.
  intros Hfw Hlisting. unfold main, load_models. rewrite Hfw.
  cbn [String.eqb Ascii.eqb Bool.eqb].
  set (models := <["ref" := _]> (<["edge" := _]> ∅)).
  set (devices := if cuda_is_available R then _ else _).
  assert (Hsize : (2 <= size models)%nat).
  { subst models. rewrite !map_size_insert_None, map_size_empty; [lia|done|].
    by rewrite lookup_insert_ne. }
  destruct (process_dataset_cases E models devices
              (list_dataset E R (input config)) (name config) (model config)
              "torch" (output config) (per_video_results config)
              (negb (fast config)) (move config) (max_workers config))
    as [[e ->]|(videos & tmp & prev & cs & Hvideos & _ & _ & Hcs & ->)];
    [done|].
  assert (Hnodup : NoDup videos).
  { eapply sublist_NoDup; [|by eapply enumerate_videos_sublist].
    by apply list_dataset_NoDup. }
  assert (Hloop : forall w,
             moves_of (snd (foldM_M (process_chunk E models devices
                                       (model config) (move config) w prev)
                                    initial_state (enumerate cs))) = []).
  { intros w. apply waves_no_move; [done| | |].
    - apply enumerate_nonempty. intros c Hc. by eapply chunks_nonempty.
    - rewrite enumerate_snd. apply last_videos_NoDup.
      apply chunks_concat in Hcs as [-> | ->]; [constructor|].
      rewrite tasks_of_videos. by apply skip_processed_NoDup.
    - intros v _. apply lookup_empty. }
  match goal with
  | |- context [bindM ?m ?f] => destruct (bindM_snd m f) as [->|(a & _ & ->)]
  end; [apply Hloop|].
  by rewrite moves_of_app, Hloop.
Qed.

End Main.

(** The demo directory: the text file is left out, and the four videos
    come by modification time, which is not the order of the listing. *)
Lemma list_dataset_sorted_witness :
  ProcessDatasetMain.list_dataset Demo.E Demo2.runtime "data" = Demo.dataset
  /\ StronglySorted (older Demo2.runtime)
       (ProcessDatasetMain.list_dataset Demo.E Demo2.runtime "data")
  /\ ProcessDatasetMain.list_dataset Demo.E Demo2.runtime "data"
     ≡ₚ List.filter is_video (ProcessDatasetMain.rglob Demo2.runtime "data")
  /\ (forall f,
        f ∈ ProcessDatasetMain.list_dataset Demo.E Demo2.runtime "data"
        <-> f ∈ ProcessDatasetMain.rglob Demo2.runtime "data"
            /\ suffix f ∈ ProcessDatasetMain.extensions).
Proof.
  split; [vm_compute; reflexivity|].
  apply (list_dataset_sorted Demo.E Demo2.runtime "data"). reflexivity.
Defined.

(** The demo command line: framework [tf], model [edge]. *)
Lemma load_models_registers_witness :
  let models := fst (ProcessDatasetMain.load_models Demo2.runtime Demo2.config) in
  let devices := snd (ProcessDatasetMain.load_models Demo2.runtime Demo2.config) in
  is_Some (models !! "edge")
  /\ is_Some (devices !! "edge")
  /\ (forall name, is_Some (models !! name) <-> is_Some (devices !! name))
  /\ (forall name, is_Some (models !! name) -> name = "edge")
  /\ size models = 1%nat.
Proof.
  apply (load_models_registers Demo2.runtime Demo2.config);
    [by right | by left].
Defined.

(** The demo command line with the framework [torch]. *)
Lemma main_torch_never_moves_witness :
  moves_of (snd (ProcessDatasetMain.main Demo.E Demo2.runtime
                   Demo2.config_torch)) = [].
Proof.
  apply (main_torch_never_moves Demo.E Demo2.runtime Demo2.config_torch).
  - reflexivity.
  - apply (bool_decide_unpack _). vm_compute. exact I.
Defined.

(** The same command line with the framework [tf] moves the last video of
    each of the two waves. *)
Example main_tf_moves :
  moves_of (snd (ProcessDatasetMain.main Demo.E Demo2.runtime Demo2.config))
  = [(Demo.video_b, "done"); (Demo.video_d, "done")].
Proof. vm_compute. reflexivity. Qed.
